(** * The Leaflet / Carto dashboard of [jsbin.xayoxex.js]

    A shallow embedding of the dashboard's control code: the selection
    controller of the editable circle, the Carto data views and their
    callbacks, the bar chart and the choropleth redraw.  The browser, D3,
    Leaflet and Carto are modelled by what the script observes of them. *)

From Stdlib Require Import QArith Qround Qabs ZArith String Ascii List Lia.
From Stdlib Require Import DecimalString DecimalPos DecimalN Lqa.
From stdpp Require Import gmap strings list.

Local Open Scope Z_scope.
Local Open Scope string_scope.

(** ** ECMAScript values the script computes with *)

Module JS.

(** A finite Number is kept as the exact rational it denotes (every
    binary64 value is one), so it has type [Q].  Arithmetic below is
    exact: a quotient such as [12/5] is the rational and not its nearest
    binary64. *)

(** [a < b] and [a <= b] on Numbers. *)
Definition lt (a b : Q) : bool := negb (Qle_bool b a).
Definition le (a b : Q) : bool := Qle_bool a b.

(** [Math.ceil]. *)
Definition Math_ceil (x : Q) : Z := Qceiling x.

(** [ToInt32], the conversion behind [x | 0]. *)
Definition ToInt32 (z : Z) : Z :=
  let m := z mod 2 ^ 32 in
  if (2 ^ 31 <=? m)%Z then m - 2 ^ 32 else m.

(** Truthiness of a string and of a number. *)
Definition truthy_string (s : string) : bool :=
  match s with EmptyString => false | _ => true end.
Definition truthy_number (x : Q) : bool := negb (Qeq_bool x 0).

Definition nl : string := String (ascii_of_nat 10) EmptyString.

(** A template literal: its text chunks, line ends and substitutions, in
    order. *)
Definition template (parts : list string) : string :=
  fold_right String.append "" parts.

(** [String.prototype.includes]. *)
Fixpoint includes (needle hay : string) : bool :=
  if String.prefix needle hay then true
  else match hay with
       | EmptyString => false
       | String _ hay' => includes needle hay'
       end.

(** Decimal digits of a non-negative integer. *)
Definition digits (n : Z) : string :=
  NilZero.string_of_uint (N.to_uint (Z.to_N n)).

Fixpoint zeros (k : nat) : string :=
  match k with
  | O => ""
  | S k' => String "0" (zeros k')
  end.

(** What the script takes from its host and libraries without the result
    being fixed by the script: [Number::toString], the shortest decimal
    that reads back as the same binary64 (used by a template literal that
    interpolates a number), and Leaflet.draw's
    [L.GeometryUtil.readableDistance(d, true)]. *)
Class Host := {
  Number_toString : Q -> string;
  readableDistance : Q -> string
}.

(** [Number.prototype.toFixed(f)] for a finite number, following the
    steps of the language definition: the sign is split off, a magnitude
    of at least 10^21 falls back to [Number::toString], otherwise [n] is
    the integer nearest to [x * 10^f] (the larger one on a tie) and its
    digits are padded to [f + 1] places before the point is inserted. *)
Definition toFixed_with (toString : Q -> string) (f : nat) (x : Q) : string :=
  let s := if lt x 0 then "-" else "" in
  let x := if lt x 0 then Qopp x else x in
  let m :=
    if le (inject_Z (10 ^ 21)) x then toString x
    else
      let n := Qfloor (x * inject_Z (10 ^ Z.of_nat f) + (1 # 2)) in
      let m := digits n in
      if (f =? 0)%nat then m
      else
        let k := String.length m in
        let m := if (k <=? f)%nat then zeros (f + 1 - k) ++ m else m in
        let k := String.length m in
        substring 0 (k - f) m ++ "." ++ substring (k - f) f m
  in s ++ m.

Definition toFixed `{Host} : nat -> Q -> string := toFixed_with Number_toString.

End JS.

(** One host to evaluate examples on.  Whole numbers below 2^53 print as
    their decimal digits, as [Number::toString] prints them; the examples
    only interpolate such numbers.  [readableDistance] is the metric
    branch of Leaflet.draw 0.4. *)
Definition example_Number_toString (x : Q) : string :=
  (if JS.lt x 0 then "-" else "") ++ JS.digits (Qfloor (Qabs x)).

Definition example_readableDistance (d : Q) : string :=
  if JS.lt 1000 d
  then JS.toFixed_with example_Number_toString 2 (d / 1000) ++ " km"
  else example_Number_toString (inject_Z (JS.Math_ceil d)) ++ " m".

#[local] Instance example_host : JS.Host :=
  {| JS.Number_toString := example_Number_toString;
     JS.readableDistance := example_readableDistance |}.

(** ** Exceptions and mutable state

    A computation runs on a store [S]; it returns a value or throws, and in
    both cases leaves the store as far as it got: what a handler wrote
    before it threw stays written. *)

Inductive exn := TypeError | RangeError.

Inductive outcome (A : Type) :=
| Ok (a : A)
| Throw (e : exn).
Arguments Ok {A} a.
Arguments Throw {A} e.

Definition M (S A : Type) : Type := S -> outcome A * S.

Definition ret {S A} (a : A) : M S A := fun s => (Ok a, s).
Definition throw {S A} (e : exn) : M S A := fun s => (Throw e, s).
Definition bind {S A B} (c : M S A) (k : A -> M S B) : M S B :=
  fun s => match c s with
           | (Ok a, s') => k a s'
           | (Throw e, s') => (Throw e, s')
           end.
Definition get {S} : M S S := fun s => (Ok s, s).
Definition modify {S} (f : S -> S) : M S unit := fun s => (Ok tt, f s).
Definition exec {S A} (c : M S A) (s : S) : S := snd (c s).
Definition result {S A} (c : M S A) (s : S) : outcome A := fst (c s).

(** Run a computation on a part of the store. *)
Definition zoom {S T A} (proj : S -> T) (upd : T -> S -> S) (c : M T A) : M S A :=
  fun s => let (r, t) := c (proj s) in (r, upd t s).

Declare Scope js_scope.
Delimit Scope js_scope with js.
Notation "'let*' x ':=' c 'in' k" := (bind c (fun x => k))
  (at level 10, x name, c at level 100, k at level 200) : js_scope.
Notation "c '>>' k" := (bind c (fun _ => k))
  (at level 100, k at level 200, right associativity) : js_scope.

(** A [for] loop over an array, stopped by the first exception. *)
Fixpoint forEach {S A} (body : A -> M S unit) (l : list A) : M S unit :=
  match l with
  | [] => ret tt
  | a :: l' => (body a >> forEach body l')%js
  end.

(** ** D3 as the script uses it

    The script calls D3 v5 ([d3.json] returns a promise, listeners receive
    the datum first).  The functions below are those of d3-array and
    d3-scale that decide what [updateMap] and [createChart] compute, each
    as the library defines it. *)

Module d3.

(** [d3.max(values, valueof)]: [undefined] on an empty array. *)
Definition max {A} (values : list A) (valueof : A -> Q) : option Q :=
  fold_left
    (fun max a =>
       let value := valueof a in
       match max with
       | None => Some value
       | Some m => if JS.lt m value then Some value else max
       end)
    values None.

(** [d3.range(start, stop, step)].  [None] is NaN, what [+undefined] and
    [undefined / 5] give.  The count is
    [Math.max(0, Math.ceil((stop - start) / step)) | 0]; a quotient that is
    not finite (NaN, or an infinity from a zero step) becomes 0 under
    [| 0], and [new Array(n)] throws a RangeError for a negative [n].
    The values [start + i * step] are exact here, as all arithmetic is;
    d3 rounds each to binary64. *)
Definition range_count (start stop step : option Q) : Z :=
  match start, stop, step with
  | Some a, Some b, Some c =>
      if Qeq_bool c 0 then 0
      else JS.ToInt32 (Z.max 0 (JS.Math_ceil ((b - a) / c)))
  | _, _, _ => 0
  end.

Definition range (start stop step : option Q) : outcome (list Q) :=
  let n := range_count start stop step in
  if (n <? 0)%Z then Throw RangeError
  else match start, step with
       | Some a, Some c =>
           Ok (map (fun i => (a + inject_Z (Z.of_nat i) * c)%Q) (seq 0 (Z.to_nat n)))
       | _, _ => Ok []
       end.

(** [d3.bisectRight(a, x, lo, hi)]: the binary search
    [while (lo < hi) { mid = lo + hi >>> 1;
       if (a[mid] > x) hi = mid; else lo = mid + 1 }].
    A read past the end is [undefined], which compares false. *)
Fixpoint bisect_loop (fuel : nat) (a : list Q) (x : Q) (lo hi : nat) : nat :=
  match fuel with
  | O => lo
  | S fuel' =>
      if (lo <? hi)%nat then
        let mid := ((lo + hi) / 2)%nat in
        match nth_error a mid with
        | Some am =>
            if JS.lt x am then bisect_loop fuel' a x lo mid
            else bisect_loop fuel' a x (mid + 1) hi
        | None => bisect_loop fuel' a x (mid + 1) hi
        end
      else lo
  end.

Definition bisectRight (a : list Q) (x : Q) (lo hi : nat) : nat :=
  bisect_loop (hi - lo) a x lo hi.

(** [d3.scaleThreshold()].  Each of the setters [.domain(_)] and
    [.range(_)] recomputes [n = Math.min(domain.length, range.length - 1)];
    after both calls [n] is as below.  (For an empty range the library has
    [n = -1]; the search over [0, n) is empty for both.) *)
Record scaleThreshold := {
  domain : list Q;
  range_ : list string;
  n : nat
}.

Definition scaleThreshold_of (dom : list Q) (rng : list string) : scaleThreshold :=
  {| domain := dom; range_ := rng;
     n := Nat.min (List.length dom) (List.length rng - 1) |}.

(** [scale(x)] is [range[bisect(domain, x, 0, n)]]. *)
Definition scale (s : scaleThreshold) (x : Q) : option string :=
  nth_error (range_ s) (bisectRight (domain s) x 0 (n s)).

Fixpoint indexOf (y : string) (l : list string) (i : nat) : option nat :=
  match l with
  | [] => None
  | z :: l' => if String.eqb z y then Some i else indexOf y l' (S i)
  end.

(** [scale.invertExtent(y)] is [[domain[i - 1], domain[i]]] for
    [i = range.indexOf(y)]; either end may be [undefined]. *)
Definition invertExtent (s : scaleThreshold) (y : string) : option Q * option Q :=
  match indexOf y (range_ s) 0 with
  | Some i =>
      ((match i with O => None | S j => nth_error (domain s) j end),
       nth_error (domain s) i)
  | None => (None, None)
  end.

(** [d3.schemeBlues[5]]. *)
Definition schemeBlues5 : list string :=
  ["#eff3ff"; "#bdd7e7"; "#6baed6"; "#3182bd"; "#08519c"].

(** [d3.scaleLinear().domain([d0, d1]).rangeRound([r0, r1])]: the script
    reads back its domain and range and hands it to the axis and the
    [rect] attributes. *)
Record scaleLinear := {
  ldomain : Q * Q;
  lrange : Z * Z
}.

End d3.

(** ** Carto: SQL sources and category data views *)

Module carto.

(** [carto.source.SQL]: the current query, and every query handed to
    [setQuery] so far, oldest first. *)
Record SQL := {
  query : string;
  pushed : list string
}.

Definition new_SQL (q : string) : SQL := {| query := q; pushed := [] |}.

Definition setQuery (q : string) (src : SQL) : SQL :=
  {| query := q; pushed := pushed src ++ [q] |}.

Inductive operation := COUNT | SUM | AVG | MIN | MAX.

(** The two [dataChanged] callbacks the script registers. *)
Inductive callback := initBarChart_cb | zipChanged_cb.

Definition callback_eqb (a b : callback) : bool :=
  match a, b with
  | initBarChart_cb, initBarChart_cb => true
  | zipChanged_cb, zipChanged_cb => true
  | _, _ => false
  end.

(** [carto.dataview.Category(source, column, {operation, limit})] with the
    listeners of its [dataChanged] event in the order they were added. *)
Record Category := {
  column : string;
  operation_ : operation;
  limit : nat;
  dataChanged : list callback
}.

Definition new_Category (col : string) (op : operation) (lim : nat) : Category :=
  {| column := col; operation_ := op; limit := lim; dataChanged := [] |}.

Definition on (cb : callback) (v : Category) : Category :=
  {| column := column v; operation_ := operation_ v; limit := limit v;
     dataChanged := dataChanged v ++ [cb] |}.

Definition off (cb : callback) (v : Category) : Category :=
  {| column := column v; operation_ := operation_ v; limit := limit v;
     dataChanged := List.filter (fun c => negb (callback_eqb c cb)) (dataChanged v) |}.

End carto.

(** ** Leaflet: the editable circle *)

Module L.

Record LatLng := { lat : Q; lng : Q }.

(** [L.circle(latlng, radius)] with [getLatLng()] and [getRadius()]. *)
Record Circle := {
  getLatLng : LatLng;
  getRadius : Q
}.

End L.

(** ** The page *)

(** What a [.zipcode] path is bound to: a GeoJSON feature (of which the
    script reads [properties.zipcode]) after [reproject], a
    [[name, value]] pair after a keyed join in [updateMap]. *)
Inductive datum :=
| Feature (zipcode : string)
| Pair (name : string) (value : Q).

Record PathNode := {
  bound : datum;
  fill : option string
}.

(** A legend [rect]: the extent it was bound to and its [fill]; its [x]
    and [width] attributes are [x(d0)] and [x(d1) - x(d0)] on the legend's
    linear scale. *)
Record LegendBox := {
  extent : Q * Q;
  box_fill : option string
}.

Record Legend := {
  rects : list LegendBox;
  axis_scale : option d3.scaleLinear;
  tickValues : list Q;
  caption_x : option Z;
  caption : string
}.

(** The bar chart group: the [class] of each axis group appended, and the
    datum of each [.bar] rect in document order. *)
Record Chart := {
  axes : list string;
  bars : list (string * Q)
}.

Record Selection := {
  cuisine : string;
  data : list (string * Q)
}.

(** Everything the script's closures share.  [createChart_log] records the
    [byCuisine] argument of every call of [createChart]. *)
Record App := {
  zipcodes : list string;
  selection : Selection;
  resData : carto.SQL;
  subwaySource : carto.SQL;
  totalView : carto.Category;
  zipView : carto.Category;
  gChart : Chart;
  gMap : list PathNode;
  legend : Legend;
  circle : L.Circle;
  circleUpdated : bool;
  infoBox : string;
  createChart_log : list (list (string * Q))
}.

Definition set_selection (f : Selection -> Selection) (a : App) : App :=
  let (z, s, r, sw, tv, zv, gc, gm, lg, c, cu, ib, cl) := a in
  Build_App z (f s) r sw tv zv gc gm lg c cu ib cl.
Definition set_resData (f : carto.SQL -> carto.SQL) (a : App) : App :=
  let (z, s, r, sw, tv, zv, gc, gm, lg, c, cu, ib, cl) := a in
  Build_App z s (f r) sw tv zv gc gm lg c cu ib cl.
Definition set_subwaySource (f : carto.SQL -> carto.SQL) (a : App) : App :=
  let (z, s, r, sw, tv, zv, gc, gm, lg, c, cu, ib, cl) := a in
  Build_App z s r (f sw) tv zv gc gm lg c cu ib cl.
Definition set_totalView (f : carto.Category -> carto.Category) (a : App) : App :=
  let (z, s, r, sw, tv, zv, gc, gm, lg, c, cu, ib, cl) := a in
  Build_App z s r sw (f tv) zv gc gm lg c cu ib cl.
Definition set_zipView (f : carto.Category -> carto.Category) (a : App) : App :=
  let (z, s, r, sw, tv, zv, gc, gm, lg, c, cu, ib, cl) := a in
  Build_App z s r sw tv (f zv) gc gm lg c cu ib cl.
Definition set_gChart (f : Chart -> Chart) (a : App) : App :=
  let (z, s, r, sw, tv, zv, gc, gm, lg, c, cu, ib, cl) := a in
  Build_App z s r sw tv zv (f gc) gm lg c cu ib cl.
Definition set_gMap (f : list PathNode -> list PathNode) (a : App) : App :=
  let (z, s, r, sw, tv, zv, gc, gm, lg, c, cu, ib, cl) := a in
  Build_App z s r sw tv zv gc (f gm) lg c cu ib cl.
Definition set_legend (f : Legend -> Legend) (a : App) : App :=
  let (z, s, r, sw, tv, zv, gc, gm, lg, c, cu, ib, cl) := a in
  Build_App z s r sw tv zv gc gm (f lg) c cu ib cl.
Definition set_circle (f : L.Circle -> L.Circle) (a : App) : App :=
  let (z, s, r, sw, tv, zv, gc, gm, lg, c, cu, ib, cl) := a in
  Build_App z s r sw tv zv gc gm lg (f c) cu ib cl.
Definition set_circleUpdated (b : bool) (a : App) : App :=
  let (z, s, r, sw, tv, zv, gc, gm, lg, c, cu, ib, cl) := a in
  Build_App z s r sw tv zv gc gm lg c b ib cl.
Definition set_infoBox (h : string) (a : App) : App :=
  let (z, s, r, sw, tv, zv, gc, gm, lg, c, cu, ib, cl) := a in
  Build_App z s r sw tv zv gc gm lg c cu h cl.
Definition log_createChart (byCuisine : list (string * Q)) (a : App) : App :=
  let (z, s, r, sw, tv, zv, gc, gm, lg, c, cu, ib, cl) := a in
  Build_App z s r sw tv zv gc gm lg c cu ib (cl ++ [byCuisine]).

(** ** D3 data joins on the page *)

(** [selection.data(values)] without a key joins by index: the i-th node
    is rebound to the i-th value, values past the last node are entered,
    and [enter().append(..)] adds one node for each of them; nodes past
    the last value keep what they had. *)
Fixpoint bindIndex {N V} (rebind : V -> N -> N) (enter : V -> N)
    (values : list V) (nodes : list N) : list N :=
  match values, nodes with
  | [], _ => nodes
  | v :: values', [] => enter v :: bindIndex rebind enter values' []
  | v :: values', node :: nodes' => rebind v node :: bindIndex rebind enter values' nodes'
  end.

(** The key function of [updateMap], [d => (d[0] ? d[0] : d.properties.zipcode)].
    A feature has no property [0]; a pair whose name is falsy has no
    [properties], and reading [zipcode] of [undefined] throws. *)
Definition key (d : datum) : outcome string :=
  match d with
  | Feature zipcode => Ok zipcode
  | Pair name _ => if JS.truthy_string name then Ok name else Throw TypeError
  end.

(** [selection.data(values, key)], the three loops of d3-selection's
    [bindKey].  Nodes are named by their position in the group. *)

(** First loop: the key of every node; a node whose key is taken already
    goes to the exit selection. *)
Fixpoint bindKey_nodes (group : list PathNode) (i : nat)
    (nodeByKeyValue : gmap string nat) (keyValues : list string) (exit : list nat)
    : outcome (gmap string nat * list string * list nat) :=
  match group with
  | [] => Ok (nodeByKeyValue, keyValues, exit)
  | node :: group' =>
      match key (bound node) with
      | Throw e => Throw e
      | Ok keyValue =>
          match nodeByKeyValue !! keyValue with
          | Some _ => bindKey_nodes group' (S i) nodeByKeyValue
                        (keyValues ++ [keyValue]) (exit ++ [i])
          | None => bindKey_nodes group' (S i) (<[keyValue := i]> nodeByKeyValue)
                        (keyValues ++ [keyValue]) exit
          end
      end
  end.

Definition rebind (d : string * Q) (node : PathNode) : PathNode :=
  {| bound := Pair (fst d) (snd d); fill := fill node |}.

(** Second loop: the key of every datum; the node of that key, if one is
    left, is rebound at once and joins the update selection. *)
Fixpoint bindKey_data (values : list (string * Q))
    (nodeByKeyValue : gmap string nat) (update : list nat)
    : M (list PathNode) (gmap string nat * list nat) :=
  match values with
  | [] => ret (nodeByKeyValue, update)
  | d :: values' =>
      match key (Pair (fst d) (snd d)) with
      | Throw e => throw e
      | Ok keyValue =>
          match nodeByKeyValue !! keyValue with
          | Some i =>
              (modify (alter (rebind d) i) >>
               bindKey_data values' (delete keyValue nodeByKeyValue) (update ++ [i]))%js
          | None => bindKey_data values' nodeByKeyValue update
          end
      end
  end.

(** Third loop: a node still registered under its own key was not bound. *)
Fixpoint bindKey_exit (keyValues : list string) (i : nat)
    (nodeByKeyValue : gmap string nat) (exit : list nat) : list nat :=
  match keyValues with
  | [] => exit
  | keyValue :: keyValues' =>
      match nodeByKeyValue !! keyValue with
      | Some j => if (i =? j)%nat
                  then bindKey_exit keyValues' (S i) nodeByKeyValue (exit ++ [i])
                  else bindKey_exit keyValues' (S i) nodeByKeyValue exit
      | None => bindKey_exit keyValues' (S i) nodeByKeyValue exit
      end
  end.

(** The update and exit selections, as positions in the group. *)
Definition bindKey (values : list (string * Q)) : M (list PathNode) (list nat * list nat) :=
  (let* group := get in
   match bindKey_nodes group 0 ∅ [] [] with
   | Throw e => throw e
   | Ok (nodeByKeyValue, keyValues, exit) =>
       let* r := bindKey_data values nodeByKeyValue [] in
       ret (snd r, bindKey_exit keyValues 0 (fst r) exit)
   end)%js.

(** [sel.transition().duration(300).style("fill", f)] on the nodes of a
    selection: each ends with the fill [f] gives for its datum. *)
Definition style_fill (sel : list nat) (f : datum -> option string)
    (nodes : list PathNode) : list PathNode :=
  fold_left
    (fun ns i => alter (fun node => {| bound := bound node; fill := f (bound node) |}) i ns)
    sel nodes.

(** ** The script *)

Section Script.
Context `{JS.Host}.

Local Open Scope js_scope.

(** *** [setupSelectionHandlers] and its three closures *)

(** The table [updateCaption] writes into the info box for a circle. *)
Definition captionHtml (c : L.Circle) : string :=
  let radius := JS.readableDistance (L.getRadius c) in
  let lat := JS.toFixed 4 (L.lat (L.getLatLng c)) in
  let lng := JS.toFixed 4 (L.lng (L.getLatLng c)) in
  JS.template
    [ "<table style='width:100%'>"; JS.nl;
      "                   <tr><th>Coords</th><td>"; lat; ","; lng; "</td></tr>"; JS.nl;
      "                   <tr><th>Radius</th><td>"; radius; "</td></tr>"; JS.nl;
      "                   </table>" ].

Definition updateCaption : M App unit :=
  let* a := get in
  let caption := captionHtml (circle a) in
  modify (set_infoBox caption).

Definition updateQueryStatus : M App unit :=
  modify (set_circleUpdated true) >>
  updateCaption.

(** The query [updateQuery] builds for a circle. *)
Definition circleQuery (c : L.Circle) : string :=
  let radius := L.getRadius c in
  let lat := JS.toFixed 4 (L.lat (L.getLatLng c)) in
  let lng := JS.toFixed 4 (L.lng (L.getLatLng c)) in
  JS.template
    [ "SELECT *"; JS.nl;
      "                      FROM huyvo.ourdata"; JS.nl;
      "                     WHERE line like '%F%'"; JS.nl;
      "                       AND ST_DWithin(the_geom::geography,"; JS.nl;
      "                                      CDB_LatLng("; lat; ","; lng; ")::geography,"; JS.nl;
      "                                      "; JS.Number_toString radius; ")"; JS.nl;
      "          " ].

Definition updateQuery : M App unit :=
  let* a := get in
  if circleUpdated a then
    modify (set_circleUpdated false) >>
    let* a := get in
    let query := circleQuery (circle a) in
    modify (set_subwaySource (carto.setQuery query))
  else ret tt.

(** [let circleUpdated = true; updateQueryStatus(null);] after the three
    handlers are registered on the map. *)
Definition setupSelectionHandlers : M App unit :=
  modify (set_circleUpdated true) >>
  updateQueryStatus.

(** *** [createChart] *)

(** The click handler of a bar bound to [d]. *)
Definition categoryQuery (name : string) : string :=
  JS.template
    [ JS.nl;
      "          SELECT *"; JS.nl;
      "            FROM htv210.nyc_restaurant_grades"; JS.nl;
      "           WHERE cuisine='"; name; "'"; JS.nl;
      "        " ].

Definition bar_click (d : string * Q) : M App unit :=
  let query := categoryQuery (fst d) in
  modify (set_resData (carto.setQuery query)) >>
  modify (set_selection (fun s => {| cuisine := fst d; data := data s |})).

(** [createChart(g, byCuisine, sqlSource, selection)].  The scales are
    D3's; of the [let] initialisers the script's own part is
    [data.slice(-1)[0][0]], which reads index [0] of [undefined] when
    [data] is empty.  Then four axis groups are appended and
    [g.selectAll(".bar").data(data).enter().append("rect")] adds the
    bars, each with the handlers. *)
Definition createChart (byCuisine : list (string * Q)) : M App unit :=
  modify (log_createChart byCuisine) >>
  let data := firstn 25 byCuisine in
  let maxValue := d3.max data snd in
  match last data with
  | None => throw TypeError
  | Some _ =>
      modify (set_gChart (fun g =>
        {| axes := axes g ++ ["axis axis--x"; "axis axis--y"; "grid axis--x"; "axis axis--x"];
           bars := bindIndex (fun d _ => d) (fun d => d) data (bars g) |}))
  end.

(** *** [updateMap] *)

Definition steps : nat := 5.

(** [d[1]] of a bound datum. *)
Definition datum_value (d : datum) : option Q :=
  match d with
  | Pair _ value => Some value
  | Feature _ => None
  end.

Definition or_else (v : option Q) (dflt : Q) : Q :=
  match v with
  | Some q => if JS.truthy_number q then q else dflt
  | None => dflt
  end.

Definition updateMap : M App unit :=
  let* a := get in
  let data := data (selection a) in
  let maxCount := d3.max data snd in
  match d3.range (Some 0%Q) maxCount
          (match maxCount with
           | Some m => Some (m / inject_Z (Z.of_nat steps))%Q
           | None => None
           end) with
  | Throw e => throw e
  | Ok thresholds =>
      let color := d3.scaleThreshold_of thresholds d3.schemeBlues5 in
      let* zipcodes := zoom gMap (fun g => set_gMap (fun _ => g)) (bindKey data) in
      let x := {| d3.ldomain := (0%Q, or_else maxCount 0%Q); d3.lrange := (50, 300) |} in
      let colorOf (d : datum) :=
        match datum_value d with
        | Some v => d3.scale color v
        | None => None
        end in
      modify (set_gMap (style_fill (fst zipcodes) colorOf)) >>
      modify (set_gMap (style_fill (snd zipcodes) (fun _ => Some "none"))) >>
      let boxes :=
        map (fun c =>
               let d := d3.invertExtent color c in
               (or_else (fst d) (fst (d3.ldomain x)),
                or_else (snd d) (snd (d3.ldomain x))))
            (d3.range_ color) in
      modify (set_legend (fun lg =>
        {| rects := bindIndex
                      (fun d _ => {| extent := d; box_fill := d3.scale color (fst d) |})
                      (fun d => {| extent := d; box_fill := d3.scale color (fst d) |})
                      boxes (rects lg);
           axis_scale := Some x;
           tickValues := d3.domain color;
           caption_x := Some (fst (d3.lrange x));
           caption := JS.template ["Number of "; cuisine (selection a); " Restaurants"] |}))
  end.

(** *** [createMap] and its [reproject] *)

(** [g.selectAll(".zipcode").data(zipcodes.features)], a path appended for
    every feature entered, then [updateMap]. *)
Definition reproject : M App unit :=
  let* a := get in
  modify (set_gMap
            (bindIndex (fun z node => {| bound := Feature z; fill := fill node |})
                       (fun z => {| bound := Feature z; fill := None |})
                       (zipcodes a))) >>
  updateMap.

(** The legend control is added with an empty caption; then [reproject()]. *)
Definition createMap : M App unit :=
  modify (set_legend (fun _ =>
    {| rects := []; axis_scale := None; tickValues := [];
       caption_x := None; caption := "" |})) >>
  reproject.

(** *** [createChartFromCarto] and its callbacks *)

Definition initBarChart (categories : list (string * Q)) : M App unit :=
  let byCuisine := map (fun d => (fst d, snd d)) categories in
  createChart byCuisine >>
  modify (set_totalView (carto.off carto.initBarChart_cb)).

Definition zipChanged (categories : list (string * Q)) : M App unit :=
  modify (set_selection (fun s =>
    {| cuisine := cuisine s; data := map (fun d => (fst d, snd d)) categories |})) >>
  updateMap.

Definition createChartFromCarto : M App unit :=
  modify (set_resData (fun _ => carto.new_SQL (JS.template
    [ JS.nl;
      "    SELECT *"; JS.nl;
      "      FROM huyvo.nyc_restaurant_grades"; JS.nl;
      "  " ]))) >>
  modify (set_totalView (fun _ =>
    carto.on carto.initBarChart_cb (carto.new_Category "cuisine" carto.COUNT 1000))) >>
  modify (set_zipView (fun _ =>
    carto.on carto.zipChanged_cb (carto.new_Category "zipcode" carto.COUNT 1000))).

(** *** [createCartoLayer] *)

Definition createCartoLayer : M App unit :=
  modify (set_subwaySource (fun _ => carto.new_SQL (JS.template
    [ JS.nl;
      "    SELECT * FROM huyvo.ourdata"; JS.nl;
      "    WHERE line like '%F%'"; JS.nl;
      "  " ]))).

(** *** [createBaseMap] and [initVisualization] *)

Definition cusp : L.LatLng := {| L.lat := 40692908 # 1000000; L.lng := -739896452 # 10000000 |}.

(** The page before the script has run: an [svg], the map [div], nothing
    drawn, no source or view yet. *)
Definition blank (features : list string) : App :=
  {| zipcodes := features;
     selection := {| cuisine := ""; data := [] |};
     resData := carto.new_SQL "";
     subwaySource := carto.new_SQL "";
     totalView := carto.new_Category "" carto.COUNT 0;
     zipView := carto.new_Category "" carto.COUNT 0;
     gChart := {| axes := []; bars := [] |};
     gMap := [];
     legend := {| rects := []; axis_scale := None; tickValues := [];
                  caption_x := None; caption := "" |};
     circle := {| L.getLatLng := cusp; L.getRadius := 1000 |};
     circleUpdated := false;
     infoBox := "";
     createChart_log := [] |}.

Definition createBaseMap : M App unit :=
  modify (set_circle (fun _ => {| L.getLatLng := cusp; L.getRadius := 1000 |})) >>
  modify (set_infoBox "").

Definition initVisualization : M App unit :=
  createBaseMap >>
  modify (set_selection (fun _ => {| cuisine := "All"; data := [] |})) >>
  createMap >>
  createChartFromCarto >>
  createCartoLayer >>
  setupSelectionHandlers.

(** *** Events *)

(** What reaches the script after start-up: a [dataChanged] delivery of
    either view with its categories, a click on the i-th bar, the map's
    [zoomend], the two edit events (fired by Leaflet.draw once the circle
    has its new centre or radius) and the map's [mouseup]. *)
Inductive event :=
| totalView_dataChanged (categories : list (string * Q))
| zipView_dataChanged (categories : list (string * Q))
| click (i : nat)
| zoomend
| EDITMOVE (latlng : L.LatLng)
| EDITRESIZE (radius : Q)
| mouseup.

Definition call (categories : list (string * Q)) (cb : carto.callback) : M App unit :=
  match cb with
  | carto.initBarChart_cb => initBarChart categories
  | carto.zipChanged_cb => zipChanged categories
  end.

(** [trigger('dataChanged', newData)] calls the listeners registered at
    that moment, in order. *)
Definition trigger (view : App -> carto.Category) (categories : list (string * Q)) : M App unit :=
  let* a := get in
  forEach (call categories) (carto.dataChanged (view a)).

Definition dispatch (e : event) : M App unit :=
  match e with
  | totalView_dataChanged categories => trigger totalView categories
  | zipView_dataChanged categories => trigger zipView categories
  | click i =>
      let* a := get in
      match bars (gChart a) !! i with
      | Some d => bar_click d
      | None => ret tt
      end
  | zoomend => reproject
  | EDITMOVE latlng =>
      modify (set_circle (fun c => {| L.getLatLng := latlng; L.getRadius := L.getRadius c |})) >>
      updateQueryStatus
  | EDITRESIZE radius =>
      modify (set_circle (fun c => {| L.getLatLng := L.getLatLng c; L.getRadius := radius |})) >>
      updateQueryStatus
  | mouseup => updateQuery
  end.

(** One turn of the event loop: an exception that escapes the handler ends
    the turn and the page stays as the handler left it. *)
Definition step (a : App) (e : event) : App := exec (dispatch e) a.

Definition run (a : App) (es : list event) : App := fold_left step es a.

(** The page once [initVisualization] has run on the fetched features. *)
Definition start (features : list string) : App := exec initVisualization (blank features).

End Script.

(** ** Observations used to state the properties *)

(** The geometry-edit events. *)
Definition is_edit (e : event) : bool :=
  match e with
  | EDITMOVE _ | EDITRESIZE _ => true
  | _ => false
  end.

(** The circle after an edit event, as Leaflet.draw leaves it. *)
Definition edited (c : L.Circle) (e : event) : L.Circle :=
  match e with
  | EDITMOVE latlng => {| L.getLatLng := latlng; L.getRadius := L.getRadius c |}
  | EDITRESIZE radius => {| L.getLatLng := L.getLatLng c; L.getRadius := radius |}
  | _ => c
  end.

Definition is_mouseup (e : event) : bool :=
  match e with
  | mouseup => true
  | _ => false
  end.

(** No geometry-edit event since the last [mouseup] of a history, or
    since start-up if it has none. *)
Fixpoint no_edit_since_commit (es : list event) : bool :=
  match es with
  | [] => true
  | e :: es' =>
      if existsb is_mouseup es'
      then no_edit_since_commit es'
      else negb (existsb is_edit (e :: es'))
  end.

Section Readings.
Context `{JS.Host}.

(** The reading of "a commit gesture with no edit since the last commit,
    or since start-up, issues no query update": after any history without
    such an edit, a [mouseup] leaves the list of queries pushed to the
    subway source as it was. *)
Definition commit_without_edit_pushes_nothing : Prop :=
  forall (features : list string) (es : list event),
    no_edit_since_commit es = true ->
    carto.pushed (subwaySource (step (run (start features) es) mouseup)) =
    carto.pushed (subwaySource (run (start features) es)).

End Readings.

(** The arguments of the [createChart] calls a history leads to when
    [initBarChart] is subscribed at its start: every [totalView] delivery
    up to and including the first one that carries a category. *)
Fixpoint chart_calls (es : list event) : list (list (string * Q)) :=
  match es with
  | [] => []
  | totalView_dataChanged [] :: es' => [] :: chart_calls es'
  | totalView_dataChanged categories :: _ => [categories]
  | _ :: es' => chart_calls es'
  end.

(** The first [totalView] delivery of a history that carries a category. *)
Fixpoint first_categories (es : list event) : list (string * Q) :=
  match es with
  | [] => []
  | totalView_dataChanged [] :: es' => first_categories es'
  | totalView_dataChanged categories :: _ => categories
  | _ :: es' => first_categories es'
  end.

(** The table a query selects from: the word after its first [FROM]. *)
Definition is_space (c : ascii) : bool :=
  match nat_of_ascii c with
  | 9%nat | 10%nat | 13%nat | 32%nat => true
  | _ => false
  end.

Fixpoint words (cur : string) (s : string) : list string :=
  match s with
  | EmptyString => match cur with EmptyString => [] | _ => [cur] end
  | String c s' =>
      if is_space c
      then match cur with
           | EmptyString => words "" s'
           | _ => cur :: words "" s'
           end
      else words (cur ++ String c "") s'
  end.

Fixpoint after_FROM (ws : list string) : option string :=
  match ws with
  | [] => None
  | w :: ws' => if String.eqb w "FROM" then head ws' else after_FROM ws'
  end.

Definition sql_from (q : string) : option string := after_FROM (words "" q).

(** The counts of the map example. *)
Definition example_counts : list (string * Q) :=
  [("10001", 5%Q); ("10002", 0%Q); ("10003", 12%Q)].

(** Thirty categories, named "1" to "30", with counts 1 to 30. *)
Definition example_categories : list (string * Q) :=
  map (fun k => (JS.digits (Z.of_nat k), inject_Z (Z.of_nat k))) (seq 1 30).

(** A node whose datum has a key: a feature, or a pair with a name that is
    not empty. *)
Definition keyed (node : PathNode) : Prop :=
  exists k, key (bound node) = Ok k.

(** What holds of the page whenever the event loop is idle. *)
Record page_ok (a : App) : Prop := {
  ok_gMap : Forall keyed (gMap a);
  ok_rects : (List.length (rects (legend a)) <= 5)%nat;
  ok_bars : (List.length (bars (gChart a)) <= 25)%nat
}.

Definition preserves {S A} (I : S -> Prop) (c : M S A) : Prop :=
  forall s, I s -> I (exec c s).

(** The legend box of a scale that has no threshold: both ends of the
    extent fall back to the ends of the domain [0, 0]. *)
Definition degenerate_box : LegendBox :=
  {| extent := (0%Q, 0%Q); box_fill := Some "#eff3ff" |}.

(** The fields of the page, and what it means for a view [p] of the page
    not to depend on one of them. *)
Inductive field :=
| fSelection | fResData | fSubwaySource | fTotalView | fZipView | fGChart
| fGMap | fLegend | fCircle | fCircleUpdated | fInfoBox | fLog.

Definition unaffected {X} (p : App -> X) (f : field) : Prop :=
  match f with
  | fSelection => forall g a, p (set_selection g a) = p a
  | fResData => forall g a, p (set_resData g a) = p a
  | fSubwaySource => forall g a, p (set_subwaySource g a) = p a
  | fTotalView => forall g a, p (set_totalView g a) = p a
  | fZipView => forall g a, p (set_zipView g a) = p a
  | fGChart => forall g a, p (set_gChart g a) = p a
  | fGMap => forall g a, p (set_gMap g a) = p a
  | fLegend => forall g a, p (set_legend g a) = p a
  | fCircle => forall g a, p (set_circle g a) = p a
  | fCircleUpdated => forall b a, p (set_circleUpdated b a) = p a
  | fInfoBox => forall h a, p (set_infoBox h a) = p a
  | fLog => forall l a, p (log_createChart l a) = p a
  end.

Definition keeps {S X A} (p : S -> X) (c : M S A) : Prop :=
  forall s, p (exec c s) = p s.

(** [c] writes at most the fields [fs]. *)
Definition writes {A} (c : M App A) (fs : list field) : Prop :=
  forall X (p : App -> X), Forall (unaffected p) fs -> keeps p c.

(** The fields a callback may write, and the fields the handler of an
    event may write on a given page: a delivery runs the callbacks
    registered on its view at that moment. *)
Definition callback_footprint (cb : carto.callback) : list field :=
  match cb with
  | carto.initBarChart_cb => [fLog; fGChart; fTotalView]
  | carto.zipChanged_cb => [fSelection; fGMap; fLegend]
  end.

Definition footprint (a : App) (e : event) : list field :=
  match e with
  | totalView_dataChanged _ => flat_map callback_footprint (carto.dataChanged (totalView a))
  | zipView_dataChanged _ => flat_map callback_footprint (carto.dataChanged (zipView a))
  | click _ => [fResData; fSelection]
  | zoomend => [fGMap; fLegend]
  | EDITMOVE _ | EDITRESIZE _ => [fCircle; fCircleUpdated; fInfoBox]
  | mouseup => [fCircleUpdated; fSubwaySource]
  end.

(** ** Observations on the map *)

(** The key of a path under [updateMap]'s key function, for a path that
    has one. *)
Definition node_key (node : PathNode) : string :=
  match bound node with
  | Feature zipcode => zipcode
  | Pair name _ => name
  end.

(** The value of the first pair of a result that is named [k]. *)
Fixpoint assoc (k : string) (l : list (string * Q)) : option Q :=
  match l with
  | [] => None
  | d :: l' => if decide (d.1 = k) then Some d.2 else assoc k l'
  end.

(** Every name of a result is truthy (not the empty string). *)
Definition truthy_names (l : list (string * Q)) : Prop :=
  Forall (fun d => JS.truthy_string d.1 = true) l.

(** [k] occurs first at position [i] of [ks]. *)
Definition is_first (ks : list string) (i : nat) (k : string) : Prop :=
  ks !! i = Some k /\ k ∉ take i ks.

(** The thresholds [d3.range(0, m, m / steps)] lists for a maximum [m]
    that is not 0: [start + i * step] for [i] from 0 to 4, computed
    exactly. *)
Definition threshold (m : Q) (i : nat) : Q :=
  (0 + inject_Z (Z.of_nat i) * (m / inject_Z (Z.of_nat steps)))%Q.

Definition thresholds_of (m : Q) : list Q := map (threshold m) (seq 0 5).

(** The colour scale [updateMap] builds for the counts [data]:
    [d3.scaleThreshold().domain(d3.range(0, max, max / steps))
       .range(d3.schemeBlues[steps])]. *)
Definition colorScale (data : list (string * Q)) : d3.scaleThreshold :=
  let maxCount := d3.max data snd in
  match d3.range (Some 0%Q) maxCount
          (match maxCount with
           | Some m => Some (m / inject_Z (Z.of_nat steps))%Q
           | None => None
           end) with
  | Ok thresholds => d3.scaleThreshold_of thresholds d3.schemeBlues5
  | Throw _ => d3.scaleThreshold_of [] d3.schemeBlues5
  end.

(** What the keyed join and the two fill transitions of [updateMap] make
    of the path at position [i], given the keys [ks] of all paths: the
    first path of a key that the counts name is bound to the first pair
    of that name and filled by the scale; any other path keeps its datum
    and is filled "none". *)
Definition joined (data : list (string * Q)) (ks : list string)
    (i : nat) (node : PathNode) : PathNode :=
  match assoc (node_key node) data with
  | Some v =>
      if decide (node_key node ∈ take i ks)
      then {| bound := bound node; fill := Some "none" |}
      else {| bound := Pair (node_key node) v; fill := d3.scale (colorScale data) v |}
  | None => {| bound := bound node; fill := Some "none" |}
  end.

(** The fill [updateMap] gives the path at position [i] whose key is [k],
    given the keys [ks] of all paths. *)
Definition shade (data : list (string * Q)) (ks : list string)
    (i : nat) (k : string) : option string :=
  match assoc k data with
  | Some v =>
      if decide (k ∈ take i ks) then Some "none" else d3.scale (colorScale data) v
  | None => Some "none"
  end.

(** The counts of the last [zipView] delivery of a history, [dflt] if it
    has none. *)
Fixpoint latest_counts (dflt : list (string * Q)) (es : list event) : list (string * Q) :=
  match es with
  | [] => dflt
  | zipView_dataChanged categories :: es' => latest_counts categories es'
  | _ :: es' => latest_counts dflt es'
  end.

(** A [zipView] delivery is well named when none of its names is empty. *)
Definition well_named (e : event) : Prop :=
  match e with
  | zipView_dataChanged categories => truthy_names categories
  | _ => True
  end.

(** The events whose handler redraws the map. *)
Definition is_redraw (e : event) : bool :=
  match e with
  | zipView_dataChanged _ | zoomend => true
  | _ => false
  end.

Definition is_click (e : event) : bool :=
  match e with
  | click _ => true
  | _ => false
  end.

(** ** Reading the literals of a query back *)

(** Modelled from the spec: the reading end of a test harness that "owns
    both ends" of the query round trip; the script has no parser.  The
    harness takes the query apart along the fixed texts of the template
    literal of [updateQuery] and reads the two coordinates as fixed-point
    decimal literals, exactly. *)
Definition digit_value (c : ascii) : option Z :=
  let k := (Z.of_nat (nat_of_ascii c) - 48)%Z in
  if ((0 <=? k)%Z && (k <=? 9)%Z)%bool then Some k else None.

(** The digits of [s] appended to the number [acc]. *)
Fixpoint read_digits (acc : Z) (s : string) : option Z :=
  match s with
  | EmptyString => Some acc
  | String c s' =>
      match digit_value c with
      | Some d => read_digits (10 * acc + d) s'
      | None => None
      end
  end.

(** A natural number: one digit at least. *)
Definition read_nat (s : string) : option Z :=
  match s with
  | EmptyString => None
  | _ => read_digits 0 s
  end.

(** The text before the first [c] and the text after it. *)
Fixpoint upto (c : ascii) (s : string) : option (string * string) :=
  match s with
  | EmptyString => None
  | String c' s' =>
      if Ascii.eqb c' c then Some (EmptyString, s')
      else match upto c s' with
           | Some (a, b) => Some (String c' a, b)
           | None => None
           end
  end.

(** Digits, or digits, a point and digits. *)
Definition read_unsigned (s : string) : option Q :=
  match upto "." s with
  | Some (ip, fp) =>
      match read_nat ip, read_nat fp with
      | Some i, Some f =>
          Some (inject_Z i + inject_Z f / inject_Z (10 ^ Z.of_nat (String.length fp)))%Q
      | _, _ => None
      end
  | None =>
      match read_nat s with
      | Some i => Some (inject_Z i)
      | None => None
      end
  end.

(** Modelled from the spec: the decimal reader of the harness, for
    literals with an optional minus sign and no exponent. *)
Definition readDecimal (s : string) : option Q :=
  match s with
  | String "-" s' =>
      match read_unsigned s' with
      | Some v => Some (- v)%Q
      | None => None
      end
  | _ => read_unsigned s
  end.

(** [s] without the text [p] it starts with. *)
Fixpoint strip_prefix (p s : string) : option string :=
  match p with
  | EmptyString => Some s
  | String c p' =>
      match s with
      | String c' s' => if Ascii.eqb c c' then strip_prefix p' s' else None
      | EmptyString => None
      end
  end.

(** [s] without the text [p] it ends with. *)
Definition strip_suffix (p s : string) : option string :=
  let k := (String.length s - String.length p)%nat in
  if String.eqb (substring k (String.length p) s) p
  then Some (substring 0 k s)
  else None.

(** The fixed texts of the template literal of [updateQuery]: before the
    latitude, between the longitude's closing parenthesis and the radius,
    and after the radius. *)
Definition query_head : string :=
  JS.template
    [ "SELECT *"; JS.nl;
      "                      FROM huyvo.ourdata"; JS.nl;
      "                     WHERE line like '%F%'"; JS.nl;
      "                       AND ST_DWithin(the_geom::geography,"; JS.nl;
      "                                      CDB_LatLng(" ].

Definition query_mid : string :=
  JS.template [ "::geography,"; JS.nl; "                                      " ].

Definition query_tail : string :=
  JS.template [ ")"; JS.nl; "          " ].

(** Modelled from the spec: the three literals of a query, as texts: the
    latitude runs to the first comma, the longitude to the first closing
    parenthesis, the radius to the fixed end of the query. *)
Definition literals (q : string) : option (string * string * string) :=
  match strip_prefix query_head q with
  | Some r1 =>
      match upto "," r1 with
      | Some (lat, r2) =>
          match upto ")" r2 with
          | Some (lng, r3) =>
              match strip_prefix query_mid r3 with
              | Some r4 =>
                  match strip_suffix query_tail r4 with
                  | Some radius => Some (lat, lng, radius)
                  | None => None
                  end
              | None => None
              end
          | None => None
          end
      | None => None
      end
  | None => None
  end.

(** Modelled from the spec: parsing a query back.  The coordinates are
    read as decimals; the radius, which the script prints with the host's
    [Number::toString], is read by the reader [readRadius] the harness
    has for such texts. *)
Definition parseQuery (readRadius : string -> option Q) (q : string)
    : option (Q * Q * Q) :=
  match literals q with
  | Some (lat, lng, radius) =>
      match readDecimal lat, readDecimal lng, readRadius radius with
      | Some x, Some y, Some r => Some (x, y, r)
      | _, _, _ => None
      end
  | None => None
  end.

(** A number with four decimal places. *)
Definition four_places (x : Q) : Prop :=
  exists n : Z, (x == inject_Z n / inject_Z (10 ^ 4))%Q.

(** No [c] in [s]. *)
Fixpoint free (c : ascii) (s : string) : bool :=
  match s with
  | EmptyString => true
  | String c' s' => negb (Ascii.eqb c' c) && free c s'
  end.
(** * Properties *)

(** ** Strings *)

Lemma prefix_app (n s : string) : String.prefix n (n ++ s) = true.
Proof.
  induction n as [|c n IH]; simpl.
  - now destruct s.
  - destruct (ascii_dec c c) as [_|Hc]; [exact IH | now elim Hc].
Qed.

Lemma includes_unfold (n h : string) :
  JS.includes n h =
  if String.prefix n h then true
  else match h with
       | EmptyString => false
       | String _ h' => JS.includes n h'
       end.
Proof. destruct h; reflexivity. Qed.

Lemma includes_app (n p s : string) : JS.includes n (p ++ n ++ s) = true.
Proof.
  induction p as [|c p IH].
  - change ("" ++ n ++ s) with (n ++ s).
    now rewrite includes_unfold, prefix_app.
  - change (String c p ++ n ++ s) with (String c (p ++ n ++ s)).
    rewrite includes_unfold.
    destruct (String.prefix n _); [reflexivity | exact IH].
Qed.

Lemma append_assoc (a b c : string) : (a ++ b) ++ c = a ++ b ++ c.
Proof.
  induction a as [|x a IH]; [reflexivity|].
  change (String x ((a ++ b) ++ c) = String x (a ++ b ++ c)).
  now rewrite IH.
Qed.

Lemma template_app (l1 l2 : list string) :
  JS.template (l1 ++ l2) = JS.template l1 ++ JS.template l2.
Proof.
  induction l1 as [|x l1 IH]; [reflexivity|].
  change (JS.template ((x :: l1) ++ l2)) with (x ++ JS.template (l1 ++ l2)).
  change (JS.template (x :: l1)) with (x ++ JS.template l1).
  now rewrite IH, append_assoc.
Qed.

(** A run of parts of a template occurs in its text. *)
Lemma includes_template (before mid after : list string) :
  JS.includes (JS.template mid) (JS.template (before ++ mid ++ after)) = true.
Proof. rewrite !template_app. apply includes_app. Qed.

(** ** Frames: what a computation leaves alone *)

Section Frames.
Context {S X : Type} (p : S -> X).

Lemma keeps_ret {A} (a : A) : keeps p (ret a).
Proof. now intros s. Qed.

Lemma keeps_throw {A} (e : exn) : keeps p (@throw S A e).
Proof. now intros s. Qed.

Lemma keeps_get : keeps p get.
Proof. now intros s. Qed.

Lemma keeps_modify (f : S -> S) : (forall s, p (f s) = p s) -> keeps p (modify f).
Proof. intros Hf s. apply Hf. Qed.

Lemma keeps_bind {A B} (c : M S A) (k : A -> M S B) :
  keeps p c -> (forall a, keeps p (k a)) -> keeps p (bind c k).
Proof.
  intros Hc Hk s. unfold exec, bind. specialize (Hc s). unfold exec in Hc.
  destruct (c s) as [[a|e] s']; cbn in *; [|exact Hc].
  rewrite <- Hc. apply Hk.
Qed.

Lemma keeps_forEach {A} (body : A -> M S unit) (l : list A) :
  (forall a, keeps p (body a)) -> keeps p (forEach body l).
Proof.
  intros Hb. induction l as [|a l IH]; [apply keeps_ret|].
  apply keeps_bind; [apply Hb | intros _; exact IH].
Qed.

Lemma keeps_zoom {T A} (proj : S -> T) (upd : T -> S -> S) (c : M T A) :
  (forall t s, p (upd t s) = p s) -> keeps p (zoom proj upd c).
Proof.
  intros Hu s. unfold exec, zoom. destruct (c (proj s)) as [r t]. apply Hu.
Qed.

End Frames.

(** A bind runs its continuation on the store the first part left. *)
Lemma exec_bind {S A B} (c : M S A) (k : A -> M S B) (s : S) :
  exec (bind c k) s =
  match result c s with
  | Ok a => exec (k a) (exec c s)
  | Throw _ => exec c s
  end.
Proof. unfold exec, result, bind. now destruct (c s) as [[a|e] s']. Qed.

Ltac frame_step :=
  match goal with
  | |- keeps _ (bind _ _) => apply keeps_bind; [|intros ?]
  | |- keeps _ (ret _) => apply keeps_ret
  | |- keeps _ (throw _) => apply keeps_throw
  | |- keeps _ get => apply keeps_get
  | |- keeps _ (modify _) => apply keeps_modify; intros ?
  | |- keeps _ (forEach _ _) => apply keeps_forEach; intros ?
  | |- keeps _ (zoom _ _ _) => apply keeps_zoom; intros ? ?
  | |- keeps _ (match ?x with _ => _ end) => destruct x
  | |- keeps _ (if ?x then _ else _) => destruct x
  end.

Ltac frame := repeat frame_step; auto.

(** ** Footprints: the fields a computation may write *)

Ltac by_fields :=
  repeat constructor; hnf; intros;
  repeat match goal with a : App |- _ => destruct a end; reflexivity.

Section Footprints.
Context `{JS.Host}.

Lemma updateMap_writes : writes updateMap [fGMap; fLegend].
Proof.
  intros X p Hp. pose proof (Forall_inv Hp) as Hm.
  pose proof (Forall_inv (Forall_inv_tail Hp)) as Hl. cbn in Hm, Hl.
  unfold updateMap. frame.
Qed.

Lemma reproject_writes : writes reproject [fGMap; fLegend].
Proof.
  intros X p Hp. pose proof (Forall_inv Hp) as Hm. cbn in Hm.
  unfold reproject. frame. now apply updateMap_writes.
Qed.

Lemma createChart_writes byCuisine : writes (createChart byCuisine) [fLog; fGChart].
Proof.
  intros X p Hp. pose proof (Forall_inv Hp) as Hl.
  pose proof (Forall_inv (Forall_inv_tail Hp)) as Hg. cbn in Hl, Hg.
  unfold createChart. frame.
Qed.

Lemma initBarChart_writes categories :
  writes (initBarChart categories) [fLog; fGChart; fTotalView].
Proof.
  intros X p Hp. unfold initBarChart. frame.
  - apply createChart_writes. inversion Hp as [|? ? ? Hp']. inversion Hp'. auto.
  - apply (Forall_inv (Forall_inv_tail (Forall_inv_tail Hp))).
Qed.

Lemma zipChanged_writes categories :
  writes (zipChanged categories) [fSelection; fGMap; fLegend].
Proof.
  intros X p Hp. unfold zipChanged. frame.
  - apply (Forall_inv Hp).
  - apply updateMap_writes, (Forall_inv_tail Hp).
Qed.

Lemma call_writes categories (cb : carto.callback) :
  writes (call categories cb) (callback_footprint cb).
Proof. destruct cb; [apply initBarChart_writes | apply zipChanged_writes]. Qed.

Lemma forEach_call_keeps {X} (p : App -> X) categories (l : list carto.callback) :
  Forall (unaffected p) (flat_map callback_footprint l) ->
  keeps p (forEach (call categories) l).
Proof.
  induction l as [|cb l IH]; intros Hp; [apply keeps_ret|].
  cbn [flat_map] in Hp. apply Forall_app in Hp as [Hcb Hl].
  cbn [forEach]. apply keeps_bind; [now apply call_writes | intros _; now apply IH].
Qed.

(** A field outside the footprint of an event is the same after it. *)
Lemma step_keeps {X} (p : App -> X) (a : App) (e : event) :
  Forall (unaffected p) (footprint a e) -> p (step a e) = p a.
Proof.
  unfold step. destruct e; cbn [dispatch footprint]; intros Hp.
  - now apply (forEach_call_keeps p categories _ Hp a).
  - now apply (forEach_call_keeps p categories _ Hp a).
  - revert a Hp. intros a Hp. pose proof (Forall_inv Hp) as Hr.
    pose proof (Forall_inv (Forall_inv_tail Hp)) as Hs. cbn in Hr, Hs.
    assert (K : keeps p
              (let* a0 := get in
               match bars (gChart a0) !! i with
               | Some d => bar_click d
               | None => ret tt
               end)%js) by (unfold bar_click; frame).
    apply K.
  - now apply reproject_writes.
  - inversion Hp as [|? ? Hc Hp']. inversion Hp' as [|? ? Hu Hp''].
    pose proof (Forall_inv Hp'') as Hi. cbn in Hc, Hu, Hi.
    assert (K : keeps p
              (modify (set_circle (fun c =>
                 {| L.getLatLng := latlng; L.getRadius := L.getRadius c |})) >>
               updateQueryStatus)%js)
      by (unfold updateQueryStatus, updateCaption; frame).
    apply K.
  - inversion Hp as [|? ? Hc Hp']. inversion Hp' as [|? ? Hu Hp''].
    pose proof (Forall_inv Hp'') as Hi. cbn in Hc, Hu, Hi.
    assert (K : keeps p
              (modify (set_circle (fun c =>
                 {| L.getLatLng := L.getLatLng c; L.getRadius := radius |})) >>
               updateQueryStatus)%js)
      by (unfold updateQueryStatus, updateCaption; frame).
    apply K.
  - pose proof (Forall_inv Hp) as Hu.
    pose proof (Forall_inv (Forall_inv_tail Hp)) as Hs. cbn in Hu, Hs.
    assert (K : keeps p updateQuery) by (unfold updateQuery; frame).
    apply K.
Qed.

(** Whatever callbacks are registered, a delivery stays within the chart
    and map fields. *)
Lemma unaffected_callbacks {X} (p : App -> X) (l : list carto.callback) :
  Forall (unaffected p) [fLog; fGChart; fTotalView; fSelection; fGMap; fLegend] ->
  Forall (unaffected p) (flat_map callback_footprint l).
Proof.
  intros Hp. induction l as [|cb l IH]; [constructor|].
  cbn [flat_map]. apply Forall_app. split; [|exact IH].
  rewrite List.Forall_forall in *. intros f Hf. apply Hp.
  destruct cb; cbn in *; tauto.
Qed.

End Footprints.

Ltac outside_footprint :=
  match goal with
  | |- Forall _ (footprint _ ?e) =>
      destruct e; try discriminate; cbn [footprint];
      try apply unaffected_callbacks; by_fields
  end.

(** ** The selection controller *)

Section Controller.
Context `{JS.Host}.

Lemma run_cons (a : App) (e : event) (es : list event) :
  run a (e :: es) = run (step a e) es.
Proof. reflexivity. Qed.

Lemma run_app (a : App) (es es' : list event) :
  run a (es ++ es') = run (run a es) es'.
Proof. apply fold_left_app. Qed.

Lemma step_edit (a : App) (e : event) :
  is_edit e = true ->
  step a e =
  set_infoBox (captionHtml (edited (circle a) e))
    (set_circleUpdated true (set_circle (fun c => edited c e) a)).
Proof. destruct e; try discriminate; intros _; now destruct a. Qed.

Lemma step_mouseup (a : App) :
  step a mouseup =
  if circleUpdated a
  then set_subwaySource (carto.setQuery (circleQuery (circle a)))
         (set_circleUpdated false a)
  else a.
Proof. destruct a as [? ? ? ? ? ? ? ? ? ? [] ? ?]; reflexivity. Qed.

Lemma mouseup_dirty (a : App) :
  circleUpdated a = true ->
  subwaySource (step a mouseup) = carto.setQuery (circleQuery (circle a)) (subwaySource a).
Proof. intros Ha. rewrite step_mouseup, Ha. now destruct a. Qed.

Lemma edit_fields (a : App) (e : event) :
  is_edit e = true ->
  circleUpdated (step a e) = true /\
  circle (step a e) = edited (circle a) e /\
  infoBox (step a e) = captionHtml (edited (circle a) e) /\
  subwaySource (step a e) = subwaySource a.
Proof. intros He. rewrite step_edit by assumption. now destruct a. Qed.

(** Edits never touch the subway source, and leave the flag set. *)
Lemma run_edits (es : list event) (a : App) :
  forallb is_edit es = true ->
  subwaySource (run a es) = subwaySource a /\
  (circleUpdated a = true \/ es <> [] -> circleUpdated (run a es) = true).
Proof.
  revert a. induction es as [|e es IH]; intros a Hes.
  - split; [reflexivity|]. intros [Ha|Ha]; [exact Ha | congruence].
  - cbn in Hes. apply andb_prop in Hes as [He Hes].
    destruct (edit_fields a e He) as (Hf & _ & _ & Hs).
    destruct (IH (step a e) Hes) as [IHs IHf]. rewrite run_cons.
    split; [now rewrite IHs|]. intros _. apply IHf. now left.
Qed.

End Controller.

Section ControllerProperties.
Context `{JS.Host}.

Lemma circle_run_edits (es : list event) (a : App) :
  forallb is_edit es = true ->
  circle (run a es) = fold_left edited es (circle a).
Proof.
  revert a. induction es as [|e es IH]; intros a Hes; [reflexivity|].
  cbn in Hes. apply andb_prop in Hes as [He Hes].
  rewrite run_cons, IH by assumption.
  destruct (edit_fields a e He) as (_ & Hc & _). now rewrite Hc.
Qed.

Lemma circleQuery_embeds (c : L.Circle) :
  JS.includes
    (JS.template ["CDB_LatLng("; JS.toFixed 4 (L.lat (L.getLatLng c)); ",";
                  JS.toFixed 4 (L.lng (L.getLatLng c)); ")"])
    (circleQuery c) = true /\
  JS.includes
    (JS.template [JS.Number_toString (L.getRadius c); ")"]) (circleQuery c) = true.
Proof.
  split.
  - apply (includes_template
             [ "SELECT *"; JS.nl;
               "                      FROM huyvo.ourdata"; JS.nl;
               "                     WHERE line like '%F%'"; JS.nl;
               "                       AND ST_DWithin(the_geom::geography,"; JS.nl;
               "                                      " ]
             [ "CDB_LatLng("; _; ","; _; ")" ]
             [ "::geography,"; JS.nl; "                                      ";
               JS.Number_toString (L.getRadius c); ")"; JS.nl; "          " ]).
  - apply (includes_template
             [ "SELECT *"; JS.nl;
               "                      FROM huyvo.ourdata"; JS.nl;
               "                     WHERE line like '%F%'"; JS.nl;
               "                       AND ST_DWithin(the_geom::geography,"; JS.nl;
               "                                      CDB_LatLng(";
               JS.toFixed 4 (L.lat (L.getLatLng c)); ",";
               JS.toFixed 4 (L.lng (L.getLatLng c)); ")::geography,"; JS.nl;
               "                                      " ]
             [ _; ")" ]
             [ JS.nl; "          " ]).
Qed.

Lemma captionHtml_shows (c : L.Circle) :
  JS.includes
    (JS.template ["<td>"; JS.toFixed 4 (L.lat (L.getLatLng c)); ",";
                  JS.toFixed 4 (L.lng (L.getLatLng c)); "</td>"])
    (captionHtml c) = true /\
  JS.includes
    (JS.template ["<td>"; JS.readableDistance (L.getRadius c); "</td>"])
    (captionHtml c) = true.
Proof.
  split.
  - apply (includes_template
             [ "<table style='width:100%'>"; JS.nl;
               "                   <tr><th>Coords</th>" ]
             [ "<td>"; _; ","; _; "</td>" ]
             [ "</tr>"; JS.nl;
               "                   <tr><th>Radius</th><td>";
               JS.readableDistance (L.getRadius c); "</td></tr>"; JS.nl;
               "                   </table>" ]).
  - apply (includes_template
             [ "<table style='width:100%'>"; JS.nl;
               "                   <tr><th>Coords</th><td>";
               JS.toFixed 4 (L.lat (L.getLatLng c)); ",";
               JS.toFixed 4 (L.lng (L.getLatLng c)); "</td></tr>"; JS.nl;
               "                   <tr><th>Radius</th>" ]
             [ "<td>"; _; "</td>" ]
             [ "</tr>"; JS.nl; "                   </table>" ]).
Qed.

(** C8.  Every EDITMOVE and every EDITRESIZE event, in whatever state the
    controller is, sets [circleUpdated] and rewrites the info box with the
    caption of the circle as the event left it: its latitude and longitude
    to four places and its radius as a readable distance.  The subway
    source is not touched. *)
Theorem edit_marks_dirty_and_refreshes_caption (a : App) :
  (forall latlng,
     let a' := step a (EDITMOVE latlng) in
     circleUpdated a' = true /\
     circle a' = {| L.getLatLng := latlng; L.getRadius := L.getRadius (circle a) |} /\
     infoBox a' = captionHtml (circle a') /\
     subwaySource a' = subwaySource a) /\
  (forall radius,
     let a' := step a (EDITRESIZE radius) in
     circleUpdated a' = true /\
     circle a' = {| L.getLatLng := L.getLatLng (circle a); L.getRadius := radius |} /\
     infoBox a' = captionHtml (circle a') /\
     subwaySource a' = subwaySource a) /\
  (forall c,
     JS.includes
       (JS.template ["<td>"; JS.toFixed 4 (L.lat (L.getLatLng c)); ",";
                     JS.toFixed 4 (L.lng (L.getLatLng c)); "</td>"])
       (captionHtml c) = true /\
     JS.includes
       (JS.template ["<td>"; JS.readableDistance (L.getRadius c); "</td>"])
       (captionHtml c) = true).
Proof.
  split; [|split].
  - intros latlng a'.
    destruct (edit_fields a (EDITMOVE latlng) eq_refl) as (Hf & Hc & Hi & Hs).
    subst a'. rewrite Hc. auto.
  - intros radius a'.
    destruct (edit_fields a (EDITRESIZE radius) eq_refl) as (Hf & Hc & Hi & Hs).
    subst a'. rewrite Hc. auto.
  - apply captionHtml_shows.
Qed.

(** C1.  A run of geometry-edit events followed by one [mouseup] pushes
    exactly one query to the subway source, provided the run is not empty
    or the controller was dirty already (as it is right after start-up).
    The query is the one built from the circle as it stands at the
    [mouseup], that is after the last edit of the run, and its text
    carries that circle's centre and radius. *)
Theorem one_commit_pushes_one_query (a : App) (es : list event) :
  forallb is_edit es = true ->
  es <> [] \/ circleUpdated a = true ->
  let at_commit := fold_left edited es (circle a) in
  let a' := run a (es ++ [mouseup]) in
  carto.pushed (subwaySource a') =
    (carto.pushed (subwaySource a) ++ [circleQuery at_commit])%list /\
  carto.query (subwaySource a') = circleQuery at_commit /\
  circle a' = at_commit /\
  circleUpdated a' = false /\
  JS.includes
    (JS.template ["CDB_LatLng("; JS.toFixed 4 (L.lat (L.getLatLng at_commit)); ",";
                  JS.toFixed 4 (L.lng (L.getLatLng at_commit)); ")"])
    (circleQuery at_commit) = true /\
  JS.includes
    (JS.template [JS.Number_toString (L.getRadius at_commit); ")"])
    (circleQuery at_commit) = true.
Proof.
  intros Hes Hdirty at_commit a'.
  destruct (run_edits es a Hes) as [Hsrc Hflag].
  assert (Hf : circleUpdated (run a es) = true) by (apply Hflag; tauto).
  pose proof (circle_run_edits es a Hes) as Hc. fold at_commit in Hc.
  subst a'. rewrite run_app. cbn [run fold_left].
  rewrite step_mouseup, Hf.
  destruct (run a es) as [? ? ? sw ? ? ? ? ? c ? ? ?]. cbn in *. subst.
  destruct (circleQuery_embeds at_commit) as [E1 E2].
  repeat split; assumption || reflexivity.
Qed.

End ControllerProperties.

(** ** Invariants *)

Section Preserves.
Context {S : Type} (I : S -> Prop).

Lemma preserves_ret {A} (a : A) : preserves I (ret a).
Proof. now intros s. Qed.

Lemma preserves_throw {A} (e : exn) : preserves I (@throw S A e).
Proof. now intros s. Qed.

Lemma preserves_get : preserves I get.
Proof. now intros s. Qed.

Lemma preserves_modify (f : S -> S) : (forall s, I s -> I (f s)) -> preserves I (modify f).
Proof. intros Hf s. apply Hf. Qed.

Lemma preserves_bind {A B} (c : M S A) (k : A -> M S B) :
  preserves I c -> (forall a, preserves I (k a)) -> preserves I (bind c k).
Proof.
  intros Hc Hk s Hs. rewrite exec_bind.
  destruct (result c s); [apply Hk|]; now apply Hc.
Qed.

Lemma preserves_forEach {A} (body : A -> M S unit) (l : list A) :
  (forall a, preserves I (body a)) -> preserves I (forEach body l).
Proof.
  intros Hb. induction l as [|a l IH]; [apply preserves_ret|].
  apply preserves_bind; [apply Hb | intros _; exact IH].
Qed.

End Preserves.

(** ** The keyed join *)

Lemma keyed_rebind (d : string * Q) (node : PathNode) (k : string) :
  key (Pair (fst d) (snd d)) = Ok k -> keyed (rebind d node).
Proof. intros Hk. now exists k. Qed.

Lemma bindKey_data_keyed (values : list (string * Q)) :
  forall m update, preserves (Forall keyed) (bindKey_data values m update).
Proof.
  induction values as [|d values IH]; intros m update; cbn [bindKey_data].
  - apply preserves_ret.
  - destruct (key (Pair d.1 d.2)) as [k|e] eqn:Hk; [|apply preserves_throw].
    destruct (m !! k) as [i|]; [|apply IH].
    apply preserves_bind; [|intros _; apply IH].
    apply preserves_modify. intros nodes Hn.
    apply Forall_alter; [exact Hn|]. intros node _ _. now apply keyed_rebind with k.
Qed.

Lemma bindKey_keyed (values : list (string * Q)) :
  preserves (Forall keyed) (bindKey values).
Proof.
  unfold bindKey. apply preserves_bind; [apply preserves_get|]. intros group.
  destruct (bindKey_nodes group 0 ∅ [] []) as [[[m kv] ex]|e]; [|apply preserves_throw].
  apply preserves_bind; [apply bindKey_data_keyed | intros r; apply preserves_ret].
Qed.

(** With every node keyed, the first loop of the join does not throw. *)
Lemma bindKey_nodes_ok (group : list PathNode) :
  Forall keyed group ->
  forall i m kv ex, exists r, bindKey_nodes group i m kv ex = Ok r.
Proof.
  induction 1 as [|node group [k Hk] _ IH]; intros i m kv ex; cbn [bindKey_nodes].
  - eauto.
  - rewrite Hk. destruct (m !! k); apply IH.
Qed.

Lemma style_fill_bound (sel : list nat) (f : datum -> option string) (nodes : list PathNode) :
  map bound (style_fill sel f nodes) = map bound nodes.
Proof.
  unfold style_fill. revert nodes. induction sel as [|i sel IH]; intros nodes; [reflexivity|].
  cbn [fold_left]. rewrite IH. clear IH.
  revert i. induction nodes as [|n nodes IHn]; intros [|i]; cbn; try reflexivity.
  f_equal. apply IHn.
Qed.

Lemma keyed_by_bound (nodes nodes' : list PathNode) :
  map bound nodes' = map bound nodes -> Forall keyed nodes -> Forall keyed nodes'.
Proof.
  revert nodes'. induction nodes as [|n nodes IH]; intros [|n' nodes'] E Hn;
    try discriminate; [constructor|].
  injection E as E1 E2. inversion Hn as [|? ? Hk Hn']; subst.
  constructor; [|now apply IH]. unfold keyed in *. now rewrite E1.
Qed.

Lemma style_fill_keyed sel f nodes : Forall keyed nodes -> Forall keyed (style_fill sel f nodes).
Proof. apply keyed_by_bound, style_fill_bound. Qed.

Lemma bindIndex_length {N V} (rebind : V -> N -> N) (enter : V -> N) values nodes :
  List.length (bindIndex rebind enter values nodes) =
  Nat.max (List.length values) (List.length nodes).
Proof.
  revert nodes.
  induction values as [|v values IH]; intros [|n nodes]; cbn; try reflexivity;
    rewrite IH; cbn; lia.
Qed.

Lemma bindIndex_features (fs : list string) (nodes : list PathNode) :
  Forall keyed nodes ->
  Forall keyed
    (bindIndex (fun z node => {| bound := Feature z; fill := fill node |})
               (fun z => {| bound := Feature z; fill := None |}) fs nodes).
Proof.
  revert nodes. induction fs as [|z fs IH]; intros nodes Hn; [exact Hn|].
  destruct nodes as [|n nodes]; cbn [bindIndex].
  - constructor; [now exists z | apply IH; constructor].
  - inversion Hn; subst. constructor; [now exists z | now apply IH].
Qed.

(** ** The page invariant *)

Create HintDb page_ok.

Section PageOk.
Context `{JS.Host}.

Lemma page_ok_gMap (a : App) (f : list PathNode -> list PathNode) :
  page_ok a -> Forall keyed (f (gMap a)) -> page_ok (set_gMap f a).
Proof. intros [? ? ?] Hf. destruct a. now constructor. Qed.

Lemma page_ok_legend (a : App) (f : Legend -> Legend) :
  page_ok a -> (List.length (rects (f (legend a))) <= 5)%nat -> page_ok (set_legend f a).
Proof. intros [? ? ?] Hf. destruct a. now constructor. Qed.

Lemma page_ok_gChart (a : App) (f : Chart -> Chart) :
  page_ok a -> (List.length (bars (f (gChart a))) <= 25)%nat -> page_ok (set_gChart f a).
Proof. intros [? ? ?] Hf. destruct a. now constructor. Qed.

Lemma page_ok_same (a a' : App) :
  gMap a' = gMap a -> legend a' = legend a -> gChart a' = gChart a ->
  page_ok a -> page_ok a'.
Proof. intros E1 E2 E3 [? ? ?]. constructor; congruence. Qed.

Ltac same_page := intros; eapply page_ok_same; [..|eassumption];
  match goal with a : App |- _ => now destruct a end.

Lemma page_ok_selection f a : page_ok a -> page_ok (set_selection f a).
Proof. same_page. Qed.
Lemma page_ok_resData f a : page_ok a -> page_ok (set_resData f a).
Proof. same_page. Qed.
Lemma page_ok_subwaySource f a : page_ok a -> page_ok (set_subwaySource f a).
Proof. same_page. Qed.
Lemma page_ok_totalView f a : page_ok a -> page_ok (set_totalView f a).
Proof. same_page. Qed.
Lemma page_ok_circle f a : page_ok a -> page_ok (set_circle f a).
Proof. same_page. Qed.
Lemma page_ok_circleUpdated b a : page_ok a -> page_ok (set_circleUpdated b a).
Proof. same_page. Qed.
Lemma page_ok_infoBox h a : page_ok a -> page_ok (set_infoBox h a).
Proof. same_page. Qed.
Lemma page_ok_log l a : page_ok a -> page_ok (log_createChart l a).
Proof. same_page. Qed.

#[local] Hint Resolve page_ok_selection page_ok_resData page_ok_subwaySource
  page_ok_totalView page_ok_circle page_ok_circleUpdated page_ok_infoBox
  page_ok_log : page_ok.

Lemma updateMap_page_ok : preserves page_ok updateMap.
Proof.
  unfold updateMap. apply preserves_bind; [apply preserves_get|]. intros a.
  destruct (d3.range _ _ _) as [thresholds|e]; [|apply preserves_throw].
  apply preserves_bind.
  { intros s Hs. unfold exec, zoom.
    pose proof (bindKey_keyed (data (selection a)) (gMap s) (ok_gMap s Hs)) as Hk.
    unfold exec in Hk. destruct (bindKey _ (gMap s)) as [r g]. cbn in *.
    now apply page_ok_gMap. }
  intros zipcodes.
  apply preserves_bind.
  { apply preserves_modify. intros s Hs. apply page_ok_gMap; [exact Hs|].
    apply style_fill_keyed, Hs. }
  intros _. apply preserves_bind.
  { apply preserves_modify. intros s Hs. apply page_ok_gMap; [exact Hs|].
    apply style_fill_keyed, Hs. }
  intros _. apply preserves_modify. intros s Hs. apply page_ok_legend; [exact Hs|].
  cbn [rects]. rewrite bindIndex_length, length_map. cbn [d3.range_ d3.scaleThreshold_of].
  pose proof (ok_rects s Hs). cbn [d3.schemeBlues5 List.length]. lia.
Qed.

Lemma reproject_page_ok : preserves page_ok reproject.
Proof.
  unfold reproject. apply preserves_bind; [apply preserves_get|]. intros a.
  apply preserves_bind; [|intros _; apply updateMap_page_ok].
  apply preserves_modify. intros s Hs. apply page_ok_gMap; [exact Hs|].
  apply bindIndex_features, Hs.
Qed.

Lemma createChart_page_ok byCuisine : preserves page_ok (createChart byCuisine).
Proof.
  unfold createChart. apply preserves_bind.
  { apply preserves_modify. intros s. apply page_ok_log. }
  intros _. destruct (last _); [|apply preserves_throw].
  apply preserves_modify. intros s Hs. apply page_ok_gChart; [exact Hs|].
  cbn [bars]. rewrite bindIndex_length, length_firstn.
  pose proof (ok_bars s Hs). lia.
Qed.

#[local] Hint Resolve updateMap_page_ok reproject_page_ok createChart_page_ok : page_ok.

Ltac page_inv :=
  repeat first
    [ apply preserves_get | apply preserves_ret | apply preserves_throw
    | solve [auto with page_ok]
    | apply preserves_bind; [|intros ?]
    | apply preserves_forEach; intros ?
    | apply preserves_modify; intros ? ?; solve [auto with page_ok]
    | match goal with
      | |- preserves _ (match ?x with _ => _ end) => destruct x
      | |- preserves _ (if ?x then _ else _) => destruct x
      end ].

Lemma dispatch_page_ok (e : event) : preserves page_ok (dispatch e).
Proof.
  destruct e; cbn [dispatch];
    unfold trigger, bar_click, updateQueryStatus, updateCaption, updateQuery;
    page_inv.
  all: match goal with cb : carto.callback |- _ => destruct cb end;
    unfold call, initBarChart, zipChanged; page_inv.
Qed.

Lemma run_page_ok (es : list event) (a : App) : page_ok a -> page_ok (run a es).
Proof.
  revert a. induction es as [|e es IH]; intros a Ha; [exact Ha|].
  rewrite run_cons. apply IH. now apply dispatch_page_ok.
Qed.

End PageOk.

(** ** [updateMap] on an empty selection *)

Section EmptyCounts.
Context `{JS.Host}.

Lemma bindKey_nil (group : list PathNode) :
  Forall keyed group -> exists ex, bindKey [] group = (Ok ([], ex), group).
Proof.
  intros Hg. unfold bindKey, bind, get.
  destruct (bindKey_nodes_ok group Hg 0 ∅ [] []) as [[[m kv] ex] E].
  rewrite E. cbn. eauto.
Qed.

Lemma updateMap_empty (a : App) :
  data (selection a) = [] ->
  Forall keyed (gMap a) ->
  result updateMap a = Ok tt /\
  legend (exec updateMap a) =
    {| rects := bindIndex (fun _ _ => degenerate_box) (fun _ => degenerate_box)
                  [tt; tt; tt; tt; tt] (rects (legend a));
       axis_scale := Some {| d3.ldomain := (0%Q, 0%Q); d3.lrange := (50, 300) |};
       tickValues := [];
       caption_x := Some 50;
       caption := JS.template ["Number of "; cuisine (selection a); " Restaurants"] |}.
Proof.
  intros Hd Hg. destruct (bindKey_nil _ Hg) as [ex E].
  destruct a as [z s r sw tv zv gc gm lg c cu ib cl]. cbn in Hd, E.
  unfold updateMap, result, exec, bind, get, zoom. cbn. rewrite Hd. cbn. rewrite E. cbn.
  split; [reflexivity|]. f_equal.
Qed.

(** The page after start-up, field by field.  The paths are bound to the
    features, one each. *)
Lemma start_fields (fs : list string) :
  let a := start fs in
  zipcodes a = fs /\
  selection a = {| cuisine := "All"; data := [] |} /\
  resData a = carto.new_SQL (JS.template
    [ JS.nl; "    SELECT *"; JS.nl;
      "      FROM huyvo.nyc_restaurant_grades"; JS.nl; "  " ]) /\
  subwaySource a = carto.new_SQL (JS.template
    [ JS.nl; "    SELECT * FROM huyvo.ourdata"; JS.nl;
      "    WHERE line like '%F%'"; JS.nl; "  " ]) /\
  totalView a = carto.on carto.initBarChart_cb (carto.new_Category "cuisine" carto.COUNT 1000) /\
  zipView a = carto.on carto.zipChanged_cb (carto.new_Category "zipcode" carto.COUNT 1000) /\
  gChart a = {| axes := []; bars := [] |} /\
  Forall keyed (gMap a) /\
  legend a =
    {| rects := [degenerate_box; degenerate_box; degenerate_box; degenerate_box; degenerate_box];
       axis_scale := Some {| d3.ldomain := (0%Q, 0%Q); d3.lrange := (50, 300) |};
       tickValues := [];
       caption_x := Some 50;
       caption := "Number of All Restaurants" |} /\
  circle a = {| L.getLatLng := cusp; L.getRadius := 1000 |} /\
  circleUpdated a = true /\
  infoBox a = captionHtml {| L.getLatLng := cusp; L.getRadius := 1000 |} /\
  createChart_log a = [].
Proof.
  set (s0 :=
    {| zipcodes := fs;
       selection := {| cuisine := "All"; data := [] |};
       resData := carto.new_SQL "";
       subwaySource := carto.new_SQL "";
       totalView := carto.new_Category "" carto.COUNT 0;
       zipView := carto.new_Category "" carto.COUNT 0;
       gChart := {| axes := []; bars := [] |};
       gMap := bindIndex (fun z node => {| bound := Feature z; fill := fill node |})
                 (fun z => {| bound := Feature z; fill := None |}) fs [];
       legend := {| rects := []; axis_scale := None; tickValues := [];
                    caption_x := None; caption := "" |};
       circle := {| L.getLatLng := cusp; L.getRadius := 1000 |};
       circleUpdated := false;
       infoBox := "";
       createChart_log := [] |}).
  assert (Hg0 : Forall keyed (gMap s0)) by (apply bindIndex_features; constructor).
  destruct (updateMap_empty s0 eq_refl Hg0) as [Hr Hl].
  pose proof (updateMap_writes _ zipcodes ltac:(by_fields) s0) as Kz.
  pose proof (updateMap_writes _ selection ltac:(by_fields) s0) as Ks.
  pose proof (updateMap_writes _ gChart ltac:(by_fields) s0) as Kc.
  pose proof (updateMap_writes _ createChart_log ltac:(by_fields) s0) as Kl.
  assert (Kg : Forall keyed (gMap (exec updateMap s0))).
  { apply updateMap_page_ok. constructor; cbn; [exact Hg0 | lia | lia]. }
  pose proof (updateMap_writes _ circle ltac:(by_fields) s0) as Kcirc.
  assert (E : start fs =
              set_infoBox (captionHtml (circle (exec updateMap s0)))
                (set_circleUpdated true
                  (set_subwaySource (fun _ => carto.new_SQL (JS.template
                      [ JS.nl; "    SELECT * FROM huyvo.ourdata"; JS.nl;
                        "    WHERE line like '%F%'"; JS.nl; "  " ]))
                    (set_zipView (fun _ => carto.on carto.zipChanged_cb
                                    (carto.new_Category "zipcode" carto.COUNT 1000))
                      (set_totalView (fun _ => carto.on carto.initBarChart_cb
                                        (carto.new_Category "cuisine" carto.COUNT 1000))
                        (set_resData (fun _ => carto.new_SQL (JS.template
                            [ JS.nl; "    SELECT *"; JS.nl;
                              "      FROM huyvo.nyc_restaurant_grades"; JS.nl; "  " ]))
                          (exec updateMap s0))))))).
  { unfold start, exec, initVisualization, createBaseMap, createMap, reproject,
      createChartFromCarto, createCartoLayer, setupSelectionHandlers, updateQueryStatus,
      updateCaption, bind, modify, get.
    cbn -[updateMap captionHtml JS.template]. fold s0.
    unfold result in Hr. destruct (updateMap s0) as [r s1]. cbn in Hr. subst r.
    cbn -[updateMap captionHtml JS.template]. destruct s1. reflexivity. }
  cbn zeta. rewrite E. clear E.
  destruct (exec updateMap s0). cbn in *. subst.
  repeat split; reflexivity || assumption.
Qed.

End EmptyCounts.

Section Commits.
Context `{JS.Host}.

Lemma step_clean (a : App) (e : event) :
  is_edit e = false -> circleUpdated a = false -> circleUpdated (step a e) = false.
Proof.
  intros He Ha. destruct (is_mouseup e) eqn:Hm.
  - destruct e; try discriminate. rewrite step_mouseup, Ha. exact Ha.
  - rewrite (step_keeps circleUpdated); [exact Ha | outside_footprint].
Qed.

Lemma step_mouseup_clean (a : App) : circleUpdated (step a mouseup) = false.
Proof.
  rewrite step_mouseup. destruct (circleUpdated a) eqn:E; [now destruct a | exact E].
Qed.

Lemma no_edit_no_mouseup (es : list event) :
  existsb is_edit es = false -> no_edit_since_commit es = true.
Proof.
  induction es as [|e es IH]; [reflexivity|]. intros Hes.
  cbn [no_edit_since_commit]. destruct (existsb is_mouseup es).
  - apply IH. cbn in Hes. now apply orb_false_elim in Hes as [_ ?].
  - now rewrite Hes.
Qed.

(** The flag is clear after a history that has no edit since its last
    [mouseup], if it has a [mouseup] or began with the flag clear. *)
Lemma clean_after (es : list event) (a : App) :
  no_edit_since_commit es = true ->
  existsb is_mouseup es = true \/ circleUpdated a = false ->
  circleUpdated (run a es) = false.
Proof.
  revert a. induction es as [|e es IH]; intros a Hq Hc.
  - destruct Hc as [Hc|Hc]; [discriminate | exact Hc].
  - rewrite run_cons. cbn [no_edit_since_commit] in Hq.
    destruct (existsb is_mouseup es) eqn:Hm.
    + apply IH; [exact Hq | now left].
    + apply negb_true_iff in Hq. cbn [existsb] in Hq.
      apply orb_false_elim in Hq as [He Hes].
      apply IH; [now apply no_edit_no_mouseup|]. right.
      cbn [existsb] in Hc. rewrite Hm, orb_false_r in Hc.
      destruct Hc as [Hc|Hc].
      * destruct e; try discriminate. apply step_mouseup_clean.
      * now apply step_clean.
Qed.

(** C2, as the code has it.  Once a [mouseup] has occurred and no
    geometry-edit event has occurred since, a further [mouseup] changes
    nothing: no query is pushed to the subway source.  The controller
    starts dirty, so the first [mouseup] after start-up does push the
    query of the initial circle, edit or no edit. *)
Theorem commit_after_commit_pushes_nothing (features : list string) (es : list event) :
  no_edit_since_commit es = true ->
  existsb is_mouseup es = true ->
  step (run (start features) es) mouseup = run (start features) es /\
  carto.pushed (subwaySource (step (run (start features) es) mouseup)) =
  carto.pushed (subwaySource (run (start features) es)) /\
  carto.pushed (subwaySource (step (start features) mouseup)) =
  [circleQuery {| L.getLatLng := cusp; L.getRadius := 1000 |}].
Proof.
  intros Hq Hm.
  assert (E : step (run (start features) es) mouseup = run (start features) es).
  { rewrite step_mouseup, clean_after; auto. }
  split; [exact E|]. split; [now rewrite E|].
  destruct (start_fields features) as (_ & _ & _ & Hs & _ & _ & _ & _ & _ & Hc & Hf & _).
  rewrite mouseup_dirty by exact Hf. now rewrite Hs, Hc.
Qed.

End Commits.

(** C2, as stated, fails: right after start-up, with no edit at all, a
    [mouseup] pushes a query. *)
Lemma commit_without_edit_pushes_at_startup :
  ~ @commit_without_edit_pushes_nothing example_host.
Proof.
  intros Hall. specialize (Hall [] [] eq_refl). discriminate Hall.
Qed.

Lemma commit_after_commit_pushes_nothing_witness :
  no_edit_since_commit [EDITRESIZE 500; mouseup; zoomend] = true /\
  existsb is_mouseup [EDITRESIZE 500; mouseup; zoomend] = true /\
  step (run (start (H := example_host) ["10001"]) [EDITRESIZE 500; mouseup; zoomend]) mouseup =
  run (start (H := example_host) ["10001"]) [EDITRESIZE 500; mouseup; zoomend].
Proof.
  split; [reflexivity|]. split; [reflexivity|].
  apply (commit_after_commit_pushes_nothing (H := example_host) ["10001"]
           [EDITRESIZE 500; mouseup; zoomend]); reflexivity.
Defined.

Lemma one_commit_pushes_one_query_witness :
  carto.pushed
    (subwaySource
       (run (start (H := example_host) [])
          ([EDITRESIZE 500; EDITMOVE {| L.lat := 407 # 10; L.lng := -74 |}] ++ [mouseup]))) =
  [circleQuery (H := example_host)
     {| L.getLatLng := {| L.lat := 407 # 10; L.lng := -74 |}; L.getRadius := 500 |}].
Proof.
  apply (one_commit_pushes_one_query (H := example_host) (start [])
           [EDITRESIZE 500; EDITMOVE {| L.lat := 407 # 10; L.lng := -74 |}]).
  - reflexivity.
  - left. discriminate.
Defined.

(** ** Sessions *)

Section Sessions.
Context `{JS.Host}.

(** No handler touches the listeners of [zipView]. *)
Lemma run_zipView (es : list event) (a : App) : zipView (run a es) = zipView a.
Proof.
  revert a. induction es as [|e es IH]; intros a; [reflexivity|].
  rewrite run_cons, IH. apply step_keeps. outside_footprint.
Qed.

Lemma start_page_ok (features : list string) : page_ok (start features).
Proof.
  destruct (start_fields features) as (_ & _ & _ & _ & _ & _ & Hc & Hg & Hl & _).
  constructor; [exact Hg | rewrite Hl; cbn; lia | rewrite Hc; cbn; lia].
Qed.

Lemma session_page_ok (features : list string) (es : list event) :
  page_ok (run (start features) es).
Proof. apply run_page_ok, start_page_ok. Qed.

Lemma session_zipView (features : list string) (es : list event) :
  carto.dataChanged (zipView (run (start features) es)) = [carto.zipChanged_cb].
Proof.
  rewrite run_zipView.
  destruct (start_fields features) as (_ & _ & _ & _ & _ & Hz & _). now rewrite Hz.
Qed.

Lemma five_boxes (b : LegendBox) (old : list LegendBox) :
  (List.length old <= 5)%nat ->
  bindIndex (fun _ _ => b) (fun _ => b) [tt; tt; tt; tt; tt] old = [b; b; b; b; b].
Proof.
  destruct old as [|? [|? [|? [|? [|? [|? ?]]]]]]; cbn; intros; reflexivity || lia.
Qed.

(** C5.  In every page a session can reach, [updateMap] on an empty
    [selection.data] returns normally, and so does the handler of a
    [zipView] delivery that carries no category.  The legend it leaves is
    the degenerate one: five boxes of extent [0, 0] (zero width on any
    linear scale), an axis over the domain [0, 0] with no tick, and the
    caption. *)
Theorem updateMap_survives_empty_counts (features : list string) (es : list event) :
  let a := run (start features) es in
  (data (selection a) = [] ->
   result updateMap a = Ok tt /\
   legend (exec updateMap a) =
     {| rects := [degenerate_box; degenerate_box; degenerate_box;
                  degenerate_box; degenerate_box];
        axis_scale := Some {| d3.ldomain := (0%Q, 0%Q); d3.lrange := (50, 300) |};
        tickValues := [];
        caption_x := Some 50;
        caption := JS.template ["Number of "; cuisine (selection a); " Restaurants"] |}) /\
  result (dispatch (zipView_dataChanged [])) a = Ok tt /\
  data (selection (step a (zipView_dataChanged []))) = [] /\
  rects (legend (step a (zipView_dataChanged []))) =
    [degenerate_box; degenerate_box; degenerate_box; degenerate_box; degenerate_box] /\
  tickValues (legend (step a (zipView_dataChanged []))) = [].
Proof.
  intros a. pose proof (session_page_ok features es) as Hok. fold a in Hok.
  assert (Hempty : forall b, page_ok b -> data (selection b) = [] ->
            result updateMap b = Ok tt /\
            legend (exec updateMap b) =
              {| rects := [degenerate_box; degenerate_box; degenerate_box;
                           degenerate_box; degenerate_box];
                 axis_scale := Some {| d3.ldomain := (0%Q, 0%Q); d3.lrange := (50, 300) |};
                 tickValues := [];
                 caption_x := Some 50;
                 caption := JS.template ["Number of "; cuisine (selection b); " Restaurants"] |}).
  { intros b Hb Hd. destruct (updateMap_empty b Hd (ok_gMap b Hb)) as [Hr Hl].
    split; [exact Hr|]. rewrite Hl. now rewrite five_boxes by apply Hb. }
  split; [intros Hd; now apply Hempty|].
  set (b := set_selection (fun s => {| cuisine := cuisine s; data := [] |}) a).
  assert (Hb : page_ok b) by now apply page_ok_selection.
  assert (Hd : data (selection b) = []) by (subst b; now destruct a).
  destruct (Hempty b Hb Hd) as [Hr Hl].
  pose proof (updateMap_writes _ selection ltac:(by_fields) b) as Hs.
  assert (E : dispatch (zipView_dataChanged []) a =
              (let (r, s) := updateMap b in
               match r with Ok _ => (Ok tt, s) | Throw e => (Throw e, s) end)).
  { cbn [dispatch]. unfold trigger, bind, get. subst a. rewrite session_zipView.
    cbn [forEach call]. unfold zipChanged, bind, modify, ret. cbn [map].
    fold b. destruct (updateMap b) as [[[]|e] s]; reflexivity. }
  clear Hempty. unfold result in Hr. unfold exec in Hl, Hs.
  unfold step, exec, result. rewrite E.
  destruct (updateMap b) as [[[]|e] s]; cbn [fst snd] in *; [|discriminate].
  rewrite Hs, Hl, Hd. auto.
Qed.

End Sessions.

Lemma updateMap_survives_empty_counts_witness :
  data (selection (run (start (H := example_host) ["10001"; "10002"]) [zoomend])) = [] /\
  result updateMap (run (start (H := example_host) ["10001"; "10002"]) [zoomend]) = Ok tt.
Proof.
  split; [reflexivity|].
  exact (proj1 (proj1 (updateMap_survives_empty_counts (H := example_host)
                         ["10001"; "10002"] [zoomend]) eq_refl)).
Defined.

(** ** The one-shot chart callback *)

Section Chart.
Context `{JS.Host}.

Lemma createChart_empty (a : App) :
  createChart [] a = (Throw TypeError, log_createChart [] a).
Proof. reflexivity. Qed.

Lemma createChart_nonempty (byCuisine : list (string * Q)) (a : App) :
  byCuisine <> [] ->
  createChart byCuisine a =
  (Ok tt,
   set_gChart (fun g =>
     {| axes := axes g ++ ["axis axis--x"; "axis axis--y"; "grid axis--x"; "axis axis--x"];
        bars := bindIndex (fun d _ => d) (fun d => d) (firstn 25 byCuisine) (bars g) |})
     (log_createChart byCuisine a)).
Proof.
  intros Hne. unfold createChart, bind, modify.
  destruct (last (firstn 25 byCuisine)) eqn:E; [reflexivity|].
  apply last_None in E. destruct byCuisine; [congruence | discriminate].
Qed.

Lemma bindIndex_enter {V} (l : list V) :
  bindIndex (fun d _ => d) (fun d => d) l [] = l.
Proof. induction l as [|v l IH]; cbn; [reflexivity | now rewrite IH]. Qed.

Lemma map_pair_id (l : list (string * Q)) : map (fun d => (d.1, d.2)) l = l.
Proof. induction l as [|[? ?] l IH]; cbn; [reflexivity | now rewrite IH]. Qed.

(** A delivery to [totalView] while [initBarChart] is its listener. *)
Lemma step_total_subscribed (a : App) (categories : list (string * Q)) :
  carto.dataChanged (totalView a) = [carto.initBarChart_cb] ->
  step a (totalView_dataChanged categories) =
  match categories with
  | [] => log_createChart [] a
  | _ =>
      set_totalView (carto.off carto.initBarChart_cb)
        (set_gChart (fun g =>
           {| axes := axes g ++ ["axis axis--x"; "axis axis--y"; "grid axis--x"; "axis axis--x"];
              bars := bindIndex (fun d _ => d) (fun d => d) (firstn 25 categories) (bars g) |})
           (log_createChart categories a))
  end.
Proof.
  intros Hl. unfold step, exec. cbn [dispatch]. unfold trigger, bind at 1, get.
  rewrite Hl. cbn [forEach call]. unfold initBarChart. rewrite map_pair_id.
  destruct categories as [|c cs].
  - unfold bind. now rewrite createChart_empty.
  - unfold bind. now rewrite createChart_nonempty.
Qed.

Lemma step_total_unsubscribed (a : App) (categories : list (string * Q)) :
  carto.dataChanged (totalView a) = [] ->
  step a (totalView_dataChanged categories) = a.
Proof.
  intros Hl. unfold step, exec. cbn [dispatch]. unfold trigger, bind, get.
  now rewrite Hl.
Qed.

(** Any other event, on a page where [zipView] has its one listener,
    leaves the chart, its view and the log of calls alone. *)
Lemma step_chart_fields {X} (p : App -> X) (a : App) (e : event) :
  Forall (unaffected p) [fSelection; fResData; fSubwaySource; fGMap; fLegend;
                         fCircle; fCircleUpdated; fInfoBox] ->
  carto.dataChanged (zipView a) = [carto.zipChanged_cb] ->
  (forall categories, e <> totalView_dataChanged categories) ->
  p (step a e) = p a.
Proof.
  intros Hp Hz He. apply step_keeps. rewrite List.Forall_forall in *.
  intros f Hf. apply Hp.
  destruct e; cbn [footprint] in Hf; try rewrite Hz in Hf; cbn in Hf |- *;
    try tauto.
  now elim (He categories).
Qed.

Lemma totalView_chart_field :
  Forall (unaffected totalView) [fSelection; fResData; fSubwaySource; fGMap; fLegend;
                                 fCircle; fCircleUpdated; fInfoBox].
Proof. by_fields. Qed.
Lemma gChart_chart_field :
  Forall (unaffected gChart) [fSelection; fResData; fSubwaySource; fGMap; fLegend;
                              fCircle; fCircleUpdated; fInfoBox].
Proof. by_fields. Qed.
Lemma log_chart_field :
  Forall (unaffected createChart_log) [fSelection; fResData; fSubwaySource; fGMap; fLegend;
                                       fCircle; fCircleUpdated; fInfoBox].
Proof. by_fields. Qed.
Lemma zipView_chart_field :
  Forall (unaffected zipView) [fSelection; fResData; fSubwaySource; fGMap; fLegend;
                               fCircle; fCircleUpdated; fInfoBox].
Proof. by_fields. Qed.

(** Once unsubscribed, no event calls [createChart] or changes the bars. *)
Lemma unsubscribed_forever (es : list event) (a : App) :
  carto.dataChanged (totalView a) = [] ->
  carto.dataChanged (zipView a) = [carto.zipChanged_cb] ->
  createChart_log (run a es) = createChart_log a /\
  gChart (run a es) = gChart a /\
  carto.dataChanged (totalView (run a es)) = [].
Proof.
  revert a. induction es as [|e es IH]; intros a Ht Hz; [auto|].
  rewrite run_cons.
  assert (E : totalView (step a e) = totalView a /\ gChart (step a e) = gChart a /\
              createChart_log (step a e) = createChart_log a /\
              zipView (step a e) = zipView a).
  { destruct e as [categories| | | | | | ];
      try (rewrite step_total_unsubscribed by exact Ht; auto);
      (repeat split; apply step_chart_fields;
       auto using totalView_chart_field, gChart_chart_field, log_chart_field,
         zipView_chart_field; discriminate). }
  destruct E as (E1 & E2 & E3 & E4).
  destruct (IH (step a e)) as (I1 & I2 & I3); [now rewrite E1 | now rewrite E4 |].
  rewrite I1, I2, I3, E2, E3. auto.
Qed.

(** The calls of [createChart] in a session, and the bars it ends with. *)
Lemma subscribed_run (es : list event) (a : App) :
  carto.dataChanged (totalView a) = [carto.initBarChart_cb] ->
  carto.dataChanged (zipView a) = [carto.zipChanged_cb] ->
  bars (gChart a) = [] ->
  createChart_log (run a es) = (createChart_log a ++ chart_calls es)%list /\
  bars (gChart (run a es)) = firstn 25 (first_categories es).
Proof.
  revert a. induction es as [|e es IH]; intros a Ht Hz Hb.
  - cbn. now rewrite app_nil_r.
  - rewrite run_cons.
    destruct e as [categories| | | | | | ].
    1: { rewrite step_total_subscribed by exact Ht.
         destruct categories as [|c cs].
         - destruct (IH (log_createChart [] a)) as [I1 I2];
             [now destruct a | now destruct a | now destruct a |].
           rewrite I1, I2. cbn [chart_calls first_categories].
           split; [|reflexivity]. destruct a; cbn. now rewrite <- app_assoc.
         - set (a' := set_totalView _ _).
           destruct (unsubscribed_forever es a') as (U1 & U2 & _);
             [subst a'; destruct a; cbn in *; now rewrite Ht | now destruct a |].
           rewrite U1, U2. cbn [chart_calls first_categories].
           subst a'. destruct a as [? ? ? ? ? ? [ax bs] ? ? ? ? ? ?].
           cbn [createChart_log gChart bars set_totalView set_gChart log_createChart] in *.
           subst bs. now rewrite bindIndex_enter. }
    all: match goal with
         | a : App |- context [step ?a' ?e] =>
             unify a a';
             assert (E : totalView (step a e) = totalView a /\
                         gChart (step a e) = gChart a /\
                         createChart_log (step a e) = createChart_log a /\
                         zipView (step a e) = zipView a)
               by (repeat split; apply step_chart_fields;
                   auto using totalView_chart_field, gChart_chart_field,
                     log_chart_field, zipView_chart_field; discriminate);
             destruct E as (E1 & E2 & E3 & E4);
             destruct (IH (step a e)) as [I1 I2];
               [now rewrite E1 | now rewrite E4 | now rewrite E2 |];
             now rewrite I1, I2, E3
         end.
Qed.

End Chart.

(** ** The threshold scale *)

Lemma bisect_loop_ge (fuel : nat) (a : list Q) (x : Q) (lo hi : nat) :
  (lo <= d3.bisect_loop fuel a x lo hi)%nat.
Proof.
  revert lo hi. induction fuel as [|fuel IH]; intros lo hi; cbn [d3.bisect_loop]; [lia|].
  destruct (Nat.ltb_spec lo hi) as [E|E]; [|lia].
  assert (lo <= (lo + hi) / 2)%nat by (apply Nat.div_le_lower_bound; lia).
  destruct (nth_error a ((lo + hi) / 2)%nat) as [am|].
  - destruct (JS.lt x am); [apply IH|].
    etransitivity; [|apply IH]. lia.
  - etransitivity; [|apply IH]. lia.
Qed.

(** The fuel [hi - lo] is enough: with that much or more the search runs
    until [lo < hi] fails, as the [while] loop does. *)
Lemma bisect_fuel (fuel1 fuel2 : nat) (a : list Q) (x : Q) (lo hi : nat) :
  (hi - lo <= fuel1)%nat -> (hi - lo <= fuel2)%nat ->
  d3.bisect_loop fuel1 a x lo hi = d3.bisect_loop fuel2 a x lo hi.
Proof.
  revert fuel2 lo hi. induction fuel1 as [|f1 IH]; intros fuel2 lo hi H1 H2.
  - destruct fuel2 as [|f2]; [reflexivity|]. cbn [d3.bisect_loop].
    destruct (Nat.ltb_spec lo hi); [lia | reflexivity].
  - cbn [d3.bisect_loop]. destruct (Nat.ltb_spec lo hi) as [E|E].
    + destruct fuel2 as [|f2]; [lia|]. cbn [d3.bisect_loop].
      destruct (Nat.ltb_spec lo hi); [|lia].
      assert (lo <= (lo + hi) / 2)%nat by (apply Nat.div_le_lower_bound; lia).
      assert ((lo + hi) / 2 < hi)%nat by (apply Nat.Div0.div_lt_upper_bound; lia).
      destruct (nth_error a ((lo + hi) / 2)%nat) as [am|];
        [destruct (JS.lt x am)|]; apply IH; lia.
    + destruct fuel2 as [|f2]; [reflexivity|]. cbn [d3.bisect_loop].
      destruct (Nat.ltb_spec lo hi); [lia | reflexivity].
Qed.

(** When the first threshold is not above [x], the search does not end at
    position 0. *)
Lemma bisect_loop_pos (fuel : nat) (a : list Q) (x a0 : Q) (hi : nat) :
  nth_error a 0 = Some a0 ->
  JS.lt x a0 = false ->
  (0 < hi <= fuel)%nat ->
  (1 <= d3.bisect_loop fuel a x 0 hi)%nat.
Proof.
  intros Ha Hx. revert hi. induction fuel as [|fuel IH]; intros hi Hhi; [lia|].
  cbn [d3.bisect_loop]. replace (0 <? hi)%nat with true by (symmetry; apply Nat.ltb_lt; lia).
  cbn [Nat.add].
  destruct (Nat.eq_dec (hi / 2)%nat 0%nat) as [E|E].
  - rewrite E, Ha, Hx. apply bisect_loop_ge.
  - assert (hi / 2 < hi)%nat by (apply Nat.div_lt; lia).
    destruct (nth_error a (hi / 2)%nat) as [am|].
    + destruct (JS.lt x am); [apply IH; lia|].
      etransitivity; [|apply bisect_loop_ge]. lia.
    + etransitivity; [|apply bisect_loop_ge]. lia.
Qed.

(** The lowest colour of the ramp is given to no count that is not
    negative: the first threshold of [updateMap]'s scale is 0, and the
    scale keeps the first colour for what lies below its first threshold. *)
Lemma lowest_colour_unused (thresholds : list Q) (rng : list string) (c : string) (v : Q) :
  nth_error thresholds 0 = Some 0%Q ->
  (2 <= List.length rng)%nat ->
  List.NoDup rng ->
  nth_error rng 0 = Some c ->
  JS.lt v 0 = false ->
  d3.scale (d3.scaleThreshold_of thresholds rng) v <> Some c.
Proof.
  intros Ht Hr Hnd Hc Hv. unfold d3.scale, d3.scaleThreshold_of, d3.bisectRight. cbn.
  destruct thresholds as [|t ts]; [discriminate|].
  set (n := Nat.min _ _). assert (0 < n)%nat by (subst n; cbn [List.length]; lia).
  pose proof (bisect_loop_pos (n - 0) (t :: ts) v 0%Q n Ht Hv ltac:(lia)) as Hpos.
  intros E. rewrite <- Hc in E.
  assert (Hlt : (d3.bisect_loop (n - 0) (t :: ts) v 0 n < List.length rng)%nat)
    by (apply nth_error_Some; rewrite E, Hc; discriminate).
  apply (proj1 (List.NoDup_nth_error rng) Hnd _ _ Hlt) in E. lia.
Qed.

(** ** The bar chart *)

Section ChartProperties.
Context `{JS.Host}.

Lemma click_bar (a : App) (i : nat) (d : string * Q) :
  bars (gChart a) !! i = Some d ->
  step a (click i) =
  set_selection (fun s => {| cuisine := d.1; data := data s |})
    (set_resData (carto.setQuery (categoryQuery d.1)) a).
Proof.
  intros Hd. unfold step, exec. cbn [dispatch]. unfold bind at 1, get.
  now rewrite Hd.
Qed.

(** C6.  On a chart that has a bar for "Pizza" and a bar for "Tacos", a
    click on the first and then on the second pushes exactly two queries
    to the restaurant source, one per click.  The second, which is the
    source's query from then on, names "Tacos" and does not contain
    "Pizza"; the clicked name is placed between the same two pieces of
    text whatever it is. *)
Theorem pizza_then_tacos (a : App) (i j : nat) (vp vt : Q) :
  bars (gChart a) !! i = Some ("Pizza", vp) ->
  bars (gChart a) !! j = Some ("Tacos", vt) ->
  let a' := run a [click i; click j] in
  carto.pushed (resData a') =
    (carto.pushed (resData a) ++ [categoryQuery "Pizza"; categoryQuery "Tacos"])%list /\
  carto.query (resData a') = categoryQuery "Tacos" /\
  JS.includes "cuisine='Tacos'" (carto.query (resData a')) = true /\
  JS.includes "Pizza" (carto.query (resData a')) = false /\
  cuisine (selection a') = "Tacos" /\
  (forall name,
     categoryQuery name =
     JS.template
       [ JS.nl; "          SELECT *"; JS.nl;
         "            FROM htv210.nyc_restaurant_grades"; JS.nl;
         "           WHERE cuisine='" ] ++ name ++ JS.template ["'"; JS.nl; "        "]).
Proof.
  intros Hi Hj a'. subst a'. cbn [run fold_left].
  rewrite (click_bar a i _ Hi).
  rewrite (click_bar _ j ("Tacos", vt)) by now destruct a.
  destruct a as [? ? [q ps] ? ? ? ? ? ? ? ? ? ?].
  cbn [resData selection set_selection set_resData carto.setQuery carto.pushed
       carto.query cuisine fst].
  repeat split; try reflexivity.
  now rewrite <- app_assoc.
Qed.

(** C9.  The query a bar click installs on the restaurant source selects
    from [htv210.nyc_restaurant_grades] whatever the clicked name, while
    the query the source starts with selects from
    [huyvo.nyc_restaurant_grades]: the click does not narrow the initial
    query, it reads another table. *)
Theorem click_query_reads_other_table
    (features : list string) (es : list event) (i : nat) (d : string * Q) :
  let a := run (start features) es in
  bars (gChart a) !! i = Some d ->
  carto.query (resData (step a (click i))) = categoryQuery d.1 /\
  sql_from (categoryQuery d.1) = Some "htv210.nyc_restaurant_grades" /\
  sql_from (carto.query (resData (start features))) = Some "huyvo.nyc_restaurant_grades" /\
  sql_from (carto.query (resData (step a (click i)))) <>
  sql_from (carto.query (resData (start features))).
Proof.
  intros a Hd. rewrite (click_bar a i d Hd).
  destruct (start_fields features) as (_ & _ & Hr & _). rewrite Hr.
  assert (E : carto.query (resData
                (set_selection (fun s => {| cuisine := d.1; data := data s |})
                   (set_resData (carto.setQuery (categoryQuery d.1)) a))) =
              categoryQuery d.1) by now destruct a.
  rewrite E.
  assert (E1 : sql_from (categoryQuery d.1) = Some "htv210.nyc_restaurant_grades")
    by reflexivity.
  rewrite E1. repeat split; try reflexivity. discriminate.
Qed.

(** C10.  The bars of the chart are the first 25 pairs, in the order
    delivered, of the first [totalView] delivery that carries a category;
    a 26th or later pair of it is bound to no bar, at no point of the
    session.  The view asks Carto for up to 1000 categories. *)
Theorem bars_are_first_25 (features : list string) (es : list event) :
  let a := run (start features) es in
  bars (gChart a) = firstn 25 (first_categories es) /\
  (List.length (bars (gChart a)) <= 25)%nat /\
  (forall k, (k < 25)%nat -> bars (gChart a) !! k = first_categories es !! k) /\
  (forall k, (25 <= k)%nat -> bars (gChart a) !! k = None) /\
  carto.limit (totalView (start features)) = 1000%nat.
Proof.
  intros a.
  destruct (start_fields features) as (_ & _ & _ & _ & Ht & Hz & Hc & _).
  destruct (subscribed_run es (start features)) as [_ Hb];
    [now rewrite Ht | now rewrite Hz | now rewrite Hc |].
  fold a in Hb. rewrite Hb, Ht.
  split; [reflexivity|]. split; [rewrite length_take; lia|].
  split; [intros k Hk; now apply lookup_take_lt|].
  split; [|reflexivity].
  intros k Hk. apply lookup_ge_None. rewrite length_take. lia.
Qed.

(** The [createChart] calls of a whole session. *)
Lemma session_chart_calls (features : list string) (es : list event) :
  createChart_log (run (start features) es) = chart_calls es.
Proof.
  destruct (start_fields features) as (_ & _ & _ & _ & Ht & Hz & Hc & _ & _ & _ & _ & _ & Hl).
  destruct (subscribed_run es (start features)) as [Hcalls _];
    [now rewrite Ht | now rewrite Hz | now rewrite Hc |].
  now rewrite Hcalls, Hl.
Qed.

End ChartProperties.

Lemma bars_are_first_25_witness :
  (25 <= 27)%nat /\
  bars (gChart (run (start (H := example_host) [])
                  [totalView_dataChanged example_categories])) !! 27%nat = None.
Proof.
  split; [lia|].
  apply (bars_are_first_25 (H := example_host) []
           [totalView_dataChanged example_categories]).
  lia.
Defined.

Lemma pizza_then_tacos_witness :
  let a := run (start (H := example_host) [])
             [totalView_dataChanged [("Pizza", 3%Q); ("Tacos", 9%Q)]] in
  carto.pushed (resData (run a [click 0%nat; click 1%nat])) =
  [categoryQuery "Pizza"; categoryQuery "Tacos"].
Proof.
  apply (pizza_then_tacos (H := example_host)
           (run (start (H := example_host) [])
              [totalView_dataChanged [("Pizza", 3%Q); ("Tacos", 9%Q)]])
           0%nat 1%nat 3%Q 9%Q); reflexivity.
Defined.

Lemma click_query_reads_other_table_witness :
  sql_from
    (carto.query
       (resData
          (step (run (start (H := example_host) ["10001"])
                   [totalView_dataChanged [("Pizza", 3%Q)]])
             (click 0%nat)))) <>
  sql_from (carto.query (resData (start (H := example_host) ["10001"]))).
Proof.
  apply (click_query_reads_other_table (H := example_host) ["10001"]
           [totalView_dataChanged [("Pizza", 3%Q)]] 0%nat ("Pizza", 3%Q)).
  reflexivity.
Defined.

(** C3, at the input where the code departs from it.  A first [totalView]
    delivery without categories makes [createChart] throw before
    [initBarChart] reaches [totalView.off]: the listener stays, and the
    next delivery calls [createChart] again.  Only the call that returns
    unsubscribes. *)
Theorem empty_delivery_keeps_subscription :
  let a0 := start (H := example_host) ["10001"] in
  let a1 := step a0 (totalView_dataChanged []) in
  let a2 := step a1 (totalView_dataChanged [("Pizza", 3%Q); ("Tacos", 9%Q)]) in
  let a3 := step a2 (totalView_dataChanged [("Pizza", 3%Q)]) in
  result (dispatch (totalView_dataChanged [])) a0 = Throw TypeError /\
  createChart_log a1 = [[]] /\
  carto.dataChanged (totalView a1) = [carto.initBarChart_cb] /\
  bars (gChart a1) = [] /\
  createChart_log a2 = [[]; [("Pizza", 3%Q); ("Tacos", 9%Q)]] /\
  carto.dataChanged (totalView a2) = [] /\
  createChart_log a3 = createChart_log a2.
Proof. vm_compute. repeat split. Qed.

(** C4, at its own input.  The maximum is 12 and the five thresholds are
    0, 2.4, 4.8, 7.2 and 9.6, but a threshold scale of five colours uses
    four thresholds: the fifth is ignored, so 8 and 10 share the darkest
    colour, and the first colour is kept for counts below the first
    threshold, 0.  The path of "10002" (count 0) is filled with the second
    colour of the ramp; it is not given "none". *)
Theorem example_counts_scale :
  let a := step (start (H := example_host) ["10001"; "10002"; "10003"; "10004"])
             (zipView_dataChanged example_counts) in
  let color := d3.scaleThreshold_of (tickValues (legend a)) d3.schemeBlues5 in
  d3.max example_counts snd = Some 12%Q /\
  map Qred (tickValues (legend a)) = [0%Q; 12 # 5; 24 # 5; 36 # 5; 48 # 5] /\
  d3.n color = 4%nat /\
  map (fun node => (bound node, fill node)) (gMap a) =
    [ (Pair "10001" 5, Some "#3182bd");
      (Pair "10002" 0, Some "#bdd7e7");
      (Pair "10003" 12, Some "#08519c");
      (Feature "10004", Some "none") ] /\
  d3.schemeBlues5 !! 0%nat = Some "#eff3ff" /\
  d3.schemeBlues5 !! 1%nat = Some "#bdd7e7" /\
  d3.scale color 8 = Some "#08519c" /\
  d3.scale color 10 = Some "#08519c" /\
  d3.scale color (-1) = Some "#eff3ff".
Proof. vm_compute. repeat split. Qed.

(** ** The round trip through the query *)

Lemma append_nil_r (s : string) : s ++ "" = s.
Proof. induction s as [|c s IH]; [reflexivity|]. change (String c (s ++ "") = String c s). now rewrite IH. Qed.

Lemma length_append (a b : string) :
  String.length (a ++ b) = (String.length a + String.length b)%nat.
Proof.
  induction a as [|c a IH]; [reflexivity|].
  change (S (String.length (a ++ b)) = S (String.length a + String.length b)). now rewrite IH.
Qed.

Lemma substring_prefix (a b : string) : substring 0 (String.length a) (a ++ b) = a.
Proof.
  induction a as [|c a IH]; [now destruct b|].
  change (String c (substring 0 (String.length a) (a ++ b)) = String c a). now rewrite IH.
Qed.

Lemma substring_all (b : string) : substring 0 (String.length b) b = b.
Proof. induction b as [|c b IH]; [reflexivity|]. cbn. now rewrite IH. Qed.

Lemma substring_suffix (a b : string) :
  substring (String.length a) (String.length b) (a ++ b) = b.
Proof.
  induction a as [|c a IH]; [apply substring_all|].
  change (substring (String.length a) (String.length b) (a ++ b) = b). exact IH.
Qed.

Lemma substring_split (s : string) :
  forall a b : nat,
    (a + b = String.length s)%nat ->
    substring 0 a s ++ substring a b s = s.
Proof.
  induction s as [|c s IH]; intros a b Hab.
  - cbn in Hab. assert (a = 0%nat) by lia. assert (b = 0%nat) by lia. subst. reflexivity.
  - destruct a as [|a].
    + cbn in Hab. subst b. cbn [substring].
      change (String c (substring 0 (String.length s) s) = String c s).
      now rewrite substring_all.
    + cbn [substring]. change (String c (substring 0 a s ++ substring a b s) = String c s).
      rewrite IH; [reflexivity|]. cbn in Hab. lia.
Qed.

Lemma length_substring (s : string) :
  forall a b : nat,
    (a + b <= String.length s)%nat -> String.length (substring a b s) = b.
Proof.
  induction s as [|c s IH]; intros a b Hab.
  - cbn in Hab. assert (b = 0%nat) by lia. subst. now destruct a.
  - destruct a as [|a].
    + destruct b as [|b]; [reflexivity|]. cbn [substring String.length]. f_equal.
      apply (IH 0%nat). cbn in Hab. lia.
    + cbn [substring]. apply IH. cbn in Hab. lia.
Qed.

Lemma strip_prefix_app (p s : string) : strip_prefix p (p ++ s) = Some s.
Proof.
  induction p as [|c p IH]; [reflexivity|].
  change (strip_prefix (String c p) (String c (p ++ s)) = Some s).
  cbn [strip_prefix]. now rewrite Ascii.eqb_refl.
Qed.

Lemma strip_suffix_app (p s : string) : strip_suffix p (s ++ p) = Some s.
Proof.
  unfold strip_suffix. rewrite length_append.
  replace (String.length s + String.length p - String.length p)%nat
    with (String.length s) by lia.
  now rewrite substring_suffix, String.eqb_refl, substring_prefix.
Qed.

Lemma free_app (c : ascii) (a b : string) : free c (a ++ b) = free c a && free c b.
Proof.
  induction a as [|c' a IH]; [reflexivity|].
  change (negb (Ascii.eqb c' c) && free c (a ++ b) =
          negb (Ascii.eqb c' c) && free c a && free c b).
  rewrite IH. now rewrite andb_assoc.
Qed.

Lemma upto_free (c : ascii) (a b : string) :
  free c a = true -> upto c (a ++ String c b) = Some (a, b).
Proof.
  induction a as [|c' a IH]; intros Hf.
  - change (upto c (String c b) = Some ("", b)). cbn. now rewrite Ascii.eqb_refl.
  - cbn in Hf. apply andb_prop in Hf as [Hc Ha].
    change (upto c (String c' (a ++ String c b)) = Some (String c' a, b)).
    cbn [upto]. apply negb_true_iff in Hc. rewrite Hc, (IH Ha). reflexivity.
Qed.

(** What [read_digits] accepts has digits only. *)
Lemma read_digits_free (c : ascii) (s : string) :
  digit_value c = None ->
  forall acc v, read_digits acc s = Some v -> free c s = true.
Proof.
  intros Hc. induction s as [|c' s IH]; intros acc v Hr; [reflexivity|].
  cbn in Hr |- *. destruct (digit_value c') as [d|] eqn:Hd; [|discriminate].
  rewrite (IH _ _ Hr), andb_true_r. apply negb_true_iff.
  destruct (Ascii.eqb c' c) eqn:E; [|reflexivity].
  apply Ascii.eqb_eq in E. subst. congruence.
Qed.

Lemma read_digits_app (a b : string) :
  forall acc,
    read_digits acc (a ++ b) =
    match read_digits acc a with
    | Some v => read_digits v b
    | None => None
    end.
Proof.
  induction a as [|c a IH]; intros acc; [reflexivity|].
  change (read_digits acc (String c (a ++ b)) =
          match read_digits acc (String c a) with
          | Some v => read_digits v b
          | None => None
          end).
  cbn [read_digits]. destruct (digit_value c); [apply IH|reflexivity].
Qed.

Lemma digit_value_range (c : ascii) (d : Z) : digit_value c = Some d -> (0 <= d <= 9)%Z.
Proof.
  unfold digit_value.
  destruct ((0 <=? _)%Z && (_ <=? 9)%Z)%bool eqn:E; [|discriminate].
  intros [= <-]. apply andb_prop in E as [E1 E2].
  apply Z.leb_le in E1, E2. lia.
Qed.

Lemma read_digits_acc (s : string) :
  forall acc,
    read_digits acc s =
    option_map (fun w => acc * 10 ^ Z.of_nat (String.length s) + w)%Z (read_digits 0 s).
Proof.
  induction s as [|c s IH]; intros acc.
  - cbn. f_equal. lia.
  - cbn [read_digits String.length]. destruct (digit_value c) as [d|]; [|reflexivity].
    rewrite (IH (10 * acc + d)%Z), (IH (10 * 0 + d)%Z).
    destruct (read_digits 0 s) as [w|]; cbn [option_map]; [|reflexivity].
    f_equal. rewrite Nat2Z.inj_succ, Z.pow_succ_r by lia. ring.
Qed.

Lemma read_digits_nonneg (s : string) :
  forall acc v, read_digits acc s = Some v -> (0 <= acc)%Z -> (0 <= v)%Z.
Proof.
  induction s as [|c s IH]; intros acc v Hr Ha.
  - cbn in Hr. injection Hr as <-. exact Ha.
  - cbn in Hr. destruct (digit_value c) as [d|] eqn:Hd; [|discriminate].
    apply digit_value_range in Hd. apply (IH _ _ Hr). lia.
Qed.

Ltac known_digit :=
  match goal with
  | |- context [digit_value ?c] =>
      let v := eval vm_compute in (digit_value c) in
      change (digit_value c) with v; cbv iota
  end.

Lemma read_uint_acc (d : Decimal.uint) :
  forall p : positive,
    read_digits (Z.pos p) (NilEmpty.string_of_uint d) = Some (Z.pos (Pos.of_uint_acc d p)).
Proof.
  induction d as [|d IH|d IH|d IH|d IH|d IH|d IH|d IH|d IH|d IH|d IH]; intros p;
    [reflexivity|..];
    cbn [NilEmpty.string_of_uint read_digits Pos.of_uint_acc]; known_digit;
    rewrite <- IH; f_equal; lia.
Qed.

Lemma read_uint (d : Decimal.uint) :
  read_digits 0 (NilEmpty.string_of_uint d) = Some (Z.of_N (Pos.of_uint d)).
Proof.
  induction d as [|d IH|d IH|d IH|d IH|d IH|d IH|d IH|d IH|d IH|d IH];
    [reflexivity|exact IH|..];
    cbn [NilEmpty.string_of_uint read_digits Pos.of_uint]; known_digit;
    apply read_uint_acc.
Qed.

Lemma to_uint_nonnil (m : N) : N.to_uint m <> Decimal.Nil.
Proof. destruct m as [|p]; [discriminate|apply Unsigned.to_uint_nonnil]. Qed.

Lemma digits_read (n : Z) : (0 <= n)%Z -> read_digits 0 (JS.digits n) = Some n.
Proof.
  intros Hn. unfold JS.digits, NilZero.string_of_uint.
  pose proof (to_uint_nonnil (Z.to_N n)) as Hnil.
  pose proof (DecimalN.Unsigned.of_to (Z.to_N n)) as Hof.
  destruct (N.to_uint (Z.to_N n)) as [|d|d|d|d|d|d|d|d|d|d] eqn:E; [congruence|..];
    rewrite read_uint; unfold N.of_uint in Hof; rewrite Hof, Z2N.id by exact Hn;
    reflexivity.
Qed.

Lemma digits_nonempty (n : Z) : (1 <= String.length (JS.digits n))%nat.
Proof.
  unfold JS.digits, NilZero.string_of_uint.
  destruct (N.to_uint (Z.to_N n)); cbn; lia.
Qed.

Lemma length_zeros (k : nat) : String.length (JS.zeros k) = k.
Proof. induction k as [|k IH]; [reflexivity|]. cbn. now rewrite IH. Qed.

Lemma zeros_read (k : nat) : read_digits 0 (JS.zeros k) = Some 0%Z.
Proof. induction k as [|k IH]; [reflexivity|exact IH]. Qed.

(** [toFixed(f)] of a number from 0 up to 10^21, for [f] of 1 or more:
    digits, a point and [f] digits, which read as the integer nearest to
    [x * 10^f]. *)
Lemma toFixed_unsigned (toString : Q -> string) (f : nat) (x : Q) :
  f <> 0%nat ->
  (0 <= x)%Q ->
  (x < inject_Z (10 ^ 21))%Q ->
  exists ip fp i fr,
    JS.toFixed_with toString f x = ip ++ String "." fp /\
    ip <> "" /\
    String.length fp = f /\
    read_digits 0 ip = Some i /\
    read_digits 0 fp = Some fr /\
    (0 <= fr)%Z /\
    (i * 10 ^ Z.of_nat f + fr)%Z = Qfloor (x * inject_Z (10 ^ Z.of_nat f) + (1 # 2)).
Proof.
  intros Hf Hx0 Hx.
  set (n := Qfloor (x * inject_Z (10 ^ Z.of_nat f) + (1 # 2))).
  assert (Hn : (0 <= n)%Z).
  { subst n. change 0%Z with (Qfloor 0). apply Qfloor_resp_le.
    assert (0 <= inject_Z (10 ^ Z.of_nat f))%Q.
    { change 0%Q with (inject_Z 0). rewrite <- Zle_Qle. apply Z.pow_nonneg. lia. }
    assert (0 <= x * inject_Z (10 ^ Z.of_nat f))%Q by (apply Qmult_le_0_compat; assumption).
    lra. }
  assert (Hlt : JS.lt x 0 = false).
  { unfold JS.lt. apply negb_false_iff. now apply Qle_bool_iff. }
  assert (Hle : JS.le (inject_Z (10 ^ 21)) x = false).
  { unfold JS.le. apply not_true_is_false. intros E. apply Qle_bool_iff in E. lra. }
  set (m0 := JS.digits n).
  set (m := if (String.length m0 <=? f)%nat then JS.zeros (f + 1 - String.length m0) ++ m0 else m0).
  assert (Hm : read_digits 0 m = Some n).
  { subst m. destruct (String.length m0 <=? f)%nat.
    - rewrite read_digits_app, zeros_read. now apply digits_read.
    - now apply digits_read. }
  assert (Hk : (f + 1 <= String.length m)%nat).
  { subst m. destruct (String.length m0 <=? f)%nat eqn:E.
    - apply Nat.leb_le in E. rewrite length_append, length_zeros. lia.
    - apply Nat.leb_gt in E. lia. }
  set (k := String.length m) in *.
  assert (E : JS.toFixed_with toString f x =
              substring 0 (k - f) m ++ String "." (substring (k - f) f m)).
  { unfold JS.toFixed_with. rewrite Hlt, Hle.
    destruct (f =? 0)%nat eqn:Ef; [apply Nat.eqb_eq in Ef; contradiction|].
    reflexivity. }
  pose proof (substring_split m (k - f) f ltac:(subst k; lia)) as Hsplit.
  rewrite <- Hsplit, read_digits_app in Hm.
  destruct (read_digits 0 (substring 0 (k - f) m)) as [i|] eqn:Hi; [|discriminate].
  rewrite read_digits_acc in Hm.
  destruct (read_digits 0 (substring (k - f) f m)) as [fr|] eqn:Hfr; [|discriminate].
  cbn [option_map] in Hm. injection Hm as Hm.
  assert (Hlen : String.length (substring (k - f) f m) = f)
    by (apply length_substring; subst k; lia).
  rewrite Hlen in Hm.
  exists (substring 0 (k - f) m), (substring (k - f) f m), i, fr.
  split; [exact E|]. split.
  { intros E0. apply (f_equal String.length) in E0.
    rewrite length_substring in E0 by (subst k; lia). cbn in E0. lia. }
  split; [exact Hlen|]. split; [exact Hi|]. split; [exact Hfr|]. split.
  - eapply read_digits_nonneg; [exact Hfr|lia].
  - exact Hm.
Qed.

(** A negative number prints as the minus sign and its opposite. *)
Lemma toFixed_negative (toString : Q -> string) (f : nat) (x : Q) :
  (x < 0)%Q ->
  JS.toFixed_with toString f x = String "-" (JS.toFixed_with toString f (- x)).
Proof.
  intros Hx.
  assert (Hlt : JS.lt x 0 = true).
  { unfold JS.lt. apply negb_true_iff, not_true_is_false. intros E.
    apply Qle_bool_iff in E. lra. }
  assert (Hlt' : JS.lt (- x) 0 = false).
  { unfold JS.lt. apply negb_false_iff, Qle_bool_iff. lra. }
  unfold JS.toFixed_with. rewrite Hlt, Hlt'. reflexivity.
Qed.

Lemma read_nat_digits (s : string) (v : Z) :
  s <> "" -> read_digits 0 s = Some v -> read_nat s = Some v.
Proof. intros Hs Hr. destruct s; [contradiction|exact Hr]. Qed.

Lemma read_unsigned_fixed (ip fp : string) (i fr : Z) :
  ip <> "" -> fp <> "" ->
  read_digits 0 ip = Some i ->
  read_digits 0 fp = Some fr ->
  read_unsigned (ip ++ String "." fp) =
  Some (inject_Z i + inject_Z fr / inject_Z (10 ^ Z.of_nat (String.length fp)))%Q.
Proof.
  intros Hip Hfp Hi Hfr. unfold read_unsigned.
  rewrite upto_free by (eapply read_digits_free; [reflexivity|exact Hi]).
  now rewrite (read_nat_digits ip i Hip Hi), (read_nat_digits fp fr Hfp Hfr).
Qed.

(** A text that starts with a digit has no sign to read. *)
Lemma readDecimal_unsigned (ip rest : string) (i : Z) :
  ip <> "" -> read_digits 0 ip = Some i ->
  readDecimal (ip ++ rest) = read_unsigned (ip ++ rest).
Proof.
  intros Hip Hi. destruct ip as [|c ip]; [contradiction|].
  change (String c ip ++ rest) with (String c (ip ++ rest)).
  cbn [read_digits] in Hi. destruct (digit_value c) as [d|] eqn:Hd; [|discriminate].
  destruct c as [[] [] [] [] [] [] [] []]; try reflexivity; vm_compute in Hd; discriminate.
Qed.

Lemma nearest_integer (y : Q) :
  (Qabs (inject_Z (Qfloor (y + (1 # 2))) - y) <= 1 # 2)%Q.
Proof.
  pose proof (Qfloor_le (y + (1 # 2))) as Hlo.
  pose proof (Qlt_floor (y + (1 # 2))) as Hhi.
  rewrite inject_Z_plus in Hhi. change (inject_Z 1) with 1%Q in Hhi.
  apply Qabs_Qle_condition. split; lra.
Qed.

(** [toFixed(4)] of a number below 10^21 in magnitude reads back, as a
    decimal, as a number with four places that is within half a unit of
    the fourth place of the number; the text has no comma and no
    parenthesis. *)
Lemma toFixed_reads (toString : Q -> string) (x : Q) :
  (Qabs x < inject_Z (10 ^ 21))%Q ->
  exists v,
    readDecimal (JS.toFixed_with toString 4 x) = Some v /\
    four_places v /\
    (Qabs (v - x) <= 1 # 20000)%Q /\
    free "," (JS.toFixed_with toString 4 x) = true /\
    free ")" (JS.toFixed_with toString 4 x) = true.
Proof.
  intros Hx.
  assert (Hcore : forall y, (0 <= y)%Q -> (y < inject_Z (10 ^ 21))%Q ->
            exists v n,
              JS.toFixed_with toString 4 y <> "" /\
              readDecimal (JS.toFixed_with toString 4 y) = Some v /\
              read_unsigned (JS.toFixed_with toString 4 y) = Some v /\
              (v == inject_Z n / inject_Z (10 ^ 4))%Q /\
              (Qabs (v - y) <= 1 # 20000)%Q /\
              free "," (JS.toFixed_with toString 4 y) = true /\
              free ")" (JS.toFixed_with toString 4 y) = true).
  { intros y Hy0 Hy.
    destruct (toFixed_unsigned toString 4 y ltac:(discriminate) Hy0 Hy)
      as (ip & fp & i & fr & E & Hip & Hlen & Hi & Hfr & Hfr0 & Hn).
    assert (Hfp : fp <> "") by (intros ->; discriminate).
    pose proof (read_unsigned_fixed ip fp i fr Hip Hfp Hi Hfr) as Hread.
    rewrite Hlen in Hread.
    exists (inject_Z i + inject_Z fr / inject_Z (10 ^ Z.of_nat 4))%Q,
           (Qfloor (y * inject_Z (10 ^ Z.of_nat 4) + (1 # 2))).
    rewrite E. split.
    { destruct ip; [contradiction|discriminate]. }
    split; [now rewrite (readDecimal_unsigned ip _ i Hip Hi)|].
    split; [exact Hread|].
    assert (Hv : (inject_Z i + inject_Z fr / inject_Z (10 ^ Z.of_nat 4) ==
                  inject_Z (Qfloor (y * inject_Z (10 ^ Z.of_nat 4) + (1 # 2))) /
                  inject_Z (10 ^ 4))%Q).
    { rewrite <- Hn, inject_Z_plus, inject_Z_mult.
      change (inject_Z (10 ^ Z.of_nat 4)) with 10000%Q.
      change (inject_Z (10 ^ 4)) with 10000%Q. field. }
    split; [exact Hv|]. split.
    - rewrite Hv. pose proof (nearest_integer (y * inject_Z (10 ^ Z.of_nat 4))) as Hnear.
      change (inject_Z (10 ^ Z.of_nat 4)) with 10000%Q in *.
      change (inject_Z (10 ^ 4)) with 10000%Q.
      set (n := inject_Z (Qfloor (y * 10000 + (1 # 2)))) in *.
      apply Qabs_Qle_condition in Hnear as [H1 H2].
      apply Qabs_Qle_condition.
      assert (E1 : (n / 10000 - y == (n - y * 10000) * (1 # 10000))%Q) by field.
      rewrite E1. split; lra.
    - rewrite !free_app.
      rewrite (read_digits_free "," ip eq_refl _ _ Hi), (read_digits_free ")" ip eq_refl _ _ Hi).
      cbn [free]. 
      rewrite (read_digits_free "," fp eq_refl _ _ Hfr), (read_digits_free ")" fp eq_refl _ _ Hfr).
      split; reflexivity. }
  destruct (Qlt_le_dec x 0) as [Hneg|Hpos].
  - assert (Hy : (- x < inject_Z (10 ^ 21))%Q).
    { rewrite <- (Qabs_neg x) by lra. exact Hx. }
    destruct (Hcore (- x)%Q ltac:(lra) Hy) as (v & n & Hne & _ & Hr & Hv & Hb & Hf1 & Hf2).
    rewrite (toFixed_negative toString 4 x Hneg).
    exists (- v)%Q. split; [|split; [|split; [|split]]].
    + cbn [readDecimal]. now rewrite Hr.
    + exists (- n)%Z. rewrite Hv, inject_Z_opp. field. discriminate.
    + apply Qabs_Qle_condition in Hb as [H1 H2]. apply Qabs_Qle_condition. split; lra.
    + cbn [free]. now rewrite Hf1.
    + cbn [free]. now rewrite Hf2.
  - assert (Hy : (x < inject_Z (10 ^ 21))%Q).
    { rewrite <- (Qabs_pos x) by exact Hpos. exact Hx. }
    destruct (Hcore x Hpos Hy) as (v & n & _ & Hr & _ & Hv & Hb & Hf1 & Hf2).
    exists v. split; [exact Hr|]. split; [now exists n|]. auto.
Qed.

Section RoundTrip.
Context `{JS.Host}.

Lemma circleQuery_parts (c : L.Circle) :
  circleQuery c =
  query_head ++
    JS.toFixed 4 (L.lat (L.getLatLng c)) ++
      String ","
        (JS.toFixed 4 (L.lng (L.getLatLng c)) ++
           String ")" (query_mid ++ JS.Number_toString (L.getRadius c) ++ query_tail)).
Proof. reflexivity. Qed.

(** The harness finds the three literals of a query where the script put
    them. *)
Lemma literals_circleQuery (c : L.Circle) :
  (Qabs (L.lat (L.getLatLng c)) < inject_Z (10 ^ 21))%Q ->
  (Qabs (L.lng (L.getLatLng c)) < inject_Z (10 ^ 21))%Q ->
  literals (circleQuery c) =
  Some (JS.toFixed 4 (L.lat (L.getLatLng c)),
        JS.toFixed 4 (L.lng (L.getLatLng c)),
        JS.Number_toString (L.getRadius c)).
Proof.
  intros Hlat Hlng.
  destruct (toFixed_reads JS.Number_toString _ Hlat) as (_ & _ & _ & _ & Hf1 & _).
  destruct (toFixed_reads JS.Number_toString _ Hlng) as (_ & _ & _ & _ & _ & Hf2).
  rewrite circleQuery_parts. unfold literals.
  rewrite strip_prefix_app, (upto_free "," _ _ Hf1), (upto_free ")" _ _ Hf2).
  now rewrite strip_prefix_app, strip_suffix_app.
Qed.

End RoundTrip.

Section RoundTripClaim.
Context `{JS.Host}.

(** C7.  The round trip through the query.  For every circle whose
    coordinates are below 10^21 in magnitude, the harness finds in the
    query of [updateQuery] exactly the three literals the script put
    there; the two coordinates read back as numbers with four decimal
    places, each within 0.00005 of the coordinate; and the radius comes
    back as the radius, by whatever reader turns the host's
    [Number::toString] text of that radius back into it (the literal is
    that text, unrounded). *)
Theorem query_round_trip (c : L.Circle) (readRadius : string -> option Q) (r : Q) :
  let lat := L.lat (L.getLatLng c) in
  let lng := L.lng (L.getLatLng c) in
  (Qabs lat < inject_Z (10 ^ 21))%Q ->
  (Qabs lng < inject_Z (10 ^ 21))%Q ->
  readRadius (JS.Number_toString (L.getRadius c)) = Some r ->
  (r == L.getRadius c)%Q ->
  literals (circleQuery c) =
    Some (JS.toFixed 4 lat, JS.toFixed 4 lng, JS.Number_toString (L.getRadius c)) /\
  exists lat' lng',
    parseQuery readRadius (circleQuery c) = Some (lat', lng', r) /\
    four_places lat' /\ (Qabs (lat' - lat) <= 1 # 20000)%Q /\
    four_places lng' /\ (Qabs (lng' - lng) <= 1 # 20000)%Q /\
    (r == L.getRadius c)%Q.
Proof.
  cbn zeta. intros Hlat Hlng Hread Hr.
  pose proof (literals_circleQuery c Hlat Hlng) as Hlit.
  split; [exact Hlit|].
  destruct (toFixed_reads JS.Number_toString _ Hlat) as (lat' & Ra & Fa & Ba & _).
  destruct (toFixed_reads JS.Number_toString _ Hlng) as (lng' & Rb & Fb & Bb & _).
  exists lat', lng'. split; [|auto].
  unfold parseQuery. rewrite Hlit. unfold JS.toFixed. now rewrite Ra, Rb, Hread.
Qed.

End RoundTripClaim.

Lemma query_round_trip_witness :
  let c := {| L.getLatLng := cusp; L.getRadius := 1000 |} in
  (Qabs (L.lat cusp) < inject_Z (10 ^ 21))%Q /\
  (Qabs (L.lng cusp) < inject_Z (10 ^ 21))%Q /\
  readDecimal (JS.Number_toString (Host := example_host) 1000) = Some 1000%Q /\
  literals (circleQuery (H := example_host) c) = Some ("40.6929", "-73.9896", "1000").
Proof.
  cbn zeta.
  assert (H1 : (Qabs (L.lat cusp) < inject_Z (10 ^ 21))%Q) by reflexivity.
  assert (H2 : (Qabs (L.lng cusp) < inject_Z (10 ^ 21))%Q) by reflexivity.
  assert (H3 : readDecimal (JS.Number_toString (Host := example_host) 1000) = Some 1000%Q)
    by reflexivity.
  split; [exact H1|]. split; [exact H2|]. split; [exact H3|].
  exact (proj1 (query_round_trip (H := example_host)
                  {| L.getLatLng := cusp; L.getRadius := 1000 |} readDecimal 1000
                  H1 H2 H3 (Qeq_refl _))).
Defined.

(** * Further properties *)

Local Open Scope list_scope.

(** ** The keyed join of [updateMap], loop by loop *)

Lemma keyed_key (node : PathNode) : keyed node -> key (bound node) = Ok (node_key node).
Proof.
  intros [k Hk]. destruct node as [[z|name v] f]; cbn in *; [reflexivity|].
  now destruct (JS.truthy_string name).
Qed.

Lemma first_occurrence (k : string) (l : list string) :
  k ∈ l -> exists i, is_first l i k.
Proof.
  induction l as [|x l IH]; intros Hk; [now apply elem_of_nil in Hk|].
  destruct (decide (x = k)) as [->|Hne].
  - exists 0%nat. split; [reflexivity | cbn; apply not_elem_of_nil].
  - apply elem_of_cons in Hk as [->|Hk]; [congruence|].
    destruct (IH Hk) as (i & Hi & Hn). exists (S i). split; [exact Hi|].
    cbn. intros [->|H']%elem_of_cons; [congruence | contradiction].
Qed.

Lemma is_first_snoc (l : list string) (x : string) (i : nat) (k : string) :
  is_first (l ++ [x]) i k <->
  is_first l i k \/ (i = List.length l /\ k = x /\ x ∉ l).
Proof.
  unfold is_first. destruct (Nat.lt_trichotomy i (List.length l)) as [Hi|[Hi|Hi]].
  - rewrite lookup_app_l by exact Hi. rewrite take_app_le by lia.
    split; [tauto|]. intros [?|[? _]]; [tauto | lia].
  - subst i. rewrite list_lookup_middle by reflexivity.
    rewrite take_app_length. rewrite lookup_ge_None_2 by lia. rewrite firstn_all.
    split.
    + intros [ [= <-] Hn]. right. auto.
    + intros [[ [=] _]|(_ & -> & Hn)]. auto.
  - rewrite lookup_ge_None_2 by (rewrite length_app; cbn; lia).
    rewrite lookup_ge_None_2 by lia. split; [intros [ [=] _] | intros [[ [=] _]|[? _]]; lia].
Qed.

Lemma dup_snoc (l : list string) (x : string) (i : nat) :
  (exists k, (l ++ [x]) !! i = Some k /\ k ∈ take i (l ++ [x])) <->
  (exists k, l !! i = Some k /\ k ∈ take i l) \/ (i = List.length l /\ x ∈ l).
Proof.
  destruct (Nat.lt_trichotomy i (List.length l)) as [Hi|[Hi|Hi]].
  - rewrite lookup_app_l by exact Hi. rewrite take_app_le by lia.
    split; [tauto|]. intros [?|[? _]]; [tauto | lia].
  - subst i. rewrite list_lookup_middle by reflexivity. rewrite take_app_length.
    rewrite lookup_ge_None_2 by lia. split.
    + intros (k & [= <-] & Hk). right. auto.
    + intros [(k & [=] & _)|[_ Hx]]. eauto.
  - rewrite lookup_ge_None_2 by (rewrite length_app; cbn; lia).
    rewrite lookup_ge_None_2 by lia.
    split; [intros (k & [=] & _) | intros [(k & [=] & _)|[? _]]; lia].
Qed.

(** First loop: the map sends every key to the first path that has it,
    and the exit selection holds the later paths of a key. *)
Lemma bindKey_nodes_spec (rest : list PathNode) :
  Forall keyed rest ->
  forall (done : list string) (m : gmap string nat) (kv : list string) (ex : list nat),
    (forall k i, m !! k = Some i <-> is_first done i k) ->
    (forall i, i ∈ ex <-> exists k, done !! i = Some k /\ k ∈ take i done) ->
    exists m' ex',
      bindKey_nodes rest (List.length done) m kv ex =
        Ok (m', (kv ++ map node_key rest)%list, ex') /\
      (forall k i, m' !! k = Some i <-> is_first (done ++ map node_key rest) i k) /\
      (forall i, i ∈ ex' <->
                 exists k, (done ++ map node_key rest) !! i = Some k /\
                           k ∈ take i (done ++ map node_key rest)).
Proof.
  induction 1 as [|node rest Hnode _ IH]; intros done m kv ex Hm Hex.
  - exists m, ex. cbn. rewrite !app_nil_r. auto.
  - cbn [bindKey_nodes]. rewrite (keyed_key node Hnode).
    set (k0 := node_key node).
    assert (Hlen : List.length (done ++ [k0]) = S (List.length done))
      by (rewrite length_app; cbn; lia).
    assert (Happ : forall (l : list string),
               ((l ++ [k0]) ++ map node_key rest = l ++ map node_key (node :: rest))%list)
      by (intros l; now rewrite <- app_assoc).
    destruct (m !! k0) as [j|] eqn:Hk0.
    + assert (Hin : k0 ∈ done).
      { apply Hm in Hk0 as [Hj _]. eapply list_elem_of_lookup_2, Hj. }
      destruct (IH (done ++ [k0]) m (kv ++ [k0])%list (ex ++ [List.length done])%list)
        as (m' & ex' & E & Hm' & Hex').
      * intros k i. rewrite is_first_snoc, Hm. split; [tauto|].
        intros [?|(_ & _ & Hn)]; [tauto | contradiction].
      * intros i. rewrite dup_snoc, elem_of_app, list_elem_of_singleton, Hex.
        split; [intros [?| ->]; tauto | intros [?|[-> _]]; tauto].
      * exists m', ex'. rewrite Hlen, !Happ in *. auto.
    + assert (Hnin : k0 ∉ done).
      { intros Hin. apply first_occurrence in Hin as (i & Hi).
        apply Hm in Hi. congruence. }
      destruct (IH (done ++ [k0]) (<[k0 := List.length done]> m)
                  (kv ++ [k0])%list ex) as (m' & ex' & E & Hm' & Hex').
      * intros k i. rewrite is_first_snoc, lookup_insert_Some, Hm. split.
        -- intros [[<- <-]|[_ ?]]; [right | left]; auto.
        -- intros [Hf|(-> & -> & _)]; [right | left; auto].
           split; [|exact Hf]. intros <-. destruct Hf as [Hl _].
           apply Hnin. eapply list_elem_of_lookup_2, Hl.
      * intros i. rewrite dup_snoc, Hex. split; [tauto|].
        intros [?|[_ ?]]; [tauto | contradiction].
      * exists m', ex'. rewrite Hlen, !Happ in *. auto.
Qed.

(** Third loop. *)
Lemma bindKey_exit_spec (kvs : list string) :
  forall (i0 : nat) (m : gmap string nat) (ex : list nat) (i : nat),
    i ∈ bindKey_exit kvs i0 m ex <->
    i ∈ ex \/ exists j k, i = (i0 + j)%nat /\ kvs !! j = Some k /\ m !! k = Some i.
Proof.
  induction kvs as [|k0 kvs IH]; intros i0 m ex i; cbn [bindKey_exit].
  - split; [tauto|]. intros [?|(j & k & _ & [=] & _)]. assumption.
  - assert (Hshift : (exists j k, i = (S i0 + j)%nat /\ kvs !! j = Some k /\ m !! k = Some i) <->
                     (exists j k, i = (i0 + S j)%nat /\ (k0 :: kvs) !! S j = Some k /\
                                  m !! k = Some i)).
    { split; intros (j & k & -> & ? & ?); exists j, k; repeat split; auto; lia. }
    assert (Hsplit : (exists j k, i = (i0 + j)%nat /\ (k0 :: kvs) !! j = Some k /\
                                  m !! k = Some i) <->
                     (i = i0 /\ m !! k0 = Some i) \/
                     (exists j k, i = (i0 + S j)%nat /\ (k0 :: kvs) !! S j = Some k /\
                                  m !! k = Some i)).
    { split.
      - intros ([|j] & k & -> & Hk & Hm); [left | right; eauto].
        cbn in Hk. injection Hk as <-. split; [lia | exact Hm].
      - intros [[-> Hm]|(j & k & ? & ? & ?)]; [|eauto].
        exists 0%nat, k0. rewrite Nat.add_0_r. auto. }
    rewrite Hsplit, <- Hshift.
    destruct (m !! k0) as [j|] eqn:Hk0.
    + destruct (Nat.eqb_spec i0 j) as [<-|Hne]; rewrite IH.
      * rewrite elem_of_app, list_elem_of_singleton.
        split; [intros [[?| ->]|?]; auto | intros [?|[[-> _]|?]]; auto].
      * split; [tauto|]. intros [?|[[-> [=]]|?]]; auto. congruence.
    + rewrite IH. split; [tauto|]. intros [?|[[_ [=]]|?]]; auto.
Qed.

(** The two fill transitions, path by path. *)
Lemma style_fill_lookup (sel : list nat) (f : datum -> option string)
    (nodes : list PathNode) (i : nat) :
  style_fill sel f nodes !! i =
  (fun node => if decide (i ∈ sel)
               then {| bound := bound node; fill := f (bound node) |}
               else node) <$> nodes !! i.
Proof.
  unfold style_fill. revert nodes. induction sel as [|j sel IH]; intros nodes.
  - cbn. destruct (nodes !! i); cbn; [|reflexivity].
    destruct (decide (i ∈ [])) as [H|_]; [now apply elem_of_nil in H | reflexivity].
  - cbn [fold_left]. rewrite IH. destruct (decide (i = j)) as [->|Hne].
    + rewrite list_lookup_alter_eq. destruct (nodes !! j) as [node|]; cbn; [|reflexivity].
      destruct (decide (j ∈ sel)), (decide (j ∈ j :: sel)) as [|Hn]; try reflexivity;
        exfalso; apply Hn; now left.
    + rewrite list_lookup_alter_ne by congruence.
      destruct (nodes !! i) as [node|]; cbn; [|reflexivity].
      destruct (decide (i ∈ sel)) as [Hs|Hs], (decide (i ∈ j :: sel)) as [Hc|Hc];
        try reflexivity.
      * exfalso. apply Hc. now right.
      * exfalso. apply elem_of_cons in Hc as [?|?]; congruence.
Qed.

Lemma assoc_None (k : string) (l : list (string * Q)) :
  assoc k l = None <-> k ∉ l.*1.
Proof.
  induction l as [|d l IH]; cbn.
  - split; [intros _; apply not_elem_of_nil | reflexivity].
  - destruct (decide (d.1 = k)) as [<-|Hne].
    + split; [discriminate|]. intros Hn. exfalso. apply Hn. now left.
    + rewrite IH, not_elem_of_cons. split; [auto | tauto].
Qed.

Lemma keys_alter_rebind (d : string * Q) (i : nat) (nodes : list PathNode) :
  map node_key nodes !! i = Some d.1 ->
  map node_key (alter (rebind d) i nodes) = map node_key nodes.
Proof.
  revert i. induction nodes as [|n nodes IH]; intros [|i] Hi; cbn in *; try reflexivity.
  - now injection Hi as ->.
  - now rewrite IH.
Qed.

Lemma key_truthy (d : string * Q) :
  JS.truthy_string d.1 = true -> key (Pair d.1 d.2) = Ok d.1.
Proof. intros Ht. cbn. now rewrite Ht. Qed.

(** Second loop, for names that are all truthy: it does not throw, binds
    the path registered under each name to the first pair of that name,
    and unregisters the name. *)
Lemma bindKey_data_spec (values : list (string * Q)) :
  truthy_names values ->
  forall (m : gmap string nat) (nodes : list PathNode) (update : list nat),
    (forall k i, m !! k = Some i -> map node_key nodes !! i = Some k) ->
    exists m' update' nodes',
      bindKey_data values m update nodes = (Ok (m', update'), nodes') /\
      (forall k, m' !! k = if decide (k ∈ values.*1) then None else m !! k) /\
      (forall i, i ∈ update' <-> i ∈ update \/ exists k, k ∈ values.*1 /\ m !! k = Some i) /\
      (forall i node,
         nodes !! i = Some node ->
         nodes' !! i =
         Some (match assoc (node_key node) values with
               | Some v => if decide (m !! node_key node = Some i)
                           then rebind (node_key node, v) node else node
               | None => node
               end)).
Proof.
  induction 1 as [|d values Hd _ IH]; intros m nodes update Hm.
  - exists m, update, nodes. split; [reflexivity|]. split; [|split].
    + intros k. cbn. destruct (decide (k ∈ [])) as [Hk|_]; [|reflexivity].
      now apply elem_of_nil in Hk.
    + intros i. split; [auto|].
      intros [?|(k & Hk & _)]; [assumption | now apply elem_of_nil in Hk].
    + intros i node Hnode. exact Hnode.
  - cbn [bindKey_data]. rewrite (key_truthy d Hd).
    destruct (m !! d.1) as [i0|] eqn:Hd1.
    + pose proof (Hm _ _ Hd1) as Hi0.
      destruct (IH (delete d.1 m) (alter (rebind d) i0 nodes) (update ++ [i0]))
        as (m' & update' & nodes' & E & Hm' & Hu & Hn).
      { intros k i Hk. rewrite keys_alter_rebind by exact Hi0.
        apply lookup_delete_Some in Hk as [_ Hk]. now apply Hm. }
      exists m', update', nodes'. split; [|split; [|split]].
      * unfold bind, modify. exact E.
      * intros k. rewrite Hm'. cbn [fmap list_fmap].
        destruct (decide (k = d.1)) as [->|Hne].
        -- rewrite lookup_delete_eq.
           destruct (decide (d.1 ∈ values.*1)), (decide (d.1 ∈ d.1 :: values.*1)) as [|Hn'];
             try reflexivity; exfalso; apply Hn'; now left.
        -- rewrite lookup_delete_ne by congruence.
           destruct (decide (k ∈ values.*1)) as [Hv|Hv],
                    (decide (k ∈ d.1 :: values.*1)) as [Hc|Hc]; try reflexivity.
           ++ exfalso. apply Hc. now right.
           ++ exfalso. apply elem_of_cons in Hc as [?|?]; contradiction.
      * intros i. rewrite Hu, elem_of_app, list_elem_of_singleton. cbn [fmap list_fmap].
        split.
        -- intros [[?| ->]|(k & Hk & Hl)]; [auto | right; exists d.1; split; [now left|auto] |].
           apply lookup_delete_Some in Hl as [_ Hl]. right. exists k. split; [now right|auto].
        -- intros [?|(k & Hk & Hl)]; [auto|].
           destruct (decide (k = d.1)) as [->|Hne]; [left; right; congruence|].
           apply elem_of_cons in Hk as [?|Hk]; [contradiction|].
           right. exists k. split; [exact Hk|]. now rewrite lookup_delete_ne by congruence.
      * intros i node Hnode. cbn [assoc].
        destruct (decide (i = i0)) as [->|Hi].
        -- assert (Hk : node_key node = d.1).
           { rewrite list_lookup_fmap, Hnode in Hi0. cbn in Hi0. congruence. }
           rewrite (Hn i0 (rebind d node))
             by (rewrite list_lookup_alter_eq, Hnode; reflexivity).
           change (node_key (rebind d node)) with d.1. rewrite lookup_delete_eq.
           rewrite Hk. destruct (decide (d.1 = d.1)); [|congruence].
           destruct (decide (m !! d.1 = Some i0)); [|congruence].
           destruct (assoc d.1 values); [destruct (decide (None = Some i0))|];
             try discriminate; reflexivity.
        -- rewrite (Hn i node) by (rewrite list_lookup_alter_ne by congruence; exact Hnode).
           destruct (decide (d.1 = node_key node)) as [Hk|Hk].
           ++ rewrite <- Hk, lookup_delete_eq.
              destruct (decide (m !! d.1 = Some i)); [congruence|].
              destruct (assoc d.1 values); [destruct (decide (None = Some i))|];
                try discriminate; reflexivity.
           ++ rewrite lookup_delete_ne by congruence. reflexivity.
    + destruct (IH m nodes update Hm) as (m' & update' & nodes' & E & Hm' & Hu & Hn).
      exists m', update', nodes'. split; [exact E|]. split; [|split].
      * intros k. rewrite Hm'. cbn [fmap list_fmap].
        destruct (decide (k ∈ values.*1)) as [Hv|Hv],
                 (decide (k ∈ d.1 :: values.*1)) as [Hc|Hc]; try reflexivity.
        -- exfalso. apply Hc. now right.
        -- apply elem_of_cons in Hc as [->|?]; [now rewrite Hd1 | contradiction].
      * intros i. rewrite Hu. cbn [fmap list_fmap]. split.
        -- intros [?|(k & Hk & Hl)]; [auto|]. right. exists k. split; [now right|auto].
        -- intros [?|(k & Hk & Hl)]; [auto|].
           apply elem_of_cons in Hk as [->|Hk]; [congruence|]. right. eauto.
      * intros i node Hnode. rewrite (Hn i node Hnode). cbn [assoc].
        destruct (decide (d.1 = node_key node)) as [Hk|Hk]; [|reflexivity].
        rewrite <- Hk, Hd1.
        destruct (decide (None = Some i)); [discriminate|].
        now destruct (assoc d.1 values).
Qed.

Lemma rebind_fill (d : string * Q) (i : nat) (nodes : list PathNode) :
  map fill (alter (rebind d) i nodes) = map fill nodes.
Proof.
  revert i. induction nodes as [|n nodes IH]; intros [|i]; cbn; try reflexivity.
  now rewrite IH.
Qed.

(** Second loop, whatever the names: the paths keep their fills and their
    keys, also when it throws half way. *)
Lemma bindKey_data_frame (values : list (string * Q)) :
  forall (m : gmap string nat) (nodes : list PathNode) (update : list nat),
    (forall k i, m !! k = Some i -> map node_key nodes !! i = Some k) ->
    map fill (exec (bindKey_data values m update) nodes) = map fill nodes /\
    map node_key (exec (bindKey_data values m update) nodes) = map node_key nodes.
Proof.
  induction values as [|d values IH]; intros m nodes update Hm; [auto|].
  cbn [bindKey_data]. cbn [key]. destruct (JS.truthy_string d.1); [|auto].
  destruct (m !! d.1) as [i0|] eqn:Hd1; [|now apply IH].
  pose proof (Hm _ _ Hd1) as Hi0.
  unfold exec, bind, modify. cbn.
  destruct (IH (delete d.1 m) (alter (rebind d) i0 nodes) (update ++ [i0])) as [Hf Hk].
  { intros k i Hk. rewrite keys_alter_rebind by exact Hi0.
    apply lookup_delete_Some in Hk as [_ Hk]. now apply Hm. }
  unfold exec in Hf, Hk. rewrite Hf, Hk, rebind_fill, keys_alter_rebind by exact Hi0.
  auto.
Qed.

(** Second loop: a falsy name makes it throw. *)
Lemma bindKey_data_throws (values : list (string * Q)) :
  ~ truthy_names values ->
  forall m update nodes,
    result (bindKey_data values m update) nodes = Throw TypeError.
Proof.
  induction values as [|d values IH]; intros Hv m update nodes.
  - elim Hv. constructor.
  - cbn [bindKey_data key]. destruct (JS.truthy_string d.1) eqn:Hd; [|reflexivity].
    assert (Hv' : ~ truthy_names values).
    { intros Hall. apply Hv. now constructor. }
    destruct (m !! d.1); [|now apply IH].
    unfold result, bind, modify. cbn. apply (IH Hv').
Qed.

(** The whole join for truthy names: which paths update, which exit, and
    what each is bound to afterwards. *)
Lemma bindKey_spec (values : list (string * Q)) (nodes : list PathNode) :
  Forall keyed nodes ->
  truthy_names values ->
  exists update exit nodes',
    bindKey values nodes = (Ok (update, exit), nodes') /\
    List.length nodes' = List.length nodes /\
    forall i node,
      nodes !! i = Some node ->
      (i ∈ update <->
       node_key node ∈ values.*1 /\ node_key node ∉ take i (map node_key nodes)) /\
      (i ∈ exit <->
       ~ (node_key node ∈ values.*1 /\ node_key node ∉ take i (map node_key nodes))) /\
      nodes' !! i =
      Some (match assoc (node_key node) values with
            | Some v => if decide (node_key node ∈ take i (map node_key nodes))
                        then node else rebind (node_key node, v) node
            | None => node
            end).
Proof.
  intros Hk Hv. set (ks := map node_key nodes).
  destruct (bindKey_nodes_spec nodes Hk [] ∅ [] [])
    as (m0 & ex0 & E0 & Hm0 & Hex0).
  { intros k i. rewrite lookup_empty. unfold is_first. rewrite lookup_nil.
    split; [discriminate | intros [[=] _]]. }
  { intros i. split; [intros Hi; now apply elem_of_nil in Hi|].
    intros (k & [=] & _). }
  cbn [List.length app] in E0, Hm0, Hex0. fold ks in E0, Hm0, Hex0.
  destruct (bindKey_data_spec values Hv m0 nodes [])
    as (m' & update & nodes' & E & Hm' & Hu & Hn).
  { intros k i Hi. apply Hm0 in Hi as [Hi _]. exact Hi. }
  exists update, (bindKey_exit ks 0 m' ex0), nodes'. split; [|split].
  - unfold bindKey, bind, get. rewrite E0. unfold bind. rewrite E. reflexivity.
  - pose proof (bindKey_data_frame values m0 nodes []) as [Hf _].
    { intros k i Hi. apply Hm0 in Hi as [Hi _]. exact Hi. }
    unfold exec in Hf. rewrite E in Hf. cbn in Hf.
    apply (f_equal (@List.length _)) in Hf. now rewrite !length_map in Hf.
  - intros i node Hnode. set (k := node_key node).
    assert (Hki : ks !! i = Some k) by (subst ks; now rewrite list_lookup_fmap, Hnode).
    assert (Hreg : forall k', m0 !! k' = Some i <-> k' = k /\ k ∉ take i ks).
    { intros k'. rewrite Hm0. unfold is_first. rewrite Hki. split.
      - intros [[= <-] ?]. auto.
      - intros [-> ?]. auto. }
    assert (Hup : i ∈ update <-> k ∈ values.*1 /\ k ∉ take i ks).
    { rewrite Hu. split.
      - intros [Hi|(k' & Hk' & Hl)]; [now apply elem_of_nil in Hi|].
        apply Hreg in Hl as [-> ?]. auto.
      - intros [? ?]. right. exists k. split; [assumption|]. now apply Hreg. }
    split; [exact Hup|]. split.
    + rewrite bindKey_exit_spec, Hex0. split.
      * intros [(k' & Hk' & Hd)|(j & k' & Hij & Hj & Hl)].
        -- rewrite Hki in Hk'. injection Hk' as <-. tauto.
        -- cbn in Hij. subst j. rewrite Hki in Hj. injection Hj as <-.
           rewrite Hm' in Hl. destruct (decide (k ∈ values.*1)); [discriminate|]. tauto.
      * intros Hnot. destruct (decide (k ∈ take i ks)) as [Hd|Hd]; [left; eauto|].
        right. exists i, k. split; [reflexivity|]. split; [exact Hki|].
        rewrite Hm'. destruct (decide (k ∈ values.*1)); [tauto|]. now apply Hreg.
    + rewrite (Hn i node Hnode). fold k. destruct (assoc k values); [|reflexivity].
      destruct (decide (m0 !! k = Some i)) as [Hr|Hr], (decide (k ∈ take i ks)) as [Hd|Hd];
        try reflexivity.
      * apply Hreg in Hr as [_ ?]. contradiction.
      * exfalso. apply Hr, Hreg. auto.
Qed.

(** ** The colour scale of [updateMap] *)

(** [d3.range(0, max, max / 5)] never throws: it is empty without a
    maximum or with the maximum 0 (a zero step), and has five entries
    otherwise. *)
Lemma range_of_max (maxCount : option Q) :
  d3.range (Some 0%Q) maxCount
    (match maxCount with
     | Some m => Some (m / inject_Z (Z.of_nat steps))%Q
     | None => None
     end) =
  Ok (match maxCount with
      | Some m => if Qeq_bool m 0 then [] else thresholds_of m
      | None => []
      end).
Proof.
  destruct maxCount as [m|]; [|reflexivity].
  unfold d3.range, d3.range_count.
  destruct (Qeq_bool m 0) eqn:Hm.
  - apply Qeq_bool_eq in Hm.
    assert (Hz : Qeq_bool (m / inject_Z (Z.of_nat steps)) 0 = true).
    { apply Qeq_bool_iff. rewrite Hm. reflexivity. }
    rewrite Hz. reflexivity.
  - assert (Hm' : ~ (m == 0)%Q).
    { intros E. apply Qeq_bool_iff in E. congruence. }
    assert (Hz : Qeq_bool (m / inject_Z (Z.of_nat steps)) 0 = false).
    { apply not_true_is_false. intros E. apply Qeq_bool_eq in E. apply Hm'.
      assert (E' : (m == (m / inject_Z (Z.of_nat steps)) * inject_Z (Z.of_nat steps))%Q)
        by (field; discriminate).
      rewrite E'. rewrite E. reflexivity. }
    rewrite Hz.
    assert (Hc : JS.Math_ceil ((m - 0) / (m / inject_Z (Z.of_nat steps))) = 5%Z).
    { unfold JS.Math_ceil.
      rewrite (Qceiling_comp _ (inject_Z 5)); [apply Qceiling_Z|].
      change (inject_Z (Z.of_nat steps)) with (inject_Z 5). field. auto. }
    rewrite Hc. reflexivity.
Qed.

Lemma colorScale_eq (data : list (string * Q)) :
  colorScale data =
  d3.scaleThreshold_of
    (match d3.max data snd with
     | Some m => if Qeq_bool m 0 then [] else thresholds_of m
     | None => []
     end) d3.schemeBlues5.
Proof. unfold colorScale. now rewrite range_of_max. Qed.

Lemma assoc_Some_elem (k : string) (l : list (string * Q)) (v : Q) :
  assoc k l = Some v -> k ∈ l.*1.
Proof.
  intros E. destruct (decide (k ∈ l.*1)) as [|Hn]; [assumption|].
  apply assoc_None in Hn. congruence.
Qed.

Section MapJoin.
Context `{JS.Host}.

(** [updateMap] on paths that all have a key and counts whose names are
    not empty: it returns, and every path ends as [joined] says. *)
Lemma updateMap_joins (a : App) :
  Forall keyed (gMap a) ->
  truthy_names (data (selection a)) ->
  result updateMap a = Ok tt /\
  gMap (exec updateMap a) =
    imap (joined (data (selection a)) (map node_key (gMap a))) (gMap a).
Proof.
  intros Hk Hv.
  destruct (bindKey_spec (data (selection a)) (gMap a) Hk Hv)
    as (update & exit & nodes' & E & Hlen & Hspec).
  unfold updateMap, result, exec, bind, get. rewrite range_of_max.
  unfold zoom. rewrite E. unfold modify, ret. cbn [fst snd].
  split; [reflexivity|].
  destruct a as [z s r sw tv zv gc gm lg c cu ib cl]. cbn in *.
  apply list_eq. intros i.
  rewrite !style_fill_lookup, list_lookup_imap.
  destruct (gm !! i) as [node|] eqn:Hi.
  - destruct (Hspec i node Hi) as (Hu & Hx & Hn). rewrite Hn. cbn.
    unfold joined. rewrite colorScale_eq. f_equal.
    destruct (assoc (node_key node) (data s)) as [v|] eqn:Ha.
    + apply assoc_Some_elem in Ha.
      destruct (decide (node_key node ∈ take i (map node_key gm))) as [Hd|Hd].
      * destruct (decide (i ∈ exit)) as [_|Hne]; [|exfalso; apply Hne, Hx; tauto].
        destruct (decide (i ∈ update)) as [Hiu|_]; [apply Hu in Hiu; tauto|].
        reflexivity.
      * destruct (decide (i ∈ exit)) as [Hie|_]; [apply Hx in Hie; tauto|].
        destruct (decide (i ∈ update)) as [_|Hnu]; [|exfalso; apply Hnu, Hu; tauto].
        reflexivity.
    + apply assoc_None in Ha.
      destruct (decide (i ∈ exit)) as [_|Hne]; [|exfalso; apply Hne, Hx; tauto].
      destruct (decide (i ∈ update)) as [Hiu|_]; [apply Hu in Hiu; tauto|].
      reflexivity.
  - assert (Hn : nodes' !! i = None).
    { apply lookup_ge_None. rewrite Hlen. now apply lookup_ge_None. }
    rewrite Hn. reflexivity.
Qed.

End MapJoin.

Lemma truthy_names_dec (l : list (string * Q)) : {truthy_names l} + {~ truthy_names l}.
Proof. unfold truthy_names. apply Forall_dec. intros d. apply bool_eq_dec. Qed.

(** The join on counts with an empty name: it throws, and the paths keep
    their fills and keys. *)
Lemma bindKey_throws (values : list (string * Q)) (nodes : list PathNode) :
  Forall keyed nodes ->
  ~ truthy_names values ->
  result (bindKey values) nodes = Throw TypeError /\
  map fill (exec (bindKey values) nodes) = map fill nodes /\
  map node_key (exec (bindKey values) nodes) = map node_key nodes.
Proof.
  intros Hk Hv.
  destruct (bindKey_nodes_spec nodes Hk [] ∅ [] [])
    as (m0 & ex0 & E0 & Hm0 & Hex0).
  { intros k i. rewrite lookup_empty. unfold is_first. rewrite lookup_nil.
    split; [discriminate | intros [[=] _]]. }
  { intros i. split; [intros Hi; now apply elem_of_nil in Hi|].
    intros (k & [=] & _). }
  cbn [List.length app] in E0, Hm0.
  pose proof (bindKey_data_throws values Hv m0 [] nodes) as Ht.
  pose proof (bindKey_data_frame values m0 nodes []) as [Hf Hkeys].
  { intros k i Hi. apply Hm0 in Hi as [Hi _]. exact Hi. }
  unfold result, exec in *. unfold bindKey, bind, get. rewrite E0. unfold bind.
  destruct (bindKey_data values m0 [] nodes) as [[r|e] nodes']; cbn in *.
  - discriminate.
  - injection Ht as ->. auto.
Qed.

Lemma joined_key (data : list (string * Q)) (ks : list string) (i : nat) (node : PathNode) :
  node_key (joined data ks i node) = node_key node.
Proof.
  unfold joined. destruct (assoc _ _); [|reflexivity].
  destruct (decide _); reflexivity.
Qed.

Lemma imap_joined_keys (data : list (string * Q)) (ks : list string) (nodes : list PathNode) :
  map node_key (imap (joined data ks) nodes) = map node_key nodes.
Proof.
  apply list_eq. intros i. rewrite !list_lookup_fmap, list_lookup_imap.
  destruct (nodes !! i); cbn; [|reflexivity]. now rewrite joined_key.
Qed.

Section MapFails.
Context `{JS.Host}.

(** [updateMap] on counts with an empty name: it throws in the join,
    before anything is drawn. *)
Lemma updateMap_throws (a : App) :
  Forall keyed (gMap a) ->
  ~ truthy_names (data (selection a)) ->
  result updateMap a = Throw TypeError /\
  map fill (gMap (exec updateMap a)) = map fill (gMap a) /\
  map node_key (gMap (exec updateMap a)) = map node_key (gMap a) /\
  legend (exec updateMap a) = legend a.
Proof.
  intros Hk Hv.
  destruct (bindKey_throws (data (selection a)) (gMap a) Hk Hv) as (Ht & Hf & Hkeys).
  unfold updateMap, result, exec, bind, get in *. rewrite range_of_max.
  unfold zoom. destruct (bindKey (data (selection a)) (gMap a)) as [[r|e] nodes'].
  - discriminate.
  - cbn in Ht. injection Ht as ->. cbn in *.
    destruct a; cbn in *. auto.
Qed.

(** Whether it returns or throws, [updateMap] leaves every path its key. *)
Lemma updateMap_keys (a : App) :
  Forall keyed (gMap a) ->
  map node_key (gMap (exec updateMap a)) = map node_key (gMap a).
Proof.
  intros Hk. destruct (truthy_names_dec (data (selection a))) as [Hv|Hv].
  - destruct (updateMap_joins a Hk Hv) as [_ ->]. apply imap_joined_keys.
  - now destruct (updateMap_throws a Hk Hv) as (_ & _ & ? & _).
Qed.

(** [updateMap] returns exactly when no name of the counts is empty. *)
Lemma updateMap_returns_iff (a : App) :
  Forall keyed (gMap a) ->
  result updateMap a = Ok tt <-> truthy_names (data (selection a)).
Proof.
  intros Hk. split.
  - intros Hr. destruct (truthy_names_dec (data (selection a))) as [Hv|Hv]; [assumption|].
    destruct (updateMap_throws a Hk Hv) as (Ht & _). congruence.
  - intros Hv. now destruct (updateMap_joins a Hk Hv).
Qed.

End MapFails.

(** ** The paths over a session *)

Lemma bindIndex_enter_map {N V} (rebind : V -> N -> N) (enter : V -> N) (values : list V) :
  bindIndex rebind enter values [] = map enter values.
Proof. induction values as [|v values IH]; cbn; [reflexivity|now rewrite IH]. Qed.

Lemma features_keys (fs : list string) :
  forall nodes : list PathNode,
    (List.length nodes <= List.length fs)%nat ->
    map node_key
      (bindIndex (fun z node => {| bound := Feature z; fill := fill node |})
                 (fun z => {| bound := Feature z; fill := None |}) fs nodes) = fs.
Proof.
  induction fs as [|z fs IH]; intros [|node nodes] Hl; cbn in *; try reflexivity; try lia.
  - f_equal. apply (IH []). cbn. lia.
  - f_equal. apply IH. lia.
Qed.

Lemma features_fills (fs : list string) :
  forall nodes : list PathNode,
    List.length nodes = List.length fs ->
    map fill
      (bindIndex (fun z node => {| bound := Feature z; fill := fill node |})
                 (fun z => {| bound := Feature z; fill := None |}) fs nodes) = map fill nodes.
Proof.
  induction fs as [|z fs IH]; intros [|node nodes] Hl; cbn in *; try reflexivity; try lia.
  f_equal. apply IH. lia.
Qed.

Section MapSteps.
Context `{JS.Host}.

(** A [zipView] delivery stores the counts and redraws. *)
Lemma step_zipView (a : App) (categories : list (string * Q)) :
  carto.dataChanged (zipView a) = [carto.zipChanged_cb] ->
  let a1 := set_selection (fun s => {| cuisine := cuisine s; data := categories |}) a in
  step a (zipView_dataChanged categories) = exec updateMap a1 /\
  result (dispatch (zipView_dataChanged categories)) a = result updateMap a1.
Proof.
  intros Hz. unfold step, dispatch, trigger, exec, result, bind, get. rewrite Hz.
  cbn [forEach call]. unfold zipChanged, bind, modify, ret. rewrite map_pair_id.
  cbn zeta. destruct (updateMap _) as [[[]|e] s]; auto.
Qed.

Lemma step_zoomend (a : App) :
  let a1 := set_gMap
              (bindIndex (fun z node => {| bound := Feature z; fill := fill node |})
                         (fun z => {| bound := Feature z; fill := None |})
                         (zipcodes a)) a in
  step a zoomend = exec updateMap a1 /\
  result (dispatch zoomend) a = result updateMap a1.
Proof.
  unfold step, dispatch, reproject, exec, result, bind, get, modify. auto.
Qed.

Lemma click_nothing (a : App) (i : nat) :
  bars (gChart a) !! i = None -> step a (click i) = a.
Proof.
  intros Hb. unfold step, dispatch, exec, bind, get. now rewrite Hb.
Qed.

(** The listeners of [totalView] in a session: [initBarChart] until the
    first delivery that carries a category, none afterwards. *)
Lemma run_totalView (es : list event) (a : App) :
  carto.dataChanged (totalView a) = [carto.initBarChart_cb] ->
  carto.dataChanged (zipView a) = [carto.zipChanged_cb] ->
  carto.dataChanged (totalView (run a es)) =
  match first_categories es with
  | [] => [carto.initBarChart_cb]
  | _ => []
  end.
Proof.
  revert a. induction es as [|e es IH]; intros a Ht Hz; [exact Ht|].
  rewrite run_cons.
  destruct e as [categories| | | | | | ].
  1: { rewrite step_total_subscribed by exact Ht.
       destruct categories as [|c cs].
       - cbn [first_categories]. apply IH; now destruct a.
       - cbn [first_categories].
         apply unsubscribed_forever; destruct a; cbn in *; [now rewrite Ht | assumption]. }
  all: cbn [first_categories]; apply IH;
    [ rewrite <- Ht; f_equal | rewrite <- Hz; f_equal ];
    apply step_chart_fields;
    auto using totalView_chart_field, zipView_chart_field; discriminate.
Qed.

Lemma session_totalView (features : list string) (es : list event) :
  carto.dataChanged (totalView (run (start features) es)) =
  match first_categories es with
  | [] => [carto.initBarChart_cb]
  | _ => []
  end.
Proof.
  destruct (start_fields features) as (_ & _ & _ & _ & Ht & Hz & _).
  apply run_totalView; [now rewrite Ht | now rewrite Hz].
Qed.

(** Events other than a [zipView] delivery and [zoomend] leave the paths,
    the legend and the counts alone. *)
Lemma step_off_map (a : App) (e : event) :
  carto.dataChanged (totalView a) = [carto.initBarChart_cb] \/
  carto.dataChanged (totalView a) = [] ->
  (forall categories, e <> zipView_dataChanged categories) ->
  e <> zoomend ->
  gMap (step a e) = gMap a /\
  legend (step a e) = legend a /\
  data (selection (step a e)) = data (selection a).
Proof.
  intros Ht Hz Hn.
  destruct e as [categories|categories|i| |latlng|radius| ].
  - destruct Ht as [Ht|Ht].
    + rewrite step_total_subscribed by exact Ht.
      destruct categories; destruct a; auto.
    + rewrite step_total_unsubscribed by exact Ht. auto.
  - now elim (Hz categories).
  - destruct (bars (gChart a) !! i) as [d|] eqn:Hb.
    + rewrite (click_bar a i d Hb). destruct a; auto.
    + rewrite click_nothing by exact Hb. auto.
  - now elim Hn.
  - rewrite step_edit by reflexivity. destruct a; auto.
  - rewrite step_edit by reflexivity. destruct a; auto.
  - rewrite step_mouseup. destruct (circleUpdated a); destruct a; auto.
Qed.

Lemma step_zipcodes (a : App) (e : event) : zipcodes (step a e) = zipcodes a.
Proof. apply step_keeps. outside_footprint. Qed.

Lemma run_zipcodes (es : list event) (a : App) : zipcodes (run a es) = zipcodes a.
Proof.
  revert a. induction es as [|e es IH]; intros a; [reflexivity|].
  now rewrite run_cons, IH, step_zipcodes.
Qed.

(** The page at start-up: [initVisualization] returns, and there is one
    path for each feature, bound to it and filled "none". *)
Lemma start_map (fs : list string) :
  result initVisualization (blank fs) = Ok tt /\
  gMap (start fs) = map (fun z => {| bound := Feature z; fill := Some "none" |}) fs.
Proof.
  set (s0 :=
    {| zipcodes := fs;
       selection := {| cuisine := "All"; data := [] |};
       resData := carto.new_SQL "";
       subwaySource := carto.new_SQL "";
       totalView := carto.new_Category "" carto.COUNT 0;
       zipView := carto.new_Category "" carto.COUNT 0;
       gChart := {| axes := []; bars := [] |};
       gMap := bindIndex (fun z node => {| bound := Feature z; fill := fill node |})
                 (fun z => {| bound := Feature z; fill := None |}) fs [];
       legend := {| rects := []; axis_scale := None; tickValues := [];
                    caption_x := None; caption := "" |};
       circle := {| L.getLatLng := cusp; L.getRadius := 1000 |};
       circleUpdated := false;
       infoBox := "";
       createChart_log := [] |}).
  assert (Hg0 : Forall keyed (gMap s0)) by (apply bindIndex_features; constructor).
  destruct (updateMap_joins s0 Hg0) as [Hr Hg]; [constructor|].
  assert (E : result initVisualization (blank fs) = Ok tt /\
              gMap (start fs) = gMap (exec updateMap s0)).
  { unfold start, exec, result, initVisualization, createBaseMap, createMap, reproject,
      createChartFromCarto, createCartoLayer, setupSelectionHandlers, updateQueryStatus,
      updateCaption, bind, modify, get.
    cbn -[updateMap captionHtml JS.template]. fold s0.
    unfold result in Hr. destruct (updateMap s0) as [r s1]. cbn in Hr. subst r.
    cbn -[updateMap captionHtml JS.template]. destruct s1. auto. }
  destruct E as [E1 E2]. split; [exact E1|]. rewrite E2, Hg.
  cbn [gMap selection data s0]. rewrite bindIndex_enter_map.
  apply list_eq. intros i. rewrite list_lookup_imap, !list_lookup_fmap.
  destruct (fs !! i); reflexivity.
Qed.

End MapSteps.

Lemma joined_fill (data : list (string * Q)) (ks : list string) (i : nat) (node : PathNode) :
  fill (joined data ks i node) = shade data ks i (node_key node).
Proof.
  unfold joined, shade. destruct (assoc _ _); [|reflexivity].
  destruct (decide _); reflexivity.
Qed.

Lemma imap_joined_fills (data : list (string * Q)) (ks : list string) (nodes : list PathNode) :
  map fill (imap (joined data ks) nodes) = imap (shade data ks) (map node_key nodes).
Proof.
  apply list_eq. intros i. rewrite list_lookup_fmap, !list_lookup_imap, list_lookup_fmap.
  destruct (nodes !! i); cbn; [|reflexivity]. now rewrite joined_fill.
Qed.

Lemma latest_counts_snoc (es : list event) (e : event) :
  forall dflt,
    latest_counts dflt (es ++ [e]) =
    match e with
    | zipView_dataChanged categories => categories
    | _ => latest_counts dflt es
    end.
Proof.
  induction es as [|e' es IH]; intros dflt.
  - destruct e; reflexivity.
  - cbn [app latest_counts]. destruct e'; rewrite IH; reflexivity.
Qed.

Lemma gMap_set_gMap f (a : App) : gMap (set_gMap f a) = f (gMap a).
Proof. now destruct a. Qed.
Lemma gMap_set_selection f (a : App) : gMap (set_selection f a) = gMap a.
Proof. now destruct a. Qed.
Lemma selection_set_selection f (a : App) : selection (set_selection f a) = f (selection a).
Proof. now destruct a. Qed.
Lemma selection_set_gMap f (a : App) : selection (set_gMap f a) = selection a.
Proof. now destruct a. Qed.
Lemma legend_set_selection f (a : App) : legend (set_selection f a) = legend a.
Proof. now destruct a. Qed.
Lemma legend_set_gMap f (a : App) : legend (set_gMap f a) = legend a.
Proof. now destruct a. Qed.

Section MapSessions.
Context `{JS.Host}.

Lemma run_snoc (a : App) (es : list event) (e : event) :
  run a (es ++ [e]) = step (run a es) e.
Proof. now rewrite run_app. Qed.

Lemma session_listeners (features : list string) (es : list event) :
  carto.dataChanged (totalView (run (start features) es)) = [carto.initBarChart_cb] \/
  carto.dataChanged (totalView (run (start features) es)) = [].
Proof. rewrite session_totalView. destruct (first_categories es); auto. Qed.

Lemma session_keyed (features : list string) (es : list event) :
  Forall keyed (gMap (run (start features) es)).
Proof. apply session_page_ok. Qed.

Lemma session_paths (features : list string) (es : list event) :
  let a := run (start features) es in
  zipcodes a = features /\
  map node_key (gMap a) = features /\
  List.length (gMap a) = List.length features.
Proof.
  cbn zeta.
  assert (Hz : zipcodes (run (start features) es) = features).
  { rewrite run_zipcodes. now destruct (start_fields features) as (? & _). }
  split; [exact Hz|].
  assert (Hk : map node_key (gMap (run (start features) es)) = features).
  { clear Hz. induction es as [|e es IH] using rev_ind.
    - change (run (start features) []) with (start features).
      destruct (start_map features) as [_ ->]. rewrite map_map. cbn. apply map_id.
    - rewrite run_snoc. set (a := run (start features) es) in *.
      assert (Hz : zipcodes a = features).
      { subst a. rewrite run_zipcodes. now destruct (start_fields features) as (? & _). }
      pose proof (session_keyed features es) as Hkeyed. fold a in Hkeyed.
      destruct e as [categories|categories|i| |latlng|radius| ].
      2: { destruct (step_zipView a categories (session_zipView features es)) as [-> _].
           rewrite updateMap_keys; rewrite gMap_set_selection; assumption. }
      3: { destruct (step_zoomend a) as [-> _].
           rewrite updateMap_keys; rewrite gMap_set_gMap.
           - rewrite Hz. apply features_keys.
             apply (f_equal (@List.length _)) in IH. rewrite length_map in IH. lia.
           - now apply bindIndex_features. }
      all: match goal with
           | |- context [step _ ?e] =>
               destruct (step_off_map a e (session_listeners features es)) as (-> & _);
               [discriminate | discriminate | exact IH]
           end. }
  split; [exact Hk|]. apply (f_equal (@List.length _)) in Hk. now rewrite length_map in Hk.
Qed.

(** X1. [initVisualization] returns for every list of features, and leaves
    one path for each feature, bound to it and filled "none"; the counts
    are empty. *)
Theorem startup_draws_unfilled_paths (features : list string) :
  result initVisualization (blank features) = Ok tt /\
  gMap (start features) =
    map (fun z => {| bound := Feature z; fill := Some "none" |}) features /\
  List.length (gMap (start features)) = List.length features /\
  data (selection (start features)) = [].
Proof.
  destruct (start_map features) as [Hr Hg].
  destruct (start_fields features) as (_ & Hs & _).
  split; [exact Hr|]. split; [exact Hg|]. split.
  - now rewrite Hg, length_map.
  - now rewrite Hs.
Qed.

(** X2. In every session the paths are the features: one path for each
    feature, in the order of the features, and the key of each, under the
    key function of [updateMap], is the zipcode of its feature, whatever
    was delivered and whether a redraw threw; the key function throws on
    none of them. *)
Theorem paths_stay_features (features : list string) (es : list event) :
  let a := run (start features) es in
  zipcodes a = features /\
  map node_key (gMap a) = features /\
  List.length (gMap a) = List.length features /\
  Forall (fun node => key (bound node) = Ok (node_key node)) (gMap a).
Proof.
  cbn zeta. destruct (session_paths features es) as (Hz & Hk & Hl).
  split; [exact Hz|]. split; [exact Hk|]. split; [exact Hl|].
  eapply Forall_impl; [apply session_keyed|]. intros node. apply keyed_key.
Qed.

End MapSessions.

Section Redraws.
Context `{JS.Host}.

(** The fills after [updateMap], whether it returns or throws. *)
Lemma redraw_fills (a : App) :
  Forall keyed (gMap a) ->
  map fill (gMap (exec updateMap a)) =
  if truthy_names_dec (data (selection a))
  then imap (shade (data (selection a)) (map node_key (gMap a))) (map node_key (gMap a))
  else map fill (gMap a).
Proof.
  intros Hk. destruct (truthy_names_dec _) as [Hv|Hv].
  - destruct (updateMap_joins a Hk Hv) as [_ ->]. apply imap_joined_fills.
  - now destruct (updateMap_throws a Hk Hv) as (_ & ? & _).
Qed.

Lemma updateMap_selection (a : App) : selection (exec updateMap a) = selection a.
Proof. apply (updateMap_writes _ selection). by_fields. Qed.

(** One event on a page of a session: the counts it leaves in
    [selection.data] and the fills of the paths. *)
Lemma session_redraw (features : list string) (es : list event) (e : event) :
  let a := run (start features) es in
  data (selection (step a e)) =
    match e with
    | zipView_dataChanged categories => categories
    | _ => data (selection a)
    end /\
  map fill (gMap (step a e)) =
    if is_redraw e
    then if truthy_names_dec (data (selection (step a e)))
         then imap (shade (data (selection (step a e))) features) features
         else map fill (gMap a)
    else map fill (gMap a).
Proof.
  cbn zeta. set (a := run (start features) es).
  destruct (session_paths features es) as (Hz & Hkeys & Hlen). fold a in Hz, Hkeys, Hlen.
  pose proof (session_keyed features es) as Hkeyed. fold a in Hkeyed.
  destruct e as [categories|categories|i| |latlng|radius| ].
  2: { destruct (step_zipView a categories (session_zipView features es)) as [-> _].
       rewrite updateMap_selection, selection_set_selection. cbn [data is_redraw].
       split; [reflexivity|].
       rewrite redraw_fills by (now rewrite gMap_set_selection).
       rewrite selection_set_selection, gMap_set_selection, Hkeys. cbn [data].
       reflexivity. }
  3: { destruct (step_zoomend a) as [-> _].
       rewrite updateMap_selection, selection_set_gMap. cbn [is_redraw].
       split; [reflexivity|].
       rewrite redraw_fills by (rewrite gMap_set_gMap; now apply bindIndex_features).
       rewrite selection_set_gMap, gMap_set_gMap, Hz.
       rewrite features_keys by lia. rewrite features_fills by exact Hlen.
       reflexivity. }
  all: match goal with
       | |- context [step _ ?e] =>
           destruct (step_off_map a e (session_listeners features es)) as (-> & _ & ->);
           [discriminate | discriminate | cbn [is_redraw]; auto]
       end.
Qed.

End Redraws.

Lemma latest_counts_truthy (es : list event) :
  forall dflt,
    Forall well_named es -> truthy_names dflt -> truthy_names (latest_counts dflt es).
Proof.
  induction es as [|e es IH]; intros dflt Hes Hd; [exact Hd|].
  apply Forall_cons in Hes as [He Hes].
  destruct e; cbn [latest_counts]; auto.
Qed.

Lemma shade_nil (ks : list string) (l : list string) :
  imap (shade [] ks) l = map (fun _ => Some "none") l.
Proof.
  apply list_eq. intros i. rewrite list_lookup_imap, list_lookup_fmap.
  destruct (l !! i); reflexivity.
Qed.

Lemma shade_duplicate (data : list (string * Q)) (ks : list string) (i : nat) (k : string) :
  k ∈ take i ks -> shade data ks i k = Some "none".
Proof.
  intros Hd. unfold shade. destruct (assoc k data); [|reflexivity].
  destruct (decide (k ∈ take i ks)); [reflexivity|contradiction].
Qed.

Lemma empty_name_not_truthy (categories : list (string * Q)) (v : Q) :
  ("", v) ∈ categories -> ~ truthy_names categories.
Proof.
  intros Hin Hall. unfold truthy_names in Hall. rewrite Forall_forall in Hall.
  apply Hall in Hin. discriminate.
Qed.

Section MapProperties.
Context `{JS.Host}.

(** X3. Whether the redraw returns or throws, [selection.data] holds the
    counts of the last [zipView] delivery, and is empty before the
    first. *)
Theorem counts_are_last_delivery (features : list string) (es : list event) :
  data (selection (run (start features) es)) = latest_counts [] es.
Proof.
  induction es as [|e es IH] using rev_ind.
  - change (run (start features) []) with (start features). cbn [latest_counts].
    now destruct (start_fields features) as (_ & -> & _).
  - rewrite run_snoc, latest_counts_snoc.
    destruct (session_redraw features es e) as [-> _].
    destruct e; auto.
Qed.

(** X4. A [zipView] delivery whose names are not empty, on any page of a
    session: the handler returns; the first path of a zipcode that the
    delivery names is bound to the first pair of that name and filled by
    the threshold scale of the delivery; every other path (a zipcode the
    delivery does not name, or a later feature of the same zipcode) keeps
    its datum and is filled "none". *)
Theorem delivery_colours_paths (features : list string) (es : list event)
    (categories : list (string * Q)) :
  truthy_names categories ->
  let a := run (start features) es in
  let a' := step a (zipView_dataChanged categories) in
  result (dispatch (zipView_dataChanged categories)) a = Ok tt /\
  data (selection a') = categories /\
  forall (i : nat) (z : string),
    features !! i = Some z ->
    (forall v,
       z ∉ take i features -> assoc z categories = Some v ->
       gMap a' !! i =
       Some {| bound := Pair z v; fill := d3.scale (colorScale categories) v |}) /\
    (z ∈ take i features \/ assoc z categories = None ->
     exists node,
       gMap a !! i = Some node /\
       gMap a' !! i = Some {| bound := bound node; fill := Some "none" |}).
Proof.
  intros Hv. cbn zeta. set (a := run (start features) es).
  destruct (session_paths features es) as (Hz & Hkeys & Hlen). fold a in Hz, Hkeys, Hlen.
  pose proof (session_keyed features es) as Hkeyed. fold a in Hkeyed.
  destruct (step_zipView a categories (session_zipView features es)) as [-> ->].
  set (a1 := set_selection _ a).
  assert (Hd1 : data (selection a1) = categories)
    by (subst a1; now rewrite selection_set_selection).
  assert (Hg1 : gMap a1 = gMap a) by (subst a1; now rewrite gMap_set_selection).
  destruct (updateMap_joins a1) as [Hr Hg];
    [now rewrite Hg1 | now rewrite Hd1|].
  split; [exact Hr|]. split; [now rewrite updateMap_selection|].
  intros i z Hi. rewrite Hg, Hg1, Hd1, Hkeys, list_lookup_imap.
  assert (Hnode : exists node, gMap a !! i = Some node /\ node_key node = z).
  { rewrite <- Hkeys, list_lookup_fmap in Hi.
    destruct (gMap a !! i) as [node|]; [|discriminate].
    injection Hi as <-. eauto. }
  destruct Hnode as (node & Hnode & Hkey). rewrite Hnode. cbn [fmap option_fmap option_map].
  unfold joined. rewrite Hkey. split.
  - intros v Hfirst Ha. rewrite Ha.
    destruct (decide (z ∈ take i features)); [contradiction|reflexivity].
  - intros Hcase. exists node. split; [reflexivity|].
    destruct (assoc z categories) as [v|]; [|reflexivity].
    destruct Hcase as [Hdup|[=]].
    destruct (decide (z ∈ take i features)); [reflexivity|contradiction].
Qed.

(** X5. While every [zipView] delivery is well named, the map shows the
    latest one: [selection.data] is its counts and the fill of every path
    is the one [updateMap] computes from them, also after [zoomend]
    redraws and whatever other events came in between. *)
Theorem map_shows_latest_counts (features : list string) (es : list event) :
  Forall well_named es ->
  let a := run (start features) es in
  data (selection a) = latest_counts [] es /\
  map fill (gMap a) = imap (shade (latest_counts [] es) features) features.
Proof.
  cbn zeta. induction es as [|e es IH] using rev_ind; intros Hes.
  - change (run (start features) []) with (start features). cbn [latest_counts].
    destruct (start_fields features) as (_ & -> & _).
    destruct (start_map features) as [_ ->].
    split; [reflexivity|]. rewrite shade_nil, map_map. reflexivity.
  - apply Forall_app in Hes as [Hes He]. apply List.Forall_inv in He.
    destruct (IH Hes) as [ID IF].
    pose proof (latest_counts_truthy es [] Hes ltac:(constructor)) as Ht.
    rewrite run_snoc, latest_counts_snoc.
    destruct (session_redraw features es e) as [D F]. cbn zeta in D, F.
    rewrite F, D. clear F D. split.
    + destruct e; congruence.
    + destruct e as [categories|categories|i| |latlng|radius| ]; cbn [is_redraw];
        try exact IF.
      * destruct (truthy_names_dec categories) as [|Hn]; [reflexivity|elim (Hn He)].
      * rewrite ID.
        destruct (truthy_names_dec (latest_counts [] es)) as [|Hn]; [reflexivity|elim (Hn Ht)].
Qed.

(** X6. A delivery that carries a category with an empty name: the key
    function of the join reads [zipcode] of [undefined], so the handler
    throws after [selection.data] is replaced and before anything is
    drawn.  The paths keep their fills and the legend stays as it was; the
    next [zoomend] throws in the same way and changes neither. *)
Theorem unnamed_count_stops_redraw (features : list string) (es : list event)
    (categories : list (string * Q)) (v : Q) :
  ("", v) ∈ categories ->
  let a := run (start features) es in
  let a' := step a (zipView_dataChanged categories) in
  result (dispatch (zipView_dataChanged categories)) a = Throw TypeError /\
  data (selection a') = categories /\
  map fill (gMap a') = map fill (gMap a) /\
  legend a' = legend a /\
  result (dispatch zoomend) a' = Throw TypeError /\
  map fill (gMap (step a' zoomend)) = map fill (gMap a) /\
  legend (step a' zoomend) = legend a.
Proof.
  intros Hin. apply empty_name_not_truthy in Hin. cbn zeta.
  set (a := run (start features) es).
  pose proof (session_keyed features es) as Hkeyed. fold a in Hkeyed.
  assert (E' : step a (zipView_dataChanged categories) =
               run (start features) (es ++ [zipView_dataChanged categories]))
    by (now rewrite run_snoc).
  destruct (step_zipView a categories (session_zipView features es)) as [E R].
  set (a1 := set_selection _ a) in E, R.
  assert (Hd1 : data (selection a1) = categories)
    by (subst a1; now rewrite selection_set_selection).
  assert (Hg1 : gMap a1 = gMap a) by (subst a1; now rewrite gMap_set_selection).
  destruct (updateMap_throws a1) as (T1 & T2 & _ & T4);
    [now rewrite Hg1 | now rewrite Hd1|].
  assert (Hl1 : legend a1 = legend a) by (subst a1; now rewrite legend_set_selection).
  assert (Hdata : data (selection (step a (zipView_dataChanged categories))) = categories)
    by (now rewrite E, updateMap_selection).
  assert (Hfill : map fill (gMap (step a (zipView_dataChanged categories))) = map fill (gMap a))
    by (now rewrite E, T2, Hg1).
  assert (Hleg : legend (step a (zipView_dataChanged categories)) = legend a)
    by (now rewrite E, T4).
  split; [now rewrite R|]. split; [exact Hdata|]. split; [exact Hfill|]. split; [exact Hleg|].
  set (a' := step a (zipView_dataChanged categories)) in *.
  destruct (session_paths features (es ++ [zipView_dataChanged categories]))
    as (Hz & _ & Hlen).
  pose proof (session_keyed features (es ++ [zipView_dataChanged categories])) as Hkeyed'.
  rewrite <- E' in Hz, Hlen, Hkeyed'.
  destruct (step_zoomend a') as [E2 R2]. set (a2 := set_gMap _ a') in E2, R2.
  destruct (updateMap_throws a2) as (U1 & U2 & _ & U4).
  { subst a2. rewrite gMap_set_gMap. now apply bindIndex_features. }
  { subst a2. now rewrite selection_set_gMap, Hdata. }
  split; [now rewrite R2|]. rewrite E2, U2, U4. subst a2.
  rewrite gMap_set_gMap, legend_set_gMap, Hz, features_fills by exact Hlen. auto.
Qed.

(** X7. Of two features with the same zipcode only the first is ever
    coloured: the path of the later one is filled "none" on every page of
    every session. *)
Theorem later_duplicate_stays_unfilled (features : list string) (es : list event)
    (i : nat) (z : string) :
  features !! i = Some z ->
  z ∈ take i features ->
  map fill (gMap (run (start features) es)) !! i = Some (Some "none").
Proof.
  intros Hi Hdup. induction es as [|e es IH] using rev_ind.
  - change (run (start features) []) with (start features).
    destruct (start_map features) as [_ ->].
    now rewrite map_map, list_lookup_fmap, Hi.
  - rewrite run_snoc. destruct (session_redraw features es e) as [_ ->].
    destruct (is_redraw e); [|exact IH].
    destruct (truthy_names_dec _); [|exact IH].
    rewrite list_lookup_imap, Hi. cbn. now rewrite shade_duplicate.
Qed.

End MapProperties.

Lemma delivery_colours_paths_witness :
  let a := run (start (H := example_host) ["10001"; "10002"]) [zoomend] in
  let a' := step a (zipView_dataChanged [("10001", 5%Q)]) in
  truthy_names [("10001", 5%Q)] /\
  result (dispatch (zipView_dataChanged [("10001", 5%Q)])) a = Ok tt /\
  data (selection a') = [("10001", 5%Q)].
Proof.
  assert (Hv : truthy_names [("10001", 5%Q)]) by (repeat constructor).
  split; [exact Hv|].
  pose proof (delivery_colours_paths (H := example_host) ["10001"; "10002"] [zoomend]
                [("10001", 5%Q)] Hv) as P.
  cbn zeta in P. destruct P as (P1 & P2 & _). split; [exact P1 | exact P2].
Defined.

Lemma map_shows_latest_counts_witness :
  Forall well_named [zipView_dataChanged [("10001", 5%Q)]; zoomend] /\
  data (selection (run (start (H := example_host) ["10001"; "10002"])
                     [zipView_dataChanged [("10001", 5%Q)]; zoomend])) = [("10001", 5%Q)].
Proof.
  assert (Hw : Forall well_named [zipView_dataChanged [("10001", 5%Q)]; zoomend])
    by (repeat constructor).
  split; [exact Hw|].
  exact (proj1 (map_shows_latest_counts (H := example_host) ["10001"; "10002"] _ Hw)).
Defined.

Lemma unnamed_count_stops_redraw_witness :
  ("", 7%Q) ∈ [("10001", 5%Q); ("", 7%Q)] /\
  result (dispatch (H := example_host) (zipView_dataChanged [("10001", 5%Q); ("", 7%Q)]))
    (run (start (H := example_host) ["10001"; "10002"]) []) = Throw TypeError.
Proof.
  assert (Hin : ("", 7%Q) ∈ [("10001", 5%Q); ("", 7%Q)]) by (repeat constructor).
  split; [exact Hin|].
  exact (proj1 (unnamed_count_stops_redraw (H := example_host) ["10001"; "10002"] []
                  _ _ Hin)).
Defined.

Lemma later_duplicate_stays_unfilled_witness :
  ["10004"; "10005"; "10004"] !! 2%nat = Some "10004" /\
  "10004" ∈ take 2 ["10004"; "10005"; "10004"] /\
  map fill (gMap (run (start (H := example_host) ["10004"; "10005"; "10004"])
                    [zipView_dataChanged [("10004", 3%Q)]])) !! 2%nat = Some (Some "none").
Proof.
  assert (Hd : "10004" ∈ take 2 ["10004"; "10005"; "10004"]) by (repeat constructor).
  split; [reflexivity|]. split; [exact Hd|].
  exact (later_duplicate_stays_unfilled (H := example_host) ["10004"; "10005"; "10004"]
           [zipView_dataChanged [("10004", 3%Q)]] 2 "10004" eq_refl Hd).
Defined.

(** ** The threshold scale *)

Lemma lt_cases (x y : Q) :
  (JS.lt x y = true /\ (x < y)%Q) \/ (JS.lt x y = false /\ (y <= x)%Q).
Proof.
  unfold JS.lt. destruct (Qle_bool y x) eqn:E; cbn.
  - right. split; [reflexivity|]. now apply Qle_bool_iff.
  - left. split; [reflexivity|]. apply Qnot_le_lt. intros Hle.
    apply Qle_bool_iff in Hle. congruence.
Qed.

Lemma threshold_eq (m : Q) (i : nat) :
  (threshold m i == inject_Z (Z.of_nat i) * m * (1 # 5))%Q.
Proof. unfold threshold. change (inject_Z (Z.of_nat steps)) with (inject_Z 5). field. Qed.

(** [d3.max]: the accumulator only grows, and ends at a value of the
    array or where it started. *)
Lemma max_fold (values : list (string * Q)) :
  forall m0 : Q,
    exists m,
      fold_left
        (fun max a =>
           match max with
           | None => Some a.2
           | Some m => if JS.lt m a.2 then Some a.2 else max
           end)
        values (Some m0) = Some m /\
      (m0 <= m)%Q /\
      Forall (fun d => (d.2 <= m)%Q) values /\
      (m = m0 \/ exists d, d ∈ values /\ d.2 = m).
Proof.
  induction values as [|d values IH]; intros m0.
  - exists m0. cbn. repeat split; auto using Qle_refl.
  - cbn [fold_left]. destruct (lt_cases m0 d.2) as [[-> Hlt]|[-> Hle]].
    + destruct (IH d.2) as (m & E & Hm & Hall & Hin). exists m.
      split; [exact E|]. split; [eapply Qle_trans; [apply Qlt_le_weak|]; eassumption|].
      split; [constructor; assumption|].
      right. destruct Hin as [->|(d' & Hd' & <-)].
      * exists d. split; [left|reflexivity].
      * exists d'. split; [now right|reflexivity].
    + destruct (IH m0) as (m & E & Hm & Hall & Hin). exists m.
      split; [exact E|]. split; [exact Hm|].
      split; [constructor; [eapply Qle_trans; eassumption|assumption]|].
      destruct Hin as [->|(d' & Hd' & <-)]; [now left|].
      right. exists d'. split; [now right|reflexivity].
Qed.

(** [d3.max] of counts that are not empty is one of the counts, and no
    count is greater. *)
Lemma max_spec (values : list (string * Q)) :
  values <> [] ->
  exists m,
    d3.max values snd = Some m /\
    Forall (fun d => (d.2 <= m)%Q) values /\
    exists d, d ∈ values /\ d.2 = m.
Proof.
  destruct values as [|d0 values]; [congruence|]. intros _.
  unfold d3.max. cbn [fold_left].
  destruct (max_fold values d0.2) as (m & E & Hm & Hall & Hin).
  exists m. split; [exact E|]. split; [constructor; assumption|].
  destruct Hin as [->|(d' & Hd' & <-)].
  - exists d0. split; [left|reflexivity].
  - exists d'. split; [now right|reflexivity].
Qed.

Lemma positive_not_zero (m : Q) : (0 < m)%Q -> Qeq_bool m 0 = false.
Proof.
  intros Hm. apply not_true_is_false. intros E. apply Qeq_bool_eq in E.
  rewrite E in Hm. now apply Qlt_irrefl in Hm.
Qed.

Lemma scale_has_four_bins_aux (data : list (string * Q)) (m v : Q) :
  d3.max data snd = Some m ->
  (0 < m)%Q ->
  d3.scale (colorScale data) v =
  Some (if Qlt_le_dec v 0 then "#eff3ff"
        else if Qlt_le_dec v (m * (1 # 5)) then "#bdd7e7"
        else if Qlt_le_dec v (m * (2 # 5)) then "#6baed6"
        else if Qlt_le_dec v (m * (3 # 5)) then "#3182bd"
        else "#08519c").
Proof.
  intros Hmax Hm. rewrite colorScale_eq, Hmax, positive_not_zero by exact Hm.
  pose proof (threshold_eq m 0) as E0. pose proof (threshold_eq m 1) as E1.
  pose proof (threshold_eq m 2) as E2. pose proof (threshold_eq m 3) as E3.
  unfold thresholds_of. cbn [seq map].
  set (t0 := threshold m 0) in *. set (t1 := threshold m 1) in *.
  set (t2 := threshold m 2) in *. set (t3 := threshold m 3) in *.
  set (t4 := threshold m 4) in *.
  unfold d3.scale, d3.scaleThreshold_of, d3.bisectRight.
  cbn [d3.range_ d3.domain d3.n List.length d3.schemeBlues5 Nat.min Nat.sub].
  change (inject_Z (Z.of_nat 0)) with 0%Q in E0.
  change (inject_Z (Z.of_nat 1)) with 1%Q in E1.
  change (inject_Z (Z.of_nat 2)) with 2%Q in E2.
  change (inject_Z (Z.of_nat 3)) with 3%Q in E3.
  cbn [d3.bisect_loop Nat.ltb Nat.leb Nat.add Nat.div Nat.divmod fst nth_error].
  destruct (lt_cases v t2) as [[-> H2]|[-> H2]]; rewrite E2 in H2;
    cbn [d3.bisect_loop Nat.ltb Nat.leb Nat.add Nat.div Nat.divmod fst nth_error].
  - destruct (lt_cases v t1) as [[-> H1]|[-> H1]]; rewrite E1 in H1;
      cbn [d3.bisect_loop Nat.ltb Nat.leb Nat.add Nat.div Nat.divmod fst nth_error].
    + destruct (lt_cases v t0) as [[-> H0]|[-> H0]]; rewrite E0 in H0;
        cbn [d3.bisect_loop Nat.ltb Nat.leb Nat.add Nat.div Nat.divmod fst nth_error];
        repeat destruct (Qlt_le_dec _ _); try reflexivity; exfalso; lra.
    + repeat destruct (Qlt_le_dec _ _); try reflexivity; exfalso; lra.
  - destruct (lt_cases v t3) as [[-> H3]|[-> H3]]; rewrite E3 in H3;
      cbn [d3.bisect_loop Nat.ltb Nat.leb Nat.add Nat.div Nat.divmod fst nth_error];
      repeat destruct (Qlt_le_dec _ _); try reflexivity; exfalso; lra.
Qed.

Lemma thresholds_increase (m : Q) :
  (0 < m)%Q ->
  (threshold m 0 == 0)%Q /\
  (0 < threshold m 1)%Q /\ (threshold m 1 < threshold m 2)%Q /\
  (threshold m 2 < threshold m 3)%Q /\ (threshold m 3 < threshold m 4)%Q /\
  (threshold m 4 < m)%Q.
Proof.
  intros Hm.
  pose proof (threshold_eq m 0) as E0. pose proof (threshold_eq m 1) as E1.
  pose proof (threshold_eq m 2) as E2. pose proof (threshold_eq m 3) as E3.
  pose proof (threshold_eq m 4) as E4.
  change (inject_Z (Z.of_nat 0)) with 0%Q in E0.
  change (inject_Z (Z.of_nat 1)) with 1%Q in E1.
  change (inject_Z (Z.of_nat 2)) with 2%Q in E2.
  change (inject_Z (Z.of_nat 3)) with 3%Q in E3.
  change (inject_Z (Z.of_nat 4)) with 4%Q in E4.
  repeat split; lra.
Qed.

Lemma scale_by_thresholds (data : list (string * Q)) (m v : Q) :
  d3.max data snd = Some m ->
  (0 < m)%Q ->
  d3.scale (colorScale data) v =
  Some (if Qlt_le_dec v 0 then "#eff3ff"
        else if Qlt_le_dec v (threshold m 1) then "#bdd7e7"
        else if Qlt_le_dec v (threshold m 2) then "#6baed6"
        else if Qlt_le_dec v (threshold m 3) then "#3182bd"
        else "#08519c").
Proof.
  intros Hmax Hm. rewrite (scale_has_four_bins_aux data m v Hmax Hm).
  pose proof (threshold_eq m 1) as E1. pose proof (threshold_eq m 2) as E2.
  pose proof (threshold_eq m 3) as E3.
  change (inject_Z (Z.of_nat 1)) with 1%Q in E1.
  change (inject_Z (Z.of_nat 2)) with 2%Q in E2.
  change (inject_Z (Z.of_nat 3)) with 3%Q in E3.
  repeat destruct (Qlt_le_dec _ _); try reflexivity; exfalso; lra.
Qed.

(** X8. The scale of counts whose greatest is [m], 1 or more: four bins, cut
    at the thresholds the scale holds.  Its domain starts with the
    thresholds 0 < [t1] < [t2] < [t3], all below [m], and with five
    colours it searches these four only: a value below 0 gets the first
    colour, the next three colours are for [0, t1), [t1, t2) and
    [t2, t3), and everything from [t3] on gets the last one. *)
Theorem scale_has_four_bins (data : list (string * Q)) (m : Q) :
  d3.max data snd = Some m ->
  (1 <= m)%Q ->
  exists (t0 t1 t2 t3 : Q) (rest : list Q),
    d3.domain (colorScale data) = t0 :: t1 :: t2 :: t3 :: rest /\
    d3.n (colorScale data) = 4%nat /\
    (t0 == 0)%Q /\ (0 < t1)%Q /\ (t1 < t2)%Q /\ (t2 < t3)%Q /\ (t3 < m)%Q /\
    forall v : Q,
      d3.scale (colorScale data) v =
      Some (if Qlt_le_dec v 0 then "#eff3ff"
            else if Qlt_le_dec v t1 then "#bdd7e7"
            else if Qlt_le_dec v t2 then "#6baed6"
            else if Qlt_le_dec v t3 then "#3182bd"
            else "#08519c").
Proof.
  intros Hmax Hm1. assert (Hm : (0 < m)%Q) by lra.
  destruct (thresholds_increase m Hm) as (H0 & H1 & H2 & H3 & H4 & H5).
  exists (threshold m 0), (threshold m 1), (threshold m 2), (threshold m 3), [threshold m 4].
  split; [|split].
  - rewrite colorScale_eq, Hmax, positive_not_zero by exact Hm. reflexivity.
  - rewrite colorScale_eq, Hmax, positive_not_zero by exact Hm. reflexivity.
  - repeat (split; [first [assumption | lra]|]).
    intros v. now apply scale_by_thresholds.
Qed.

(** X9. Counts whose maximum is 0 (all of them 0, or none at all): the zero
    step gives no threshold, and the scale has the first colour for every
    value. *)
Theorem scale_of_zero_counts (data : list (string * Q)) (v : Q) :
  d3.max data snd = None \/ (exists m, d3.max data snd = Some m /\ (m == 0)%Q) ->
  d3.domain (colorScale data) = [] /\
  d3.scale (colorScale data) v = Some "#eff3ff".
Proof.
  intros Hmax. rewrite colorScale_eq.
  assert (E : match d3.max data snd with
              | Some m => if Qeq_bool m 0 then [] else thresholds_of m
              | None => []
              end = []).
  { destruct Hmax as [->|(m & -> & Hm)]; [reflexivity|].
    apply Qeq_bool_iff in Hm. now rewrite Hm. }
  rewrite E. split; reflexivity.
Qed.

(** X10. With a positive count among them, the greatest count gets the last
    colour and no count that is not negative gets the first. *)
Theorem greatest_count_is_darkest (data : list (string * Q)) (d : string * Q) :
  d ∈ data ->
  (0 < d.2)%Q ->
  Forall (fun d' => (d'.2 <= d.2)%Q) data ->
  d3.scale (colorScale data) d.2 = Some "#08519c" /\
  forall v, (0 <= v)%Q -> d3.scale (colorScale data) v <> Some "#eff3ff".
Proof.
  intros Hin Hpos Hall.
  destruct (max_spec data) as (m & Hmax & Hle & d' & Hd' & Hm).
  { intros ->. now apply elem_of_nil in Hin. }
  assert (Hdm : (d.2 <= m)%Q).
  { rewrite Forall_forall in Hle. now apply Hle. }
  assert (Hmd : (m <= d.2)%Q).
  { rewrite Forall_forall in Hall. rewrite <- Hm. now apply Hall. }
  assert (Hmpos : (0 < m)%Q) by lra.
  split.
  - rewrite (scale_has_four_bins_aux data m d.2 Hmax Hmpos).
    repeat destruct (Qlt_le_dec _ _); try reflexivity; exfalso; lra.
  - intros v Hv. rewrite (scale_has_four_bins_aux data m v Hmax Hmpos).
    repeat destruct (Qlt_le_dec _ _); try discriminate; exfalso; lra.
Qed.

Lemma scale_has_four_bins_witness :
  d3.max example_counts snd = Some 12%Q /\
  (1 <= 12)%Q /\
  d3.n (colorScale example_counts) = 4%nat.
Proof.
  assert (H1 : (1 <= 12)%Q) by discriminate.
  split; [reflexivity|]. split; [exact H1|].
  destruct (scale_has_four_bins example_counts 12 eq_refl H1)
    as (t0 & t1 & t2 & t3 & rest & _ & Hn & _).
  exact Hn.
Defined.

Lemma scale_of_zero_counts_witness :
  d3.scale (colorScale [("10001", 0%Q); ("10002", 0%Q)]) 0 = Some "#eff3ff".
Proof.
  refine (proj2 (scale_of_zero_counts [("10001", 0%Q); ("10002", 0%Q)] 0 _)).
  right. exists 0%Q. split; reflexivity.
Defined.

Lemma greatest_count_is_darkest_witness :
  d3.scale (colorScale example_counts) 12 = Some "#08519c".
Proof.
  refine (proj1 (greatest_count_is_darkest example_counts ("10003", 12%Q) _ _ _)).
  - repeat constructor.
  - reflexivity.
  - repeat constructor; discriminate.
Defined.

(** ** The legend *)

Lemma bindIndex_all {N V} (f : V -> N) (values : list V) :
  forall nodes : list N,
    (List.length nodes <= List.length values)%nat ->
    bindIndex (fun d _ => f d) f values nodes = map f values.
Proof.
  induction values as [|v values IH]; intros [|node nodes] Hl; cbn in *;
    try reflexivity; try lia.
  - f_equal. apply (IH []). cbn. lia.
  - f_equal. apply IH. lia.
Qed.

Lemma invert_extents (t0 t1 t2 t3 t4 : Q) :
  map (d3.invertExtent (d3.scaleThreshold_of [t0; t1; t2; t3; t4] d3.schemeBlues5))
    d3.schemeBlues5 =
  [ (None, Some t0); (Some t0, Some t1); (Some t1, Some t2);
    (Some t2, Some t3); (Some t3, Some t4) ].
Proof. reflexivity. Qed.

Lemma truthy_positive (x : Q) : (0 < x)%Q -> JS.truthy_number x = true.
Proof. intros Hx. unfold JS.truthy_number. now rewrite positive_not_zero. Qed.

Section LegendProperties.
Context `{JS.Host}.

(** The legend [updateMap] leaves when it returns. *)
Lemma updateMap_legend (a : App) :
  Forall keyed (gMap a) ->
  truthy_names (data (selection a)) ->
  legend (exec updateMap a) =
  let color := colorScale (data (selection a)) in
  let hi := or_else (d3.max (data (selection a)) snd) 0%Q in
  let box d := {| extent := d; box_fill := d3.scale color d.1 |} in
  {| rects :=
       bindIndex (fun d _ => box d) box
         (map (fun c => let d := d3.invertExtent color c in
                        (or_else d.1 0%Q, or_else d.2 hi))
              (d3.range_ color))
         (rects (legend a));
     axis_scale := Some {| d3.ldomain := (0%Q, hi); d3.lrange := (50, 300) |};
     tickValues := d3.domain color;
     caption_x := Some 50;
     caption := JS.template ["Number of "; cuisine (selection a); " Restaurants"] |}.
Proof.
  intros Hk Hv.
  destruct (bindKey_spec (data (selection a)) (gMap a) Hk Hv)
    as (update & exit & nodes' & E & Hlen & Hspec).
  cbn zeta. rewrite colorScale_eq.
  unfold updateMap, exec, bind, get. rewrite range_of_max.
  unfold zoom. rewrite E. unfold modify, ret.
  destruct a as [z s r sw tv zv gc gm lg c cu ib cl]. reflexivity.
Qed.

Lemma legend_boxes (data : list (string * Q)) (m : Q) (old : list LegendBox) :
  d3.max data snd = Some m ->
  (0 < m)%Q ->
  (List.length old <= 5)%nat ->
  let color := colorScale data in
  let box d := {| extent := d; box_fill := d3.scale color d.1 |} in
  bindIndex (fun d _ => box d) box
    (map (fun c => let d := d3.invertExtent color c in
                   (or_else d.1 0%Q, or_else d.2 (or_else (d3.max data snd) 0%Q)))
         (d3.range_ color))
    old =
  [ {| extent := (0%Q, m); box_fill := Some "#bdd7e7" |};
    {| extent := (0%Q, threshold m 1); box_fill := Some "#bdd7e7" |};
    {| extent := (threshold m 1, threshold m 2); box_fill := Some "#6baed6" |};
    {| extent := (threshold m 2, threshold m 3); box_fill := Some "#3182bd" |};
    {| extent := (threshold m 3, threshold m 4); box_fill := Some "#08519c" |} ].
Proof.
  intros Hmax Hm Hold. cbn zeta.
  assert (Hc : colorScale data = d3.scaleThreshold_of (thresholds_of m) d3.schemeBlues5).
  { rewrite colorScale_eq, Hmax. now rewrite positive_not_zero. }
  pose proof (threshold_eq m 0) as E0. pose proof (threshold_eq m 1) as E1.
  pose proof (threshold_eq m 2) as E2. pose proof (threshold_eq m 3) as E3.
  pose proof (threshold_eq m 4) as E4.
  change (inject_Z (Z.of_nat 0)) with 0%Q in E0.
  change (inject_Z (Z.of_nat 1)) with 1%Q in E1.
  change (inject_Z (Z.of_nat 2)) with 2%Q in E2.
  change (inject_Z (Z.of_nat 3)) with 3%Q in E3.
  change (inject_Z (Z.of_nat 4)) with 4%Q in E4.
  assert (S0 : forall v, (v == 0)%Q -> d3.scale (colorScale data) v = Some "#bdd7e7").
  { intros v Hv. rewrite (scale_has_four_bins_aux data m v Hmax Hm).
    repeat destruct (Qlt_le_dec _ _); try reflexivity; exfalso; lra. }
  assert (S1 : d3.scale (colorScale data) (threshold m 1) = Some "#6baed6").
  { rewrite (scale_has_four_bins_aux data m _ Hmax Hm).
    repeat destruct (Qlt_le_dec _ _); try reflexivity; exfalso; lra. }
  assert (S2 : d3.scale (colorScale data) (threshold m 2) = Some "#3182bd").
  { rewrite (scale_has_four_bins_aux data m _ Hmax Hm).
    repeat destruct (Qlt_le_dec _ _); try reflexivity; exfalso; lra. }
  assert (S3 : d3.scale (colorScale data) (threshold m 3) = Some "#08519c").
  { rewrite (scale_has_four_bins_aux data m _ Hmax Hm).
    repeat destruct (Qlt_le_dec _ _); try reflexivity; exfalso; lra. }
  assert (T0 : JS.truthy_number (threshold m 0) = false).
  { unfold JS.truthy_number. apply negb_false_iff, Qeq_bool_iff. lra. }
  assert (T1 : JS.truthy_number (threshold m 1) = true) by (apply truthy_positive; lra).
  assert (T2 : JS.truthy_number (threshold m 2) = true) by (apply truthy_positive; lra).
  assert (T3 : JS.truthy_number (threshold m 3) = true) by (apply truthy_positive; lra).
  assert (T4 : JS.truthy_number (threshold m 4) = true) by (apply truthy_positive; lra).
  pose proof (truthy_positive m Hm) as Tm.
  rewrite bindIndex_all.
  2: { rewrite length_map, Hc. cbn. exact Hold. }
  rewrite map_map. rewrite Hmax.
  rewrite <- (map_map (d3.invertExtent (colorScale data))
                (fun d : option Q * option Q =>
                   {| extent := (or_else d.1 0%Q, or_else d.2 (or_else (Some m) 0%Q));
                      box_fill := d3.scale (colorScale data) (or_else d.1 0%Q, or_else d.2 (or_else (Some m) 0%Q)).1 |})).
  rewrite Hc at 1 2. unfold thresholds_of. cbn [seq map d3.range_ d3.scaleThreshold_of].
  rewrite invert_extents. cbn [map fst snd or_else].
  rewrite T0, T1, T2, T3, T4, Tm.
  rewrite (S0 0%Q) by reflexivity. rewrite S1, S2, S3. reflexivity.
Qed.

End LegendProperties.

Lemma cuisine_set_gMap f (a : App) : cuisine (selection (set_gMap f a)) = cuisine (selection a).
Proof. now destruct a. Qed.

Section LegendSessions.
Context `{JS.Host}.

Lemma session_rects (features : list string) (es : list event) :
  (List.length (rects (legend (run (start features) es))) <= 5)%nat.
Proof. apply session_page_ok. Qed.

(** X11. The legend after a well-named delivery whose greatest count [m] is
    1 or more, in terms of the thresholds 0 < [t1] < [t2] < [t3] < [t4]
    < [m] that the ticks show.  The first box runs over the whole axis,
    from 0 to [m], in the second colour: its upper end is the threshold
    0, which is falsy and so replaced by the end of the axis.  The other
    four boxes are the bins up to [t4]; from [t4] to [m] no box but the
    first is drawn.  The map paints a count of [m] in the last colour. *)
Theorem legend_of_positive_counts (features : list string) (es : list event)
    (categories : list (string * Q)) (m : Q) :
  truthy_names categories ->
  d3.max categories snd = Some m ->
  (1 <= m)%Q ->
  let a := run (start features) es in
  let a' := step a (zipView_dataChanged categories) in
  exists (t0 t1 t2 t3 t4 : Q) (rest : list Q),
    tickValues (legend a') = t0 :: t1 :: t2 :: t3 :: t4 :: rest /\
    (t0 == 0)%Q /\ (0 < t1)%Q /\ (t1 < t2)%Q /\ (t2 < t3)%Q /\ (t3 < t4)%Q /\ (t4 < m)%Q /\
    rects (legend a') =
      [ {| extent := (0%Q, m); box_fill := Some "#bdd7e7" |};
        {| extent := (0%Q, t1); box_fill := Some "#bdd7e7" |};
        {| extent := (t1, t2); box_fill := Some "#6baed6" |};
        {| extent := (t2, t3); box_fill := Some "#3182bd" |};
        {| extent := (t3, t4); box_fill := Some "#08519c" |} ] /\
    axis_scale (legend a') = Some {| d3.ldomain := (0%Q, m); d3.lrange := (50, 300) |} /\
    caption (legend a') = JS.template ["Number of "; cuisine (selection a); " Restaurants"] /\
    d3.scale (colorScale categories) m = Some "#08519c".
Proof.
  intros Hv Hmax Hm1. assert (Hm : (0 < m)%Q) by lra.
  cbn zeta. set (a := run (start features) es).
  pose proof (session_keyed features es) as Hkeyed. fold a in Hkeyed.
  pose proof (session_rects features es) as Hrects. fold a in Hrects.
  destruct (thresholds_increase m Hm) as (H0 & H1 & H2 & H3 & H4 & H5).
  exists (threshold m 0), (threshold m 1), (threshold m 2), (threshold m 3),
         (threshold m 4), [].
  destruct (step_zipView a categories (session_zipView features es)) as [-> _].
  set (a1 := set_selection _ a).
  assert (Hd1 : selection a1 = {| cuisine := cuisine (selection a); data := categories |})
    by (subst a1; now rewrite selection_set_selection).
  assert (Hg1 : gMap a1 = gMap a) by (subst a1; now rewrite gMap_set_selection).
  assert (Hl1 : legend a1 = legend a) by (subst a1; now rewrite legend_set_selection).
  rewrite updateMap_legend by (rewrite ?Hg1, ?Hd1; assumption).
  cbv zeta. rewrite Hd1, Hl1. cbn [data cuisine rects tickValues axis_scale caption].
  pose proof (legend_boxes categories m _ Hmax Hm Hrects) as Hboxes.
  split.
  { rewrite colorScale_eq, Hmax, positive_not_zero by exact Hm. reflexivity. }
  do 6 (split; [assumption|]).
  split; [exact Hboxes|]. split.
  { rewrite Hmax. cbn [or_else]. now rewrite truthy_positive. }
  split; [reflexivity|].
  rewrite (scale_has_four_bins_aux categories m m Hmax Hm).
  repeat destruct (Qlt_le_dec _ _); try reflexivity; exfalso; lra.
Qed.

(** X12. A click on a bar changes [selection.cuisine] and the query, not the
    legend: the caption keeps the old name until the map is redrawn, and
    then names the cuisine of the bar. *)
Theorem click_renames_legend_at_next_redraw (features : list string) (es : list event)
    (i : nat) (d : string * Q) :
  let a := run (start features) es in
  bars (gChart a) !! i = Some d ->
  truthy_names (data (selection a)) ->
  legend (step a (click i)) = legend a /\
  gMap (step a (click i)) = gMap a /\
  cuisine (selection (step a (click i))) = d.1 /\
  caption (legend (run a [click i; zoomend])) =
    JS.template ["Number of "; d.1; " Restaurants"].
Proof.
  cbn zeta. set (a := run (start features) es). intros Hb Hv.
  pose proof (session_keyed features (es ++ [click i])) as Hkeyed.
  rewrite run_snoc in Hkeyed. fold a in Hkeyed.
  change (run a [click i; zoomend]) with (step (step a (click i)) zoomend).
  rewrite (click_bar a i d Hb) in *.
  set (a1 := set_selection _ _) in *.
  assert (Hs : selection a1 = {| cuisine := d.1; data := data (selection a) |})
    by (subst a1; destruct a; reflexivity).
  split; [subst a1; destruct a; reflexivity|].
  split; [subst a1; destruct a; reflexivity|].
  split; [now rewrite Hs|].
  destruct (step_zoomend a1) as [-> _].
  rewrite updateMap_legend.
  - cbn [caption]. now rewrite cuisine_set_gMap, Hs.
  - rewrite gMap_set_gMap. now apply bindIndex_features.
  - now rewrite selection_set_gMap, Hs.
Qed.

End LegendSessions.

Lemma legend_of_positive_counts_witness :
  truthy_names example_counts /\
  d3.max example_counts snd = Some 12%Q /\
  (1 <= 12)%Q /\
  axis_scale (legend (step (run (start (H := example_host) ["10001"]) [])
                        (zipView_dataChanged example_counts))) =
  Some {| d3.ldomain := (0%Q, 12%Q); d3.lrange := (50, 300) |}.
Proof.
  assert (Hv : truthy_names example_counts) by (repeat constructor).
  assert (H1 : (1 <= 12)%Q) by discriminate.
  split; [exact Hv|]. split; [reflexivity|]. split; [exact H1|].
  pose proof (legend_of_positive_counts (H := example_host) ["10001"] [] example_counts 12
                Hv eq_refl H1) as P.
  cbn zeta in P.
  destruct P as (t0 & t1 & t2 & t3 & t4 & rest & _ & _ & _ & _ & _ & _ & _ & _ & P & _).
  exact P.
Defined.

Lemma click_renames_legend_at_next_redraw_witness :
  let a := run (start (H := example_host) ["10001"])
             [totalView_dataChanged [("Pizza", 3%Q)]] in
  bars (gChart a) !! 0%nat = Some ("Pizza", 3%Q) /\
  truthy_names (data (selection a)) /\
  caption (legend (step a (click 0))) = caption (legend a).
Proof.
  cbn zeta.
  assert (Hb : bars (gChart (run (start (H := example_host) ["10001"])
                               [totalView_dataChanged [("Pizza", 3%Q)]])) !! 0%nat =
               Some ("Pizza", 3%Q)) by reflexivity.
  assert (Hv : truthy_names
                 (data (selection (run (start (H := example_host) ["10001"])
                                     [totalView_dataChanged [("Pizza", 3%Q)]]))))
    by (vm_compute; constructor).
  split; [exact Hb|]. split; [exact Hv|].
  pose proof (click_renames_legend_at_next_redraw (H := example_host) ["10001"]
                [totalView_dataChanged [("Pizza", 3%Q)]] 0 ("Pizza", 3%Q) Hb Hv) as P.
  cbn zeta in P. destruct P as [P _]. now rewrite P.
Defined.

(** ** The selection controller over a session *)

Section ControllerSessions.
Context `{JS.Host}.

(** Events other than the edits and [mouseup] leave the controller
    alone. *)
Lemma step_off_controller (a : App) (e : event) :
  is_edit e = false ->
  is_mouseup e = false ->
  circle (step a e) = circle a /\
  circleUpdated (step a e) = circleUpdated a /\
  infoBox (step a e) = infoBox a /\
  subwaySource (step a e) = subwaySource a.
Proof.
  intros He Hm. repeat split; apply step_keeps; outside_footprint.
Qed.

Lemma mouseup_fields (a : App) :
  circle (step a mouseup) = circle a /\
  infoBox (step a mouseup) = infoBox a /\
  circleUpdated (step a mouseup) = false /\
  subwaySource (step a mouseup) =
    if circleUpdated a
    then carto.setQuery (circleQuery (circle a)) (subwaySource a)
    else subwaySource a.
Proof.
  rewrite step_mouseup. destruct (circleUpdated a) eqn:E; destruct a; cbn in *; auto.
Qed.

(** X13. The info box always shows the circle as it is: on every page of a
    session its contents are the caption of the current centre and
    radius. *)
Theorem info_box_shows_circle (features : list string) (es : list event) :
  infoBox (run (start features) es) = captionHtml (circle (run (start features) es)).
Proof.
  induction es as [|e es IH] using rev_ind.
  - change (run (start features) []) with (start features).
    destruct (start_fields features) as (_ & _ & _ & _ & _ & _ & _ & _ & _ & -> & _ & -> & _).
    reflexivity.
  - rewrite run_snoc. destruct (is_edit e) eqn:He.
    + destruct (edit_fields (run (start features) es) e He) as (_ & -> & -> & _).
      reflexivity.
    + destruct (is_mouseup e) eqn:Hm.
      * destruct e; try discriminate.
        destruct (mouseup_fields (run (start features) es)) as (-> & -> & _). exact IH.
      * destruct (step_off_controller (run (start features) es) e He Hm) as (-> & _ & -> & _).
        exact IH.
Qed.

(** X14. Whenever the controller is clean, the query of the subway source is
    the query of the circle on the page: the layer shows the stations
    around the circle the user sees. *)
Theorem clean_controller_matches_circle (features : list string) (es : list event) :
  circleUpdated (run (start features) es) = false ->
  carto.query (subwaySource (run (start features) es)) =
  circleQuery (circle (run (start features) es)).
Proof.
  induction es as [|e es IH] using rev_ind.
  - change (run (start features) []) with (start features).
    destruct (start_fields features) as (_ & _ & _ & _ & _ & _ & _ & _ & _ & _ & -> & _).
    discriminate.
  - rewrite run_snoc. destruct (is_edit e) eqn:He.
    + destruct (edit_fields (run (start features) es) e He) as (-> & _). discriminate.
    + destruct (is_mouseup e) eqn:Hm.
      * destruct e; try discriminate.
        destruct (mouseup_fields (run (start features) es)) as (-> & _ & _ & ->).
        intros _. destruct (circleUpdated (run (start features) es)) eqn:Hc.
        -- reflexivity.
        -- now apply IH.
      * destruct (step_off_controller (run (start features) es) e He Hm)
          as (-> & -> & _ & ->).
        exact IH.
Qed.

Lemma session_pushes (features : list string) (es : list event) :
  let a := run (start features) es in
  (List.length (carto.pushed (subwaySource a)) <= List.length (List.filter is_mouseup es))%nat /\
  (List.length (carto.pushed (subwaySource a)) + (if circleUpdated a then 1 else 0)
   <= 1 + List.length (List.filter is_edit es))%nat.
Proof.
  cbn zeta. induction es as [|e es IH] using rev_ind.
  - change (run (start features) []) with (start features).
    destruct (start_fields features) as (_ & _ & _ & -> & _ & _ & _ & _ & _ & _ & -> & _).
    cbn. lia.
  - rewrite run_snoc, !List.filter_app, !length_app. cbn [List.filter].
    destruct IH as [I1 I2]. destruct (is_edit e) eqn:He.
    + destruct (edit_fields (run (start features) es) e He) as (-> & _ & _ & ->).
      assert (Hm : is_mouseup e = false) by (destruct e; try discriminate; reflexivity).
      rewrite Hm. cbn [List.length].
      destruct (circleUpdated (run (start features) es)); lia.
    + destruct (is_mouseup e) eqn:Hm.
      * destruct e; try discriminate.
        destruct (mouseup_fields (run (start features) es)) as (_ & _ & -> & ->).
        cbn [List.length].
        destruct (circleUpdated (run (start features) es)); cbn [carto.setQuery carto.pushed];
          rewrite ?length_app; cbn [List.length]; lia.
      * destruct (step_off_controller (run (start features) es) e He Hm)
          as (_ & -> & _ & ->).
        cbn [List.length]. lia.
Qed.

(** X15. The edits of a drag are batched: a session pushes at most one query
    for every [mouseup], and at most one more than it has edit events. *)
Theorem queries_are_batched (features : list string) (es : list event) :
  let a := run (start features) es in
  (List.length (carto.pushed (subwaySource a)) <= List.length (List.filter is_mouseup es))%nat /\
  (List.length (carto.pushed (subwaySource a)) <= 1 + List.length (List.filter is_edit es))%nat.
Proof.
  destruct (session_pushes features es) as [P1 P2]. cbn zeta in *.
  split; [exact P1|]. lia.
Qed.

End ControllerSessions.

Lemma clean_controller_matches_circle_witness :
  let a := run (start (H := example_host) ["10001"]) [EDITRESIZE 500; mouseup; zoomend] in
  circleUpdated a = false /\
  carto.query (subwaySource a) = circleQuery (circle a).
Proof.
  cbn zeta.
  assert (Hc : circleUpdated
                 (run (start (H := example_host) ["10001"])
                    [EDITRESIZE 500; mouseup; zoomend]) = false) by reflexivity.
  split; [exact Hc|].
  exact (clean_controller_matches_circle (H := example_host) ["10001"]
           [EDITRESIZE 500; mouseup; zoomend] Hc).
Defined.

(** ** The chart and the restaurant source over a session *)

Lemma first_categories_app (es es' : list event) :
  first_categories (es ++ es') =
  match first_categories es with
  | [] => first_categories es'
  | categories => categories
  end.
Proof.
  induction es as [|e es IH]; [reflexivity|].
  destruct e as [[|c cs]| | | | | | ]; cbn [app first_categories]; auto.
Qed.

Lemma first_categories_grow (es es' : list event) (d : string * Q) :
  d ∈ firstn 25 (first_categories es) -> d ∈ firstn 25 (first_categories (es ++ es')).
Proof.
  rewrite first_categories_app. destruct (first_categories es); [|auto].
  cbn. intros Hd. now apply elem_of_nil in Hd.
Qed.

Section ChartSessions.
Context `{JS.Host}.

Lemma session_bars (features : list string) (es : list event) :
  bars (gChart (run (start features) es)) = firstn 25 (first_categories es).
Proof.
  destruct (start_fields features) as (_ & _ & _ & _ & Ht & Hz & Hg & _).
  apply subscribed_run; [now rewrite Ht | now rewrite Hz | now rewrite Hg].
Qed.

Lemma run_chart (es : list event) (a : App) :
  carto.dataChanged (totalView a) = [carto.initBarChart_cb] ->
  carto.dataChanged (zipView a) = [carto.zipChanged_cb] ->
  gChart a = {| axes := []; bars := [] |} ->
  gChart (run a es) =
  match first_categories es with
  | [] => {| axes := []; bars := [] |}
  | categories =>
      {| axes := ["axis axis--x"; "axis axis--y"; "grid axis--x"; "axis axis--x"];
         bars := firstn 25 categories |}
  end.
Proof.
  revert a. induction es as [|e es IH]; intros a Ht Hz Hg; [exact Hg|].
  rewrite run_cons.
  destruct e as [categories| | | | | | ].
  1: { rewrite step_total_subscribed by exact Ht.
       destruct categories as [|c cs].
       - cbn [first_categories]. apply IH; now destruct a.
       - cbn [first_categories]. set (a' := set_totalView _ _).
         destruct (unsubscribed_forever es a') as (_ & -> & _).
         + subst a'. destruct a; cbn in *. now rewrite Ht.
         + subst a'. now destruct a.
         + subst a'. destruct a; cbn in *. subst. cbn [axes bars app].
           now rewrite bindIndex_enter. }
  all: cbn [first_categories]; apply IH;
    [ rewrite <- Ht; f_equal | rewrite <- Hz; f_equal | rewrite <- Hg ];
    apply step_chart_fields;
    auto using totalView_chart_field, zipView_chart_field, gChart_chart_field;
    discriminate.
Qed.

(** X16. Every query a session hands to the restaurant source is the click
    query of a bar of the chart, and there is at most one for each click:
    an event that is not a click leaves the source as it is, and so does
    a click where there is no bar. *)
Theorem restaurant_queries_come_from_bars (features : list string) (es : list event) :
  let a := run (start features) es in
  Forall (fun q => exists d, d ∈ firstn 25 (first_categories es) /\ q = categoryQuery d.1)
    (carto.pushed (resData a)) /\
  (List.length (carto.pushed (resData a)) <= List.length (List.filter is_click es))%nat /\
  (forall e, is_click e = false -> resData (step a e) = resData a) /\
  (forall i, bars (gChart a) !! i = None -> step a (click i) = a).
Proof.
  cbn zeta.
  assert (Hmain :
    Forall (fun q => exists d, d ∈ firstn 25 (first_categories es) /\ q = categoryQuery d.1)
      (carto.pushed (resData (run (start features) es))) /\
    (List.length (carto.pushed (resData (run (start features) es))) <=
     List.length (List.filter is_click es))%nat);
    [|destruct Hmain as [M1 M2]; split; [exact M1|]; split; [exact M2|]; split;
      [intros e He; apply step_keeps; outside_footprint
      |intros i Hb; now apply click_nothing]].
  induction es as [|e es IH] using rev_ind.
  - change (run (start features) []) with (start features).
    destruct (start_fields features) as (_ & _ & -> & _). cbn. split; [constructor|lia].
  - destruct IH as [I1 I2].
    assert (I1' : Forall (fun q => exists d, d ∈ firstn 25 (first_categories (es ++ [e])) /\
                                             q = categoryQuery d.1)
                    (carto.pushed (resData (run (start features) es)))).
    { eapply Forall_impl; [exact I1|].
      intros q (d & Hd & ->). exists d. split; [now apply first_categories_grow|reflexivity]. }
    rewrite run_snoc, List.filter_app, length_app. cbn [List.filter].
    destruct (is_click e) eqn:Hc.
    + destruct e as [| |i| | | | ]; try discriminate.
      destruct (bars (gChart (run (start features) es)) !! i) as [d|] eqn:Hb.
      * rewrite (click_bar _ i d Hb).
        assert (E : carto.pushed
                      (resData
                         (set_selection (fun s => {| cuisine := d.1; data := data s |})
                            (set_resData (carto.setQuery (categoryQuery d.1))
                               (run (start features) es)))) =
                    (carto.pushed (resData (run (start features) es)) ++ [categoryQuery d.1])%list)
          by (now destruct (run (start features) es)).
        rewrite E, length_app. cbn [List.length]. split; [|lia].
        apply Forall_app. split; [exact I1'|]. constructor; [|constructor].
        exists d. split; [|reflexivity]. apply first_categories_grow.
        rewrite <- (session_bars features es). eapply list_elem_of_lookup_2. exact Hb.
      * rewrite click_nothing by exact Hb. cbn [List.length]. split; [exact I1'|lia].
    + assert (E : resData (step (run (start features) es) e) =
                  resData (run (start features) es))
        by (apply step_keeps; outside_footprint).
      rewrite E. cbn [List.length]. split; [exact I1'|lia].
Qed.

(** X17. The chart is built once, by the first [totalView] delivery that
    carries a category: before it there is no axis, no bar, and
    [initBarChart] is subscribed; from then on there are the four axis
    groups, the first 25 categories as bars, and no listener; later
    deliveries add nothing. *)
Theorem chart_is_built_once (features : list string) (es : list event) :
  let a := run (start features) es in
  gChart a =
    match first_categories es with
    | [] => {| axes := []; bars := [] |}
    | categories =>
        {| axes := ["axis axis--x"; "axis axis--y"; "grid axis--x"; "axis axis--x"];
           bars := firstn 25 categories |}
    end /\
  carto.dataChanged (totalView a) =
    match first_categories es with
    | [] => [carto.initBarChart_cb]
    | _ => []
    end.
Proof.
  cbn zeta. split; [|apply session_totalView].
  destruct (start_fields features) as (_ & _ & _ & _ & Ht & Hz & Hg & _).
  apply run_chart; [now rewrite Ht | now rewrite Hz | exact Hg].
Qed.

End ChartSessions.

(** ** Redrawing twice, and what an event leaves alone *)

Lemma App_eq (a b : App) :
  zipcodes a = zipcodes b -> selection a = selection b -> resData a = resData b ->
  subwaySource a = subwaySource b -> totalView a = totalView b -> zipView a = zipView b ->
  gChart a = gChart b -> gMap a = gMap b -> legend a = legend b -> circle a = circle b ->
  circleUpdated a = circleUpdated b -> infoBox a = infoBox b ->
  createChart_log a = createChart_log b -> a = b.
Proof. destruct a, b; cbn; intros; subst; reflexivity. Qed.

Lemma set_gMap_eq (a b : App) (f g : list PathNode -> list PathNode) :
  zipcodes a = zipcodes b -> selection a = selection b -> resData a = resData b ->
  subwaySource a = subwaySource b -> totalView a = totalView b -> zipView a = zipView b ->
  gChart a = gChart b -> f (gMap a) = g (gMap b) -> legend a = legend b ->
  circle a = circle b -> circleUpdated a = circleUpdated b -> infoBox a = infoBox b ->
  createChart_log a = createChart_log b -> set_gMap f a = set_gMap g b.
Proof. destruct a, b; cbn; intros; subst; f_equal; assumption. Qed.

Lemma nodes_eq (l l' : list PathNode) :
  map bound l = map bound l' -> map fill l = map fill l' -> l = l'.
Proof.
  revert l'. induction l as [|[b f] l IH]; intros [|[b' f'] l'] Hb Hf; cbn in *;
    try discriminate; [reflexivity|].
  injection Hb as -> Hb. injection Hf as -> Hf. f_equal. now apply IH.
Qed.

Lemma features_bound (fs : list string) :
  forall nodes : list PathNode,
    (List.length nodes <= List.length fs)%nat ->
    map bound
      (bindIndex (fun z node => {| bound := Feature z; fill := fill node |})
                 (fun z => {| bound := Feature z; fill := None |}) fs nodes) =
    map Feature fs.
Proof.
  induction fs as [|z fs IH]; intros [|node nodes] Hl; cbn in *; try reflexivity; try lia.
  - f_equal. apply (IH []). cbn. lia.
  - f_equal. apply IH. lia.
Qed.

Lemma joined_by_bound (data : list (string * Q)) (ks : list string) (l l' : list PathNode) :
  map bound l = map bound l' ->
  imap (joined data ks) l = imap (joined data ks) l'.
Proof.
  intros Hb. apply list_eq. intros i. rewrite !list_lookup_imap.
  apply (f_equal (fun l => l !! i)) in Hb. rewrite !list_lookup_fmap in Hb.
  destruct (l !! i) as [n|], (l' !! i) as [n'|]; cbn in *; try discriminate; [|reflexivity].
  injection Hb as Hb. unfold joined, node_key. now rewrite Hb.
Qed.

Section Idempotence.
Context `{JS.Host}.

Lemma zoomend_keeps {X} (p : App -> X) (a : App) :
  Forall (unaffected p) [fGMap; fLegend] -> p (step a zoomend) = p a.
Proof. intros Hp. now apply step_keeps. Qed.

(** X18. Redrawing twice is redrawing once: on every page of a session a
    second [zoomend] leaves the page as the first one left it, whether
    the redraw returns or throws. *)
Theorem second_zoomend_changes_nothing (features : list string) (es : list event) :
  let a := run (start features) es in
  step (step a zoomend) zoomend = step a zoomend.
Proof.
  cbn zeta. set (a := run (start features) es).
  remember (step a zoomend) as a' eqn:Ea0.
  assert (Ea' : a' = run (start features) (es ++ [zoomend])) by (subst a' a; now rewrite run_snoc).
  destruct (session_paths features es) as (Hz & Hkeys & Hlen). fold a in Hz, Hkeys, Hlen.
  destruct (session_paths features (es ++ [zoomend])) as (Hz' & Hkeys' & Hlen').
  rewrite <- Ea' in Hz', Hkeys', Hlen'.
  pose proof (session_keyed features es) as Hkeyed. fold a in Hkeyed.
  pose proof (session_keyed features (es ++ [zoomend])) as Hkeyed'. rewrite <- Ea' in Hkeyed'.
  pose proof (session_rects features es) as Hrects. fold a in Hrects.
  pose proof (session_rects features (es ++ [zoomend])) as Hrects'. rewrite <- Ea' in Hrects'.
  assert (Hsel : selection a' = selection a) by (subst a'; apply zoomend_keeps; by_fields).
  set (rb := bindIndex (fun z node => {| bound := Feature z; fill := fill node |})
               (fun z => {| bound := Feature z; fill := None |})).
  assert (E1 : a' = exec updateMap (set_gMap (rb (zipcodes a)) a))
    by (subst a'; now destruct (step_zoomend a) as [-> _]).
  assert (E2 : step a' zoomend = exec updateMap (set_gMap (rb (zipcodes a')) a'))
    by (now destruct (step_zoomend a') as [-> _]).
  rewrite Hz in E1. rewrite Hz' in E2.
  assert (K1 : Forall keyed (gMap (set_gMap (rb features) a)))
    by (rewrite gMap_set_gMap; now apply bindIndex_features).
  assert (K2 : Forall keyed (gMap (set_gMap (rb features) a')))
    by (rewrite gMap_set_gMap; now apply bindIndex_features).
  destruct (truthy_names_dec (data (selection a))) as [Hv|Hv].
  - assert (J1 := updateMap_joins _ K1). assert (J2 := updateMap_joins _ K2).
    assert (L1 := updateMap_legend _ K1). assert (L2 := updateMap_legend _ K2).
    rewrite selection_set_gMap in J1, J2, L1, L2. rewrite Hsel in J2, L2.
    destruct (J1 Hv) as [_ G1]. destruct (J2 Hv) as [_ G2].
    specialize (L1 Hv). specialize (L2 Hv). clear J1 J2.
    rewrite <- E1 in G1, L1. rewrite <- E2 in G2, L2.
    rewrite gMap_set_gMap in G1, G2. rewrite legend_set_gMap in L1, L2.
    unfold rb in G1, G2. rewrite features_keys in G1, G2 by lia.
    cbv zeta in L1, L2.
    rewrite bindIndex_all in L1, L2
      by (rewrite length_map, colorScale_eq; cbn; assumption).
    apply App_eq; try (apply zoomend_keeps; by_fields).
    + rewrite G2. etransitivity; [|symmetry; exact G1].
      apply joined_by_bound. now rewrite !features_bound by lia.
    + rewrite L2. symmetry. exact L1.
  - destruct (updateMap_throws _ K1) as (_ & F1 & _ & L1);
      [now rewrite selection_set_gMap|].
    rewrite <- E1 in F1, L1. rewrite gMap_set_gMap in F1. rewrite legend_set_gMap in L1.
    rewrite E2. etransitivity; [|symmetry; exact E1]. f_equal.
    apply set_gMap_eq; try (subst a'; apply zoomend_keeps; by_fields).
    + apply nodes_eq.
      * unfold rb. now rewrite !features_bound by lia.
      * unfold rb. rewrite !features_fills by assumption. rewrite F1.
        unfold rb. now rewrite features_fills by assumption.
    + exact L1.
Qed.

(** X19. The selection controller and the rest of the page do not interfere,
    on any page: an edit or a [mouseup] leaves the selection, the
    restaurant source, both views, the chart, the paths and the legend
    as they were, and every other event leaves the circle, the dirty
    flag, the info box and the subway source as they were. *)
Theorem controller_is_independent (a : App) (e : event) :
  (is_edit e || is_mouseup e = true ->
   selection (step a e) = selection a /\
   resData (step a e) = resData a /\
   totalView (step a e) = totalView a /\
   zipView (step a e) = zipView a /\
   gChart (step a e) = gChart a /\
   gMap (step a e) = gMap a /\
   legend (step a e) = legend a /\
   createChart_log (step a e) = createChart_log a) /\
  (is_edit e || is_mouseup e = false ->
   circle (step a e) = circle a /\
   circleUpdated (step a e) = circleUpdated a /\
   infoBox (step a e) = infoBox a /\
   subwaySource (step a e) = subwaySource a).
Proof.
  split; intros He.
  - repeat split; apply step_keeps; destruct e; try discriminate; by_fields.
  - apply orb_false_elim in He as [He Hm]. now apply step_off_controller.
Qed.

End Idempotence.

Lemma controller_is_independent_witness :
  is_edit (EDITRESIZE 500) || is_mouseup (EDITRESIZE 500) = true /\
  gMap (step (start (H := example_host) ["10001"]) (EDITRESIZE 500)) =
  gMap (start (H := example_host) ["10001"]).
Proof.
  split; [reflexivity|].
  pose proof (proj1 (controller_is_independent (H := example_host)
                       (start (H := example_host) ["10001"]) (EDITRESIZE 500)) eq_refl) as P.
  exact (proj1 (proj2 (proj2 (proj2 (proj2 (proj2 P)))))).
Defined.

(** ** Which handlers throw, and the cuisine of the selection *)

Section Exceptions.
Context `{JS.Host}.

Lemma total_result (a : App) (categories : list (string * Q)) :
  carto.dataChanged (totalView a) = [carto.initBarChart_cb] ->
  result (dispatch (totalView_dataChanged categories)) a =
  match categories with
  | [] => Throw TypeError
  | _ => Ok tt
  end.
Proof.
  intros Ht. unfold result, dispatch, trigger, bind, get. rewrite Ht.
  cbn [forEach call]. unfold initBarChart, bind. rewrite map_pair_id.
  destruct categories as [|c cs].
  - now rewrite createChart_empty.
  - now rewrite createChart_nonempty.
Qed.

(** X20. The handlers that throw, on any page of a session: a [totalView]
    delivery without a category while [initBarChart] is subscribed, a
    [zipView] delivery with an empty name, and a [zoomend] while the
    counts in [selection.data] have one.  Every other handler call
    returns. *)
Theorem which_handlers_throw (features : list string) (es : list event) (e : event) :
  let a := run (start features) es in
  result (dispatch e) a =
  match e with
  | totalView_dataChanged [] =>
      match first_categories es with
      | [] => Throw TypeError
      | _ => Ok tt
      end
  | zipView_dataChanged categories =>
      if truthy_names_dec categories then Ok tt else Throw TypeError
  | zoomend =>
      if truthy_names_dec (latest_counts [] es) then Ok tt else Throw TypeError
  | _ => Ok tt
  end.
Proof.
  cbn zeta. set (a := run (start features) es).
  pose proof (session_keyed features es) as Hkeyed. fold a in Hkeyed.
  destruct e as [categories|categories|i| |latlng|radius| ].
  - pose proof (session_totalView features es) as Ht. fold a in Ht.
    destruct (first_categories es) as [|c0 cs0].
    + rewrite (total_result a categories Ht). now destruct categories.
    + unfold result, dispatch, trigger, bind, get. rewrite Ht. cbn.
      now destruct categories.
  - destruct (step_zipView a categories (session_zipView features es)) as [_ ->].
    destruct (truthy_names_dec categories) as [Hv|Hv].
    + apply updateMap_returns_iff;
        [now rewrite gMap_set_selection | now rewrite selection_set_selection].
    + apply updateMap_throws;
        [now rewrite gMap_set_selection | now rewrite selection_set_selection].
  - unfold result, dispatch, bind, get.
    destruct (bars (gChart a) !! i); reflexivity.
  - destruct (step_zoomend a) as [_ ->].
    assert (Hd : data (selection a) = latest_counts [] es).
    { subst a. induction es as [|e es IH] using rev_ind.
      - change (run (start features) []) with (start features). cbn [latest_counts].
        now destruct (start_fields features) as (_ & -> & _).
      - rewrite run_snoc, latest_counts_snoc.
        destruct (session_redraw features es e) as [-> _].
        destruct e; auto using session_keyed. }
    rewrite <- Hd.
    assert (K : Forall keyed
                  (gMap (set_gMap
                           (bindIndex (fun z node => {| bound := Feature z; fill := fill node |})
                              (fun z => {| bound := Feature z; fill := None |}) (zipcodes a)) a)))
      by (rewrite gMap_set_gMap; now apply bindIndex_features).
    destruct (truthy_names_dec (data (selection a))) as [Hv|Hv].
    + apply updateMap_returns_iff; [exact K | now rewrite selection_set_gMap].
    + apply updateMap_throws; [exact K | now rewrite selection_set_gMap].
  - reflexivity.
  - reflexivity.
  - unfold result, dispatch, updateQuery, bind, get.
    destruct (circleUpdated a); reflexivity.
Qed.

(** X21. The name in [selection.cuisine] and the query of the restaurant
    source agree on every page of a session: before the first click on a
    bar the name is "All" and the source is as created; afterwards the
    query is the click query of that name. *)
Theorem cuisine_and_query_agree (features : list string) (es : list event) :
  let a := run (start features) es in
  (carto.pushed (resData a) = [] /\
   cuisine (selection a) = "All" /\
   resData a = resData (start features)) \/
  (carto.pushed (resData a) <> [] /\
   carto.query (resData a) = categoryQuery (cuisine (selection a))).
Proof.
  cbn zeta. induction es as [|e es IH] using rev_ind.
  - left. change (run (start features) []) with (start features).
    destruct (start_fields features) as (_ & -> & -> & _). auto.
  - rewrite run_snoc. set (a := run (start features) es) in *.
    assert (Hsame : resData (step a e) = resData a ->
                    cuisine (selection (step a e)) = cuisine (selection a) ->
                    (carto.pushed (resData (step a e)) = [] /\
                     cuisine (selection (step a e)) = "All" /\
                     resData (step a e) = resData (start features)) \/
                    (carto.pushed (resData (step a e)) <> [] /\
                     carto.query (resData (step a e)) =
                     categoryQuery (cuisine (selection (step a e))))).
    { intros -> ->. exact IH. }
    destruct e as [categories|categories|i| |latlng|radius| ].
    3: { destruct (bars (gChart a) !! i) as [d|] eqn:Hb.
         - right. rewrite (click_bar a i d Hb). destruct a as [? ? [q p] ? ? ? ? ? ? ? ? ? ?].
           cbn. split; [|reflexivity]. now destruct p.
         - rewrite click_nothing by exact Hb. exact IH. }
    2: { pose proof (session_zipView features es) as Hzv. fold a in Hzv.
         apply Hsame; [apply step_keeps; cbn [footprint]; rewrite Hzv;
                       cbn [flat_map callback_footprint app]; by_fields|].
         destruct (step_zipView a categories (session_zipView features es)) as [-> _].
         now rewrite updateMap_selection, selection_set_selection. }
    1: { pose proof (session_listeners features es) as Htv. fold a in Htv.
         apply Hsame;
           [ apply step_keeps | apply (step_keeps (fun a => cuisine (selection a))) ];
           cbn [footprint]; destruct Htv as [-> | ->];
           cbn [flat_map callback_footprint app]; by_fields. }
    all: apply Hsame;
      [ apply step_keeps | apply (step_keeps (fun a => cuisine (selection a))) ];
      cbn [footprint]; by_fields.
Qed.

End Exceptions.
